(** * IDR-CC pipeline: alignment, smoothing, interval extraction and
      pixel-threshold recolouring

    Shallow embedding of the numeric core of the bundle pipeline
    ([export_plot_data.py], [plot_combined_analysis.py],
    [plot_combined_dark_theme.py], [export_region_summary.py],
    [plot_overlay_threshold_basic.py]) and the properties proved about it.

    Conventions.
    - Python floats are modelled by exact rationals ([Q]); rounding of the
      IEEE arithmetic is not modelled.  Numeric results are compared with
      [Qeq], as Python's [==] compares values.
    - Python integers are [Z]; list indices that the code keeps
      non-negative are [nat].
    - A raised exception is a value of [result]. *)

From Stdlib Require Import QArith Qround Lqa Ascii.
From stdpp Require Import base list sorting gmap strings.

Local Open Scope Z_scope.

(** ** Exceptions *)

Inductive exn : Type :=
| ValueError (msg : string)
| IndexError.

Inductive result (A : Type) : Type :=
| Ok (a : A)
| Raise (e : exn).
Arguments Ok {A} a.
Arguments Raise {A} e.

#[global] Instance result_bind : MBind result := λ A B k m,
  match m with
  | Ok a => k a
  | Raise e => Raise e
  end.

#[global] Instance result_ret : MRet result := λ A a, Ok a.

(** [l[i]] for a non-negative index. *)
Definition index {A} (l : list A) (i : nat) : result A :=
  match l !! i with
  | Some a => Ok a
  | None => Raise IndexError
  end.

Fixpoint mapM_result {A B} (f : A → result B) (l : list A) : result (list B) :=
  match l with
  | [] => Ok []
  | a :: l' => b ← f a; bs ← mapM_result f l'; Ok (b :: bs)
  end.

(** ** Numbers *)

(** [sum(l)]: left fold of [+] starting from the integer 0. *)
Definition py_sum (l : list Q) : Q := foldl Qplus (0 # 1)%Q l.

(** [range(lo, hi)]. *)
Definition zrange (lo hi : Z) : list Z :=
  (λ k : nat, lo + Z.of_nat k) <$> seq 0 (Z.to_nat (hi - lo)).

(** [int(x)] on a float: truncation toward zero. *)
Definition py_int (q : Q) : Z :=
  if Qle_bool 0 q then Qfloor q else Qceiling q.

(** [a < b]. *)
Definition Qlt_bool (a b : Q) : bool := negb (Qle_bool b a).

(** ** Parsed input records *)

(** One data line of the coiled-coil report, as [parse_problist] stores it. *)
Record cc_entry : Type := CcEntry {
  position : Z;
  amino_acid : string;
  probability : Q;
  heptad_phase : string
}.

(** One row of the disorder-score CSV after [int()] / [float()]. *)
Record disorder_row : Type := DisorderRow {
  d_position : Z;
  d_residue : string;
  d_score : Q
}.

(** [score * 100 if score <= 1.0 else score]. *)
Definition scale_score (score : Q) : Q :=
  if Qle_bool score 1 then (score * 100)%Q else score.

(** ** PixelThresholdRecolorer *)

(** *** numpy float64 values that may leave the finite range

    [ax.get_ylim()] returns numpy [float64] scalars, for which a division
    by zero yields an infinity or a NaN (with a warning) instead of raising.
    Only the threshold row can become non-finite. *)
Inductive ext : Type :=
| Fin (q : Q)
| PInf
| NInf
| NaN.

(** [a / b] for finite [a], [b]. *)
Definition ext_div (a b : Q) : ext :=
  if Qeq_bool b 0 then
    if Qlt_bool 0 a then PInf
    else if Qlt_bool a 0 then NInf
    else NaN
  else Fin (a / b)%Q.

Definition ext_neg (a : ext) : ext :=
  match a with
  | Fin q => Fin (- q)%Q
  | PInf => NInf
  | NInf => PInf
  | NaN => NaN
  end.

Definition ext_add (a b : ext) : ext :=
  match a, b with
  | NaN, _ | _, NaN => NaN
  | Fin x, Fin y => Fin (x + y)%Q
  | PInf, NInf | NInf, PInf => NaN
  | PInf, _ | _, PInf => PInf
  | NInf, _ | _, NInf => NInf
  end.

Definition ext_sub (a b : ext) : ext := ext_add a (ext_neg b).

(** Product of a finite value and an infinity. *)
Definition scale_inf (x : Q) (positive : bool) : ext :=
  if Qeq_bool x 0 then NaN
  else if bool_decide (Qlt_bool 0 x = positive) then PInf else NInf.

Definition ext_mul (a b : ext) : ext :=
  match a, b with
  | NaN, _ | _, NaN => NaN
  | Fin x, Fin y => Fin (x * y)%Q
  | Fin x, PInf | PInf, Fin x => scale_inf x true
  | Fin x, NInf | NInf, Fin x => scale_inf x false
  | PInf, PInf | NInf, NInf => PInf
  | PInf, NInf | NInf, PInf => NInf
  end.

(** [px_y >= t] for an integer row. *)
Definition ge_ext (px_y : Z) (t : ext) : bool :=
  match t with
  | Fin q => Qle_bool q (inject_Z px_y)
  | NInf => true
  | PInf | NaN => false
  end.

(** *** Rasters *)

(** A pixel: the three colour channels read by [[..., :3]] and whatever
    channels follow (the alpha channel of an RGBA image). *)
Record pixel (C : Type) : Type := Px {
  red : C;
  green : C;
  blue : C;
  extra : list C
}.
Arguments Px {C} red green blue extra.
Arguments red {C} p.
Arguments green {C} p.
Arguments blue {C} p.
Arguments extra {C} p.

(** Whole-array operations act on every channel. *)
Definition px_map {C D} (f : C → D) (p : pixel C) : pixel D :=
  Px (f (red p)) (f (green p)) (f (blue p)) (f <$> extra p).

(** Operations on the [:3] view leave the other channels alone. *)
Definition rgb_map {C} (f : C → C) (p : pixel C) : pixel C :=
  Px (f (red p)) (f (green p)) (f (blue p)) (extra p).

(** Row-major grid, [img !! y !! x]. *)
Abbreviation raster C := (list (list (pixel C))).

Definition raster_map {C D} (f : C → D) (img : raster C) : raster D :=
  fmap (M := list) (px_map f) <$> img.

Definition get_px {C} (img : raster C) (y x : nat) : option (pixel C) :=
  row ← img !! y; row !! x.

Definition set_px {C} (img : raster C) (y x : nat) (p : pixel C) : raster C :=
  alter (λ row, <[x := p]> row) y img.

(** [img.shape[:2]]. *)
Definition height {C} (img : raster C) : Z := Z.of_nat (length img).
Definition width {C} (img : raster C) : Z := Z.of_nat (length (hd [] img)).

(** [astype(np.uint8)] on a float: truncation; a value outside [0, 256)
    wraps modulo 256. *)
Definition astype_uint8 (q : Q) : Z := py_int q `mod` 256.

(** Squared Euclidean distance of the colour channels to [target]. *)
Definition dist2 (p : pixel Q) (target : Q * Q * Q) : Q :=
  let '(tr, tg, tb) := target in
  ((red p - tr) * (red p - tr) + (green p - tg) * (green p - tg)
   + (blue p - tb) * (blue p - tb))%Q.

(** [np.linalg.norm(pixel - target) < tol], decided on the squares. *)
Definition norm_lt (p : pixel Q) (target : Q * Q * Q) (tol : Q) : bool :=
  Qlt_bool 0 tol && Qlt_bool (dist2 p target) (tol * tol).

(** [img[y, x]]: an index outside the array raises. *)
Definition read_px {C} (img : raster C) (y x : nat) : result (pixel C) :=
  match get_px img y x with
  | Some p => Ok p
  | None => Raise IndexError
  end.

(** [for a in l: st = body a st]; an exception ends the loop. *)
Definition for_each {A St} (l : list A) (body : A → St → result St) (st : St)
  : result St :=
  foldl (λ acc a, st ← acc; body a st) (Ok st) l.

(** [for i in range(lo, hi): st = body i st]. *)
Definition for_range {St} (lo hi : Z) (body : Z → St → result St) (st : St)
  : result St :=
  for_each (zrange lo hi) body st.

(** A rendered figure: its height in inches and the raster [savefig]
    produces at the resolution used by the caller. *)
Record figure : Type := Figure {
  figheight : Q;
  rendered : raster Z
}.

(** An axis: its window extent in inches (origin bottom-left) and its
    data-space Y limits. *)
Record axis : Type := Axis {
  bbox_x0 : Q;
  bbox_x1 : Q;
  bbox_y0 : Q;
  bbox_y1 : Q;
  ylim : Q * Q
}.

Definition left_px_of (ax : axis) (dpi : Z) : Z :=
  py_int (bbox_x0 ax * inject_Z dpi).
Definition right_px_of (ax : axis) (dpi : Z) : Z :=
  py_int (bbox_x1 ax * inject_Z dpi).
Definition top_px_of (fig : figure) (ax : axis) (dpi : Z) : Z :=
  py_int ((figheight fig - bbox_y1 ax) * inject_Z dpi).
Definition bottom_px_of (fig : figure) (ax : axis) (dpi : Z) : Z :=
  py_int ((figheight fig - bbox_y0 ax) * inject_Z dpi).

(** [top_px + (bottom_px - top_px) * (1 - (threshold - ylo) / (yhi - ylo))]. *)
Definition threshold_row (fig : figure) (ax : axis) (dpi : Z) (threshold : Q)
  : ext :=
  let top_px := top_px_of fig ax dpi in
  let bottom_px := bottom_px_of fig ax dpi in
  let thr_norm := ext_div (threshold - fst (ylim ax)) (snd (ylim ax) - fst (ylim ax)) in
  ext_add (Fin (inject_Z top_px))
          (ext_mul (Fin (inject_Z (bottom_px - top_px)))
                   (ext_sub (Fin 1) thr_norm)).

(** ** SmoothingFilter and SignalAligner *)

Module ExportPlotData.

(** [moving_average] of CC_analysis_MARCOIL/export_plot_data.py. *)
Definition moving_average (data : list Q) (window : Z) : result (list Q) :=
  match data with
  | [] => Ok []
  | _ :: _ =>
    if window <=? 0 then Raise (ValueError "window size must be positive")
    else if window `mod` 2 =? 0 then
      Raise (ValueError "centered moving average requires an odd window size")
    else if Z.of_nat (length data) <? window then
      let avg := (py_sum data / inject_Z (Z.of_nat (length data)))%Q in
      Ok (replicate (length data) avg)
    else
      let half_window := window `div` 2 in
      let valid_averages :=
        (λ i : nat,
           (py_sum (take (Z.to_nat window) (drop i data)) / inject_Z window)%Q)
        <$> seq 0 (Z.to_nat (Z.of_nat (length data) - window + 1)) in
      first_avg ← index valid_averages 0;
      last_avg ← index valid_averages (length valid_averages - 1);
      Ok (replicate (Z.to_nat half_window) first_avg
          ++ valid_averages
          ++ replicate (Z.to_nat half_window) last_avg)
  end.

(** [parse_disorder_scores]: the three parallel lists built row by row. *)
Definition parse_disorder_scores (disorder_csv : list disorder_row)
  : list Z * list string * list Q :=
  (d_position <$> disorder_csv,
   d_residue <$> disorder_csv,
   (λ r, scale_score (d_score r)) <$> disorder_csv).

(** Value stored in [cc_data_map] under a position. *)
Record cc_info : Type := CcInfo {
  info_amino_acid : string;
  prob_orig : Q;
  heptad : string
}.





End ExportPlotData.

Module PlotCombinedAnalysis.

(** [moving_average] of CC_analysis_MARCOIL/plot_combined_analysis.py. *)
Definition moving_average (data : list Q) (window : Z) : result (list Q) :=
  match data with
  | [] => Ok []
  | _ :: _ =>
    if window <=? 0 then Raise (ValueError "window size must be positive")
    else if window `mod` 2 =? 0 then
      Raise (ValueError "centered moving average requires an odd window size")
    else if Z.of_nat (length data) <? window then
      let avg := (py_sum data / inject_Z (Z.of_nat (length data)))%Q in
      Ok (replicate (length data) avg)
    else
      let half_window := window `div` 2 in
      let valid_averages :=
        (λ i : nat,
           (py_sum (take (Z.to_nat window) (drop i data)) / inject_Z window)%Q)
        <$> seq 0 (Z.to_nat (Z.of_nat (length data) - window + 1)) in
      first_avg ← index valid_averages 0;
      last_avg ← index valid_averages (length valid_averages - 1);
      Ok (replicate (Z.to_nat half_window) first_avg
          ++ valid_averages
          ++ replicate (Z.to_nat half_window) last_avg)
  end.

Definition COLOR_TOL : Q := 230.

(** [pixel * alpha_blend + 255 * (1 - alpha_blend)]. *)
Definition lighten (alpha_blend : Q) (p : pixel Q) : pixel Q :=
  rgb_map (λ c, c * alpha_blend + 255 * (1 - alpha_blend))%Q p.

(** The statements inside the two nested loops of
    [apply_threshold_lightening], for one pixel. *)
Definition lighten_body (color_rgb : Q * Q * Q) (alpha_blend : Q) (thr : ext)
    (px_x px_y : Z) (st : raster Q * Z) : result (raster Q * Z) :=
  let '(img_array, pixels_modified) := st in
  if ge_ext px_y thr then
    pixel ← read_px img_array (Z.to_nat px_y) (Z.to_nat px_x);
    let '(r, g, b) := color_rgb in
    let target_color := (r * 255, g * 255, b * 255)%Q in
    if norm_lt pixel target_color COLOR_TOL then
      Ok (set_px img_array (Z.to_nat px_y) (Z.to_nat px_x)
                 (lighten alpha_blend pixel),
          pixels_modified + 1)
    else Ok (img_array, pixels_modified)
  else Ok (img_array, pixels_modified).

(** [apply_threshold_lightening]: the image returned and the number of
    pixels modified. *)
Definition apply_threshold_lightening (fig : figure) (ax : axis)
    (color_rgb : Q * Q * Q) (threshold alpha_blend : Q)
  : result (raster Z * Z) :=
  let img_array := raster_map inject_Z (rendered fig) in
  let dpi := 300 in
  let left_px := left_px_of ax dpi in
  let right_px := right_px_of ax dpi in
  let top_px := top_px_of fig ax dpi in
  let bottom_px := bottom_px_of fig ax dpi in
  let threshold_y_pixel := threshold_row fig ax dpi threshold in
  let start_x := Z.max 0 (left_px - 5) in
  st ← for_range start_x (Z.min (right_px + 1) (width img_array)) (λ px_x,
         for_range (Z.max 0 top_px) (Z.min (bottom_px + 1) (height img_array))
           (lighten_body color_rgb alpha_blend threshold_y_pixel px_x))
         (img_array, 0);
  Ok (raster_map astype_uint8 st.1, st.2).

(** [parse_disorder_scores] of this file returns positions and scores. *)
Definition parse_disorder_scores (disorder_csv : list disorder_row)
  : list Z * list Q :=
  (d_position <$> disorder_csv,
   (λ r, scale_score (d_score r)) <$> disorder_csv).

(** Value stored in [cc_map] under a position. *)
Record cc_info : Type := CcInfo {
  prob_orig : Q;
  prob_ma : Q;
  heptad : string
}.

Record combined_row : Type := CombinedRow {
  Position : Z;
  Residue : string;
  Disorder_Score_Original : Q;
  Disorder_Score_3res_MA : Q;
  CC_Probability_Original : Q;
  CC_Probability_3res_MA : Q;
  Heptad_Phase : string;
  Data_Source : string
}.

(** The loop filling [cc_map] from [zip(cc_entries, cc_ma_values)]. *)
Definition build_cc_map (pairs : list (cc_entry * Q)) : gmap Z cc_info :=
  foldl (λ m '(entry, ma_val),
           <[position entry :=
               CcInfo (probability entry) ma_val (heptad_phase entry)]> m)
        ∅ pairs.

(** [export_combined_csv]: the rows written.  [residues_read] is the
    Residue column read back from the disorder file ([[]] when the file is
    missing). *)
Definition export_combined_csv (residues_read : list string)
    (disorder_pos : list Z) (disorder_scores disorder_ma : list Q)
    (cc_entries : list cc_entry) (cc_ma_values : list Q)
  : result (list combined_row) :=
  let residues :=
    if bool_decide (length residues_read ≠ length disorder_pos)
    then replicate (length disorder_pos) ""%string
    else residues_read in
  let cc_map := build_cc_map (zip cc_entries cc_ma_values) in
  mapM_result (λ '(idx, pos),
      let residue := default ""%string (residues !! idx) in
      disorder_orig ← index disorder_scores idx;
      disorder_ma_val ← index disorder_ma idx;
      Ok (match cc_map !! pos with
          | Some c =>
              CombinedRow pos residue disorder_orig disorder_ma_val
                (prob_orig c) (prob_ma c) (heptad c) "MARCOIL"
          | None =>
              CombinedRow pos residue disorder_orig disorder_ma_val
                0%Q 0%Q "N/A" "Filled (0.0%)"
          end))
    (zip (seq 0 (length disorder_pos)) disorder_pos).


End PlotCombinedAnalysis.

Module PlotCombinedDarkTheme.

(** [pixel * alpha_blend]. *)
Definition darken (alpha_blend : Q) (p : pixel Q) : pixel Q :=
  rgb_map (λ c, c * alpha_blend)%Q p.

(** The statements inside the two nested loops of [darken_threshold], for
    one pixel. *)
Definition darken_body (target : Q * Q * Q) (alpha_blend : Q) (thr : ext)
    (px_x px_y : Z) (img_array : raster Q) : result (raster Q) :=
  if ge_ext px_y thr then
    pixel ← read_px img_array (Z.to_nat px_y) (Z.to_nat px_x);
    if norm_lt pixel target (6 # 10) then
      Ok (set_px img_array (Z.to_nat px_y) (Z.to_nat px_x)
                 (darken alpha_blend pixel))
    else Ok img_array
  else Ok img_array.

(** The body of the loop over [axes_targets]. *)
Definition darken_entry (fig : figure) (threshold alpha_blend : Q) (dpi : Z)
    (height width : Z) (entry : axis * (Q * Q * Q)) (img_array : raster Q)
  : result (raster Q) :=
  let '(axis, target) := entry in
  let left_px := left_px_of axis dpi in
  let right_px := right_px_of axis dpi in
  let top_px := top_px_of fig axis dpi in
  let bottom_px := bottom_px_of fig axis dpi in
  let thr_px := threshold_row fig axis dpi threshold in
  let start_x := Z.max 0 (left_px - 5) in
  for_range start_x (Z.min (right_px + 1) width) (λ px_x,
    for_range (Z.max 0 top_px) (Z.min (bottom_px + 1) height)
      (darken_body target alpha_blend thr_px px_x))
    img_array.

(** [darken_threshold]. *)
Definition darken_threshold (fig : figure)
    (axes_targets : list (axis * (Q * Q * Q)))
    (threshold alpha_blend : Q) (dpi : Z) : result (raster Z) :=
  let img_array := raster_map (λ z, inject_Z z / 255)%Q (rendered fig) in
  let height := height img_array in
  let width := width img_array in
  img_array ← for_each axes_targets
                 (darken_entry fig threshold alpha_blend dpi height width)
                 img_array;
  Ok (raster_map (λ q, astype_uint8 (q * 255)) img_array).

End PlotCombinedDarkTheme.

(** ** IntervalExtractor *)

Module ExportRegionSummary.

(** One iteration of the scan: [st] is [(intervals, start)], [n] is
    [len(flags)], [i] the 1-based index. *)
Definition scan_step (n : nat) (st : list (nat * nat) * option nat)
    (iv : nat * bool) : list (nat * nat) * option nat :=
  let '(intervals, start) := st in
  let '(i, val) := iv in
  let start := if val && bool_decide (start = None) then Some i else start in
  match start with
  | Some s =>
      if negb val || bool_decide (i = n) then
        let e := if val && bool_decide (i = n) then i else (i - 1)%nat in
        (intervals ++ [(s, e)], None)
      else (intervals, Some s)
  | None => (intervals, None)
  end.

(** [flags_to_intervals] of export_region_summary.py. *)
Definition flags_to_intervals (flags : list bool) : list (nat * nat) :=
  match flags with
  | [] => []
  | _ :: _ =>
      fst (foldl (scan_step (length flags)) ([], None)
                 (zip (seq 1 (length flags)) flags))
  end.

End ExportRegionSummary.

Module PlotOverlayThresholdBasic.

Definition scan_step (n : nat) (st : list (nat * nat) * option nat)
    (iv : nat * bool) : list (nat * nat) * option nat :=
  let '(out, start) := st in
  let '(i, val) := iv in
  let start := if val && bool_decide (start = None) then Some i else start in
  match start with
  | Some s =>
      if negb val || bool_decide (i = n) then
        let e := if val && bool_decide (i = n) then i else (i - 1)%nat in
        (out ++ [(s, e)], None)
      else (out, Some s)
  | None => (out, None)
  end.

(** [flags_to_intervals] of plot_overlay_threshold_basic.py (no early
    return on the empty list). *)
Definition flags_to_intervals (flags : list bool) : list (nat * nat) :=
  fst (foldl (scan_step (length flags)) ([], None)
             (zip (seq 1 (length flags)) flags)).

End PlotOverlayThresholdBasic.

(** * Vocabulary of the specification *)

(** ** SmoothingFilter *)

(** Unweighted arithmetic mean. *)
Definition mean (l : list Q) : Q :=
  (py_sum l / inject_Z (Z.of_nat (length l)))%Q.

(** The contiguous slice of [w] values starting at 0-based offset [k]. *)
Definition window_at (data : list Q) (k w : nat) : list Q :=
  take w (drop k data).

(** Offset of the window whose mean is reported at 0-based index [i]:
    the centred window, moved inside the series at both edges. *)
Definition window_offset (n w i : nat) : nat :=
  ((i - w `div` 2) `min` (n - w))%nat.

(** Numeric equality of two series. *)
Definition series_eq (xs ys : list Q) : Prop := Forall2 Qeq xs ys.

(** ** IntervalExtractor *)

(** The flag at 1-based position [p]; [false] outside [1..N]. *)
Definition flag_at (flags : list bool) (p : nat) : bool :=
  match p with
  | O => false
  | S q => default false (flags !! q)
  end.
Arguments flag_at : simpl never.

(** [s..e] is a maximal run of true flags. *)
Definition maximal_run (flags : list bool) (s e : nat) : Prop :=
  (1 ≤ s ≤ e)%nat ∧ (e ≤ length flags)%nat
  ∧ (∀ p, (s ≤ p ≤ e)%nat → flag_at flags p = true)
  ∧ flag_at flags (s - 1) = false
  ∧ flag_at flags (e + 1) = false.

(** Position [p] lies in one of the intervals. *)
Definition covered (ivs : list (nat * nat)) (p : nat) : Prop :=
  ∃ s e, (s, e) ∈ ivs ∧ (s ≤ p ≤ e)%nat.

(** Interval [a] ends before interval [b] starts. *)
Definition before (a b : nat * nat) : Prop := (a.2 < b.1)%nat.

(** What the extractor owes for [flags]. *)
Record extracts_runs (flags : list bool) (ivs : list (nat * nat)) : Prop := {
  runs_exact : ∀ s e, (s, e) ∈ ivs ↔ maximal_run flags s e;
  runs_sorted : StronglySorted before ivs;
  runs_cover : ∀ p, covered ivs p ↔ flag_at flags p = true;
  runs_all_true :
    flags ≠ [] → Forall (λ b, b = true) flags → ivs = [(1%nat, length flags)];
  runs_all_false : Forall (λ b, b = false) flags → ivs = [];
  runs_close_at_end :
    flag_at flags (length flags) = true → ∃ s, last ivs = Some (s, length flags)
}.

(** End of the part of the series already turned into intervals. *)
Definition settled (k : nat) (start : option nat) : nat :=
  match start with
  | None => k
  | Some s0 => (s0 - 1)%nat
  end.

(** [out] holds exactly the maximal runs that end at or before [lim]. *)
Definition closed_upto (flags : list bool) (lim : nat)
    (out : list (nat * nat)) : Prop :=
  (∀ s e, (s, e) ∈ out ↔ maximal_run flags s e ∧ (e ≤ lim)%nat)
  ∧ StronglySorted before out
  ∧ (∀ p, (1 ≤ p ≤ lim)%nat → flag_at flags p = true → covered out p).

(** Loop invariant after [k] flags have been scanned. *)
Definition scan_inv (flags : list bool) (k : nat)
    (st : list (nat * nat) * option nat) : Prop :=
  closed_upto flags (settled k st.2) st.1
  ∧ match st.2 with
    | Some s0 =>
        (1 ≤ s0 ≤ k)%nat ∧ (k < length flags)%nat
        ∧ (∀ p, (s0 ≤ p ≤ k)%nat → flag_at flags p = true)
        ∧ flag_at flags (s0 - 1)%nat = false
    | None => k = 0%nat ∨ k = length flags ∨ flag_at flags k = false
    end.

(** ** SignalAligner *)

(** Entry [e] stands at index [j] of the sparse signal and no later entry
    has its position.  Without repeated positions this is every entry. *)
Definition last_at (data : list cc_entry) (j : nat) (e : cc_entry) : Prop :=
  data !! j = Some e
  ∧ ∀ j' e', (j < j')%nat → data !! j' = Some e' → position e' ≠ position e.



(** ** PixelThresholdRecolorer *)

(** Every channel of the pixel is a byte. *)
Definition byte_px (p : pixel Z) : Prop :=
  (0 ≤ red p < 256) ∧ (0 ≤ green p < 256) ∧ (0 ≤ blue p < 256)
  ∧ Forall (λ c, 0 ≤ c < 256) (extra p).

(** Every pixel of the raster holds bytes. *)
Definition byte_raster (img : raster Z) : Prop := Forall (Forall byte_px) img.

(** The raster is a grid: every row has the length of the first one, as in
    a numpy array. *)
Definition rectangular {C} (img : raster C) : Prop :=
  Forall (λ row, Z.of_nat (length row) = width img) img.

(** The raster has [h] rows of [w] pixels. *)
Definition shaped {C} (h w : Z) (img : raster C) : Prop :=
  height img = h ∧ Forall (λ row, Z.of_nat (length row) = w) img.

(** Row [y] lies strictly above the threshold row. *)
Definition strictly_above (y : nat) (t : ext) : Prop :=
  match t with
  | Fin q => (inject_Z (Z.of_nat y) < q)%Q
  | PInf => True
  | NInf | NaN => False
  end.

(** The active region of an axis: its column span widened 5 pixels to the
    left, its row span, at or below the threshold row. *)
Definition active (fig : figure) (ax : axis) (dpi : Z) (threshold : Q)
    (y x : nat) : bool :=
  ge_ext (Z.of_nat y) (threshold_row fig ax dpi threshold)
  && (left_px_of ax dpi - 5 <=? Z.of_nat x)
  && (Z.of_nat x <=? right_px_of ax dpi)
  && (top_px_of fig ax dpi <=? Z.of_nat y)
  && (Z.of_nat y <=? bottom_px_of fig ax dpi).

(** The cases in which the claim leaves pixel [(y, x)] alone: strictly
    above the threshold row, strictly outside the widened column span, or
    not matching the target colour. *)
Definition exempt (fig : figure) (ax : axis) (dpi : Z) (threshold : Q)
    (y x : nat) (matches : bool) : Prop :=
  strictly_above y (threshold_row fig ax dpi threshold)
  ∨ Z.of_nat x < left_px_of ax dpi - 5
  ∨ right_px_of ax dpi < Z.of_nat x
  ∨ matches = false.

(** [color_rgb * 255]. *)
Definition target_255 (color_rgb : Q * Q * Q) : Q * Q * Q :=
  let '(r, g, b) := color_rgb in (r * 255, g * 255, b * 255)%Q.

(** The float pixel [darken_threshold] works on. *)
Definition unit_px (p : pixel Z) : pixel Q := px_map (λ z, inject_Z z / 255)%Q p.

(** What one visit of the lightening loop does to the pixel in row [y]. *)
Definition lighten_px (color_rgb : Q * Q * Q) (alpha_blend : Q) (thr : ext)
    (y : nat) (p : pixel Q) : pixel Q :=
  if ge_ext (Z.of_nat y) thr
     && norm_lt p (target_255 color_rgb) PlotCombinedAnalysis.COLOR_TOL
  then PlotCombinedAnalysis.lighten alpha_blend p else p.

(** What one visit of the darkening loop does to the pixel in row [y]. *)
Definition darken_px (target : Q * Q * Q) (alpha_blend : Q) (thr : ext)
    (y : nat) (p : pixel Q) : pixel Q :=
  if ge_ext (Z.of_nat y) thr && norm_lt p target (6 # 10)
  then PlotCombinedDarkTheme.darken alpha_blend p else p.


(** A 2 x 2 all-red RGBA raster, rendered from a figure 2 pixels high at
    300 dpi. *)
Definition red_px : pixel Z := Px 255 0 0 [255].
Definition red_fig : figure := Figure (2 # 300) [[red_px; red_px]; [red_px; red_px]].
Definition Y_LIMITS : Q * Q := (- (5 # 1), 105 # 1)%Q.
(** An axis covering the whole raster. *)
Definition full_axis : axis := Axis 0 (1 # 300) 0 (2 # 300) Y_LIMITS.
(** An axis of zero height, on pixel row 1. *)
Definition flat_axis : axis := Axis 0 (1 # 300) (1 # 300) (1 # 300) Y_LIMITS.

Ltac solve_bytes :=
  repeat first
    [ lia
    | apply Forall_nil_2
    | apply Forall_cons_2
    | progress (unfold byte_raster, byte_px; simpl)
    | split ].


(** ** Region tables *)

Module RegionSummaryTables.

(** One row of combined_scores.csv after [int()] / [float()];
    [Residue] is [row.get("Residue", "")]. *)
Record combined_scores_row : Type := CombinedScoresRow {
  csv_Position : Z;
  csv_Residue : string;
  csv_Disorder_Score_Original : Q;
  csv_Disorder_Score_3res_MA : Q;
  csv_CC_Probability_Original : Q;
  csv_CC_Probability_3res_MA : Q
}.

(** [x * (100 if x <= 1 else 1)]. *)
Definition to_percent (x : Q) : Q :=
  (x * (if Qle_bool x 1 then 100 else 1))%Q.

(** [load_combined] of export_region_summary.py: six parallel lists. *)
Definition load_combined (combined_csv : list combined_scores_row)
  : list Z * list string * list Q * list Q * list Q * list Q :=
  (csv_Position <$> combined_csv,
   csv_Residue <$> combined_csv,
   (λ r, to_percent (csv_Disorder_Score_Original r)) <$> combined_csv,
   (λ r, to_percent (csv_Disorder_Score_3res_MA r)) <$> combined_csv,
   (λ r, to_percent (csv_CC_Probability_Original r)) <$> combined_csv,
   (λ r, to_percent (csv_CC_Probability_3res_MA r)) <$> combined_csv).

(** [any(s <= p <= e for s, e in tm_spans)]. *)
Definition in_any_span (tm_spans : list (Z * Z)) (p : Z) : bool :=
  existsb (λ '(s, e), (s <=? p) && (p <=? e)) tm_spans.

(** ["Yes" if flag else "No"]. *)
Definition yes_no (flag : bool) : string := if flag then "Yes" else "No".

(** One line of the per-residue table, before the [.2f] formatting. *)
Record positions_row : Type := PositionsRow {
  Position : Z;
  Residue : string;
  Disorder_Score_Original : Q;
  Disorder_Score_3res_MA : Q;
  In_IDR : string;
  CC_Probability_Original : Q;
  CC_Probability_3res_MA : Q;
  In_CC : string;
  In_TM : string
}.

(** One line of the intervals table: Type, Start, End, Length. *)
Record interval_row : Type := IntervalRow {
  iv_Type : string;
  iv_Start : Z;
  iv_End : Z;
  iv_Length : Z
}.

(** [[t, s, e, e - s + 1]]. *)
Definition interval_line (t : string) (se : Z * Z) : interval_row :=
  let '(s, e) := se in IntervalRow t s e (e - s + 1).

(** The 1-based pairs of [flags_to_intervals] as Python integers. *)
Definition flag_intervals (flags : list bool) : list (Z * Z) :=
  (λ '(s, e), (Z.of_nat s, Z.of_nat e))
  <$> ExportRegionSummary.flags_to_intervals flags.

(** [main] of export_region_summary.py after argument parsing: the rows
    of the per-residue table and of the intervals table.  [tm_spans] is
    [load_tm_gff(gff_path) if gff_path else []]. *)
Definition main (combined_csv : list combined_scores_row)
    (tm_spans : list (Z * Z)) (thr : Q)
  : list positions_row * list interval_row :=
  let '(pos, res, d0, d3, c0, c3) := load_combined combined_csv in
  let idr_flags := (λ x, Qle_bool thr x) <$> d0 in
  let cc_flags := (λ x, Qle_bool thr x) <$> c0 in
  let tm_flags :=
    match tm_spans with
    | [] => replicate (length pos) false
    | _ :: _ => in_any_span tm_spans <$> pos
    end in
  let positions :=
    (λ '(p, (r, (d_orig, (d_ma, (c_orig, (c_ma, (fi, (fc, ft)))))))),
       PositionsRow p r d_orig d_ma (yes_no fi) c_orig c_ma
                    (yes_no fc) (yes_no ft))
    <$> zip pos (zip res (zip d0 (zip d3 (zip c0 (zip c3
          (zip idr_flags (zip cc_flags tm_flags))))))) in
  let intervals :=
    (mjoin ((λ '(t, flags), interval_line t <$> flag_intervals flags)
            <$> [("IDR"%string, idr_flags); ("CC"%string, cc_flags)]))
    ++ (interval_line "TM" <$> tm_spans) in
  (positions, intervals).

End RegionSummaryTables.

(** Number of true flags. *)
Definition count_true (flags : list bool) : Z :=
  Z.of_nat (length (filter (λ b, b = true) flags)).

(** Residues in the intervals: the sum of [e - s + 1]. *)
Definition total_length (ivs : list (nat * nat)) : Z :=
  foldr (λ '(s, e) acc, (Z.of_nat e - Z.of_nat s + 1) + acc) 0 ivs.

(** Length of the run still open after [k] flags. *)
Definition open_length (k : nat) (start : option nat) : Z :=
  match start with
  | Some s0 => Z.of_nat k - Z.of_nat s0 + 1
  | None => 0
  end.

(** [sum(l)] on integers. *)
Definition sum_Z (l : list Z) : Z := foldr Z.add 0 l.

(** The line [main] writes for one row of the combined table. *)
Definition positions_line (tm_spans : list (Z * Z)) (thr : Q)
    (r : RegionSummaryTables.combined_scores_row)
  : RegionSummaryTables.positions_row :=
  let d0 := RegionSummaryTables.to_percent
              (RegionSummaryTables.csv_Disorder_Score_Original r) in
  let c0 := RegionSummaryTables.to_percent
              (RegionSummaryTables.csv_CC_Probability_Original r) in
  RegionSummaryTables.PositionsRow
    (RegionSummaryTables.csv_Position r) (RegionSummaryTables.csv_Residue r)
    d0
    (RegionSummaryTables.to_percent
       (RegionSummaryTables.csv_Disorder_Score_3res_MA r))
    (RegionSummaryTables.yes_no (Qle_bool thr d0))
    c0
    (RegionSummaryTables.to_percent
       (RegionSummaryTables.csv_CC_Probability_3res_MA r))
    (RegionSummaryTables.yes_no (Qle_bool thr c0))
    (RegionSummaryTables.yes_no
       (RegionSummaryTables.in_any_span tm_spans
          (RegionSummaryTables.csv_Position r))).

(** Some line of type [t] in the intervals table has [Start <= p <= End]. *)
Definition listed (intervals : list RegionSummaryTables.interval_row)
    (t : string) (p : Z) : Prop :=
  ∃ iv, iv ∈ intervals ∧ RegionSummaryTables.iv_Type iv = t
        ∧ RegionSummaryTables.iv_Start iv ≤ p ≤ RegionSummaryTables.iv_End iv.

(** Channel-wise order on pixels with the same extra channels. *)
Definition px_le {C} (le : C → C → Prop) (p p' : pixel C) : Prop :=
  le (red p) (red p') ∧ le (green p) (green p') ∧ le (blue p) (blue p')
  ∧ extra p' = extra p.

(** A float pixel that lies channel-wise between black and [q], with the
    extra channels of [q]. *)
Definition dimmed (q q' : pixel Q) : Prop :=
  (0 <= red q' ∧ red q' <= red q)%Q
  ∧ (0 <= green q' ∧ green q' <= green q)%Q
  ∧ (0 <= blue q' ∧ blue q' <= blue q)%Q
  ∧ extra q' = extra q.

(** ** Vectorised recolouring *)

(** [a[start:stop]] along an axis of length [n]: the half-open range of
    indices the slice selects (empty when the second bound does not exceed
    the first).  A negative bound counts from the end. *)
Definition py_slice (start stop n : Z) : Z * Z :=
  let clip i := if i <? 0 then Z.max 0 (i + n) else Z.min i n in
  (clip start, clip stop).

(** [np.clip(q, 0, 255)]. *)
Definition clip_0_255 (q : Q) : Q :=
  if Qlt_bool q 0 then 0%Q else if Qlt_bool 255 q then 255%Q else q.

Module PlotOverlayThreshold.

Definition COLOR_TOL : Q := 230.

(** [sub[mask] = blend(sub[mask])] seen from the whole array: [sub] is the
    view of rows [r0, r1) and columns [c0, c1), [row_value i] the entry of
    [mask_y] that meets row [i] of the view, [mask_color] the distance
    test. *)
Definition masked_blend (blend : pixel Q → pixel Q) (target : Q * Q * Q)
    (thr : ext) (r0 r1 c0 c1 : Z) (row_value : Z → Z) (img_array : raster Q)
  : raster Q :=
  imap (λ y row,
    imap (λ x p,
      if (r0 <=? Z.of_nat y) && (Z.of_nat y <? r1)
         && (c0 <=? Z.of_nat x) && (Z.of_nat x <? c1)
         && ge_ext (row_value (Z.of_nat y - r0)) thr
         && norm_lt p target COLOR_TOL
      then blend p else p) row) img_array.

(** The body shared by [apply_threshold_to_image] and the [darken] closure
    of [apply_dark_threshold]: slice, masks, masked assignment.  The
    row mask has one entry per element of [np.arange(top, bottom + 1)]; it
    must broadcast against the rows of the view and, as a boolean index,
    have exactly the shape of the view. *)
Definition recolour_view (blend : pixel Q → pixel Q) (img_array : raster Q)
    (fig : figure) (ax : axis) (color_rgb : Q * Q * Q) (dpi : Z)
    (threshold : Q) : result (raster Q) :=
  let left_px := left_px_of ax dpi in
  let right_px := right_px_of ax dpi in
  let top_px := top_px_of fig ax dpi in
  let bottom_px := bottom_px_of fig ax dpi in
  let thr_px := threshold_row fig ax dpi threshold in
  let target := target_255 color_rgb in
  let start_x := Z.max 0 (left_px - 5) in
  let '(r0, r1) := py_slice (Z.max 0 top_px) (bottom_px + 1) (height img_array) in
  let '(c0, c1) := py_slice start_x (right_px + 1) (width img_array) in
  if (r1 <=? r0) || (c1 <=? c0) then Ok img_array
  else
    let y_indices_len := Z.max 0 (bottom_px + 1 - Z.max 0 top_px) in
    let row_value i :=
      if y_indices_len =? 1 then Z.max 0 top_px else Z.max 0 top_px + i in
    if (y_indices_len =? r1 - r0) || (y_indices_len =? 1) then
      Ok (masked_blend blend target thr_px r0 r1 c0 c1 row_value img_array)
    else if r1 - r0 =? 1 then Raise IndexError
    else Raise (ValueError "operands could not be broadcast together").

(** [apply_threshold_to_image]: the array after the in-place update. *)
Definition apply_threshold_to_image (img_array : raster Q) (fig : figure)
    (ax : axis) (color_rgb : Q * Q * Q) (dpi : Z) (threshold alpha_blend : Q)
  : result (raster Q) :=
  recolour_view (PlotCombinedAnalysis.lighten alpha_blend)
                img_array fig ax color_rgb dpi threshold.

(** [apply_light_threshold]: the image saved.  [axes] is
    [(ax1, ax1_twin, ax2, ax2_twin)]. *)
Definition apply_light_threshold (fig : figure)
    (axes : axis * axis * axis * axis) (threshold alpha_blend : Q)
  : result (raster Z) :=
  let dpi := 300 in
  let img := raster_map inject_Z (rendered fig) in
  let '(ax1, ax1_twin, ax2, ax2_twin) := axes in
  img ← apply_threshold_to_image img fig ax1 (1, 0, 0)%Q dpi threshold alpha_blend;
  img ← apply_threshold_to_image img fig ax1_twin (0, 0, 1)%Q dpi threshold alpha_blend;
  img ← apply_threshold_to_image img fig ax2 (1, 0, 0)%Q dpi threshold alpha_blend;
  img ← apply_threshold_to_image img fig ax2_twin (0, 0, 1)%Q dpi threshold alpha_blend;
  let img := raster_map clip_0_255 img in
  Ok (raster_map astype_uint8 img).

(** [apply_dark_threshold], with its closure [darken]. *)
Definition apply_dark_threshold (fig : figure)
    (axes : axis * axis * axis * axis) (threshold alpha_blend : Q)
  : result (raster Z) :=
  let dpi := 300 in
  let img := raster_map inject_Z (rendered fig) in
  let '(ax1, ax1_twin, ax2, ax2_twin) := axes in
  let darken img ax color_rgb :=
    recolour_view (PlotCombinedDarkTheme.darken alpha_blend)
                  img fig ax color_rgb dpi threshold in
  img ← darken img ax1 (1, 0, 0)%Q;
  img ← darken img ax1_twin (0, 0, 1)%Q;
  img ← darken img ax2 (1, 0, 0)%Q;
  img ← darken img ax2_twin (0, 0, 1)%Q;
  let img := raster_map clip_0_255 img in
  Ok (raster_map astype_uint8 img).

End PlotOverlayThreshold.

(** Pixel [(y, x)] lies in the view cut by [recolour_view] out of an array
    of [h] rows and [w] columns. *)
Definition in_view (fig : figure) (ax : axis) (dpi : Z) (h w : Z)
    (y x : nat) : bool :=
  let rows := py_slice (Z.max 0 (top_px_of fig ax dpi))
                       (bottom_px_of fig ax dpi + 1) h in
  let cols := py_slice (Z.max 0 (left_px_of ax dpi - 5))
                       (right_px_of ax dpi + 1) w in
  (rows.1 <=? Z.of_nat y) && (Z.of_nat y <? rows.2)
  && (cols.1 <=? Z.of_nat x) && (Z.of_nat x <? cols.2).

(** The exception numpy raises when the row mask does not fit a view of
    [rows] rows: the mask broadcasts against a single row and then fails as
    a boolean index, and does not broadcast otherwise. *)
Definition mask_mismatch (rows : Z) : exn :=
  if rows =? 1 then IndexError
  else ValueError "operands could not be broadcast together".

(** The box of [ax] does not reach below a raster of [h] rows. *)
Definition on_raster (fig : figure) (ax : axis) (dpi h : Z) : Prop :=
  0 ≤ bottom_px_of fig ax dpi + 1 ≤ h.

(** Pixel [(y, x)] is in the view of [ax] and at or below its threshold
    row. *)
Definition in_reach (fig : figure) (ax : axis) (dpi : Z) (threshold : Q)
    (h w : Z) (y x : nat) : bool :=
  in_view fig ax dpi h w y x
  && ge_ext (Z.of_nat y) (threshold_row fig ax dpi threshold).

(** 1 when the pixel of [img] at row [y], column [x] passes the test
    [hit], else 0. *)
Definition hit_at (hit : nat → pixel Q → bool) (img : raster Q) (x y : Z) : Z :=
  match get_px img (Z.to_nat y) (Z.to_nat x) with
  | Some p => Z.b2z (hit (Z.to_nat y) p)
  | None => 0
  end.

(** Number of pixels of the window that pass the test. *)
Definition count_hits (hit : nat → pixel Q → bool) (img : raster Q)
    (xlo xhi ylo yhi : Z) : Z :=
  sum_Z ((λ x, sum_Z (hit_at hit img x <$> zrange ylo yhi)) <$> zrange xlo xhi).

(** The test made by the lightening loop on the pixel of row [y]. *)
Definition lighten_hit (color_rgb : Q * Q * Q) (thr : ext) (y : nat)
    (p : pixel Q) : bool :=
  ge_ext (Z.of_nat y) thr
  && norm_lt p (target_255 color_rgb) PlotCombinedAnalysis.COLOR_TOL.

(** ** The ProbList parser

    Text is modelled by [string], a character by its code point below 256.
    The limit Python puts on the number of digits [int()] accepts is not
    modelled. *)

Module Text.

(** [c.isspace()], which is also the class [\s] of a [str] pattern. *)
Definition is_space (c : ascii) : bool :=
  let n := nat_of_ascii c in
  ((9 <=? n) && (n <=? 13))%nat || ((28 <=? n) && (n <=? 32))%nat
  || (n =? 133)%nat || (n =? 160)%nat.

(** The class [\d]. *)
Definition is_digit (c : ascii) : bool :=
  let n := nat_of_ascii c in ((48 <=? n) && (n <=? 57))%nat.

(** The class [[\d.]]. *)
Definition is_digit_or_dot (c : ascii) : bool :=
  is_digit c || (nat_of_ascii c =? 46)%nat.

(** The class [[A-Z]]. *)
Definition is_upper (c : ascii) : bool :=
  let n := nat_of_ascii c in ((65 <=? n) && (n <=? 90))%nat.

(** The class [[A-Z*]]. *)
Definition is_upper_or_star (c : ascii) : bool :=
  is_upper c || (nat_of_ascii c =? 42)%nat.

(** The class [[a-g]]. *)
Definition is_a_to_g (c : ascii) : bool :=
  let n := nat_of_ascii c in ((97 <=? n) && (n <=? 103))%nat.

Definition is_empty (s : string) : bool :=
  match s with
  | EmptyString => true
  | String _ _ => false
  end.

(** The longest prefix whose characters are in the class, and the rest:
    what a greedy [c*] consumes. *)
Fixpoint span (f : ascii → bool) (s : string) : string * string :=
  match s with
  | EmptyString => (EmptyString, EmptyString)
  | String c s' =>
      if f c then let '(a, b) := span f s' in (String c a, b)
      else (EmptyString, s)
  end.

Definition lstrip (s : string) : string := (span is_space s).2.

Fixpoint rstrip (s : string) : string :=
  match s with
  | EmptyString => EmptyString
  | String c s' =>
      let r := rstrip s' in
      if is_empty r && is_space c then EmptyString else String c r
  end.

(** [s.strip()]. *)
Definition strip (s : string) : string := rstrip (lstrip s).

(** [s.startswith('>')]. *)
Definition startswith_gt (s : string) : bool :=
  match s with
  | String c _ => (nat_of_ascii c =? 62)%nat
  | EmptyString => false
  end.

(** [s[1:]]. *)
Definition tail (s : string) : string :=
  match s with
  | String _ s' => s'
  | EmptyString => EmptyString
  end.

(** [s.split('##')[0]] when ['##' in s], else [None]. *)
Fixpoint before_hashes (s : string) : option string :=
  match s with
  | EmptyString => None
  | String c s' =>
      match s' with
      | String c' _ =>
          if (nat_of_ascii c =? 35)%nat && (nat_of_ascii c' =? 35)%nat
          then Some EmptyString
          else String c <$> before_hashes s'
      | EmptyString => None
      end
  end.

(** Value of a string of decimal digits, read after the digits worth [n]. *)
Fixpoint digits_from (n : Z) (s : string) : Z :=
  match s with
  | EmptyString => n
  | String c s' => digits_from (10 * n + (Z.of_nat (nat_of_ascii c) - 48)) s'
  end.

Definition digits_value (s : string) : Z := digits_from 0 s.

(** [int(s)] for [s] matched by [\d+]. *)
Definition py_int_of (s : string) : Z := digits_value s.

(** [float(s)] for [s] matched by [[\d.]+]: digits with at most one dot
    and at least one digit. *)
Definition py_float_of (s : string) : result Q :=
  let '(whole, rest) := span is_digit s in
  match rest with
  | EmptyString => Ok (inject_Z (digits_value whole))
  | String _ frac =>
      (* the first character that is not a digit is a dot *)
      let '(frac_digits, rest') := span is_digit frac in
      if is_empty rest' && negb (is_empty whole && is_empty frac_digits) then
        Ok (inject_Z (digits_value (whole +:+ frac_digits))
            / inject_Z (10 ^ Z.of_nat (String.length frac_digits)))%Q
      else Raise (ValueError "could not convert string to float")
  end.

End Text.

Module ProbList.

Import Text.

(** [re.match(r'\s*(\d+)\s+(R)\s+([\d.]+)\s+([a-g])', line).groups()] for
    the residue class [R].  Neighbouring classes of the pattern are
    disjoint, so the greedy match is the only candidate. *)
Definition match_data_line (residue : ascii → bool) (line : string)
  : option (string * string * string * string) :=
  let '(_, s) := span is_space line in
  let '(pos, s) := span is_digit s in
  if is_empty pos then None else
  let '(gap1, s) := span is_space s in
  if is_empty gap1 then None else
  match s with
  | EmptyString => None
  | String aa s =>
      if negb (residue aa) then None else
      let '(gap2, s) := span is_space s in
      if is_empty gap2 then None else
      let '(prob, s) := span is_digit_or_dot s in
      if is_empty prob then None else
      let '(gap3, s) := span is_space s in
      if is_empty gap3 then None else
      match s with
      | EmptyString => None
      | String phase _ =>
          if is_a_to_g phase
          then Some (pos, String aa EmptyString, prob, String phase EmptyString)
          else None
      end
  end.

(** The name a header line gives: the text after ['>'], up to the first
    ['##'] if there is one, stripped. *)
Definition header_name (line : string) : string :=
  let seq_info := strip (tail line) in
  match before_hashes seq_info with
  | Some name => strip name
  | None => seq_info
  end.

(** The body of the loop over the lines of the file: [st] is
    [(results, current_seq)]. *)
Definition parse_line (residue : ascii → bool) (line : string)
    (st : gmap string (list cc_entry) * option string)
  : result (gmap string (list cc_entry) * option string) :=
  let '(results, current_seq) := st in
  let line := strip line in
  if startswith_gt line then
    let current := header_name line in
    Ok (<[current := []]> results, Some current)
  else
    match match_data_line residue line, current_seq with
    | Some (pos, aa, prob, phase), Some current =>
        if is_empty current then Ok st
        else
          probability ← py_float_of prob;
          Ok (alter (λ entries,
                       entries ++ [CcEntry (py_int_of pos) aa probability phase])
                    current results,
              current_seq)
    | _, _ => Ok st
    end.

(** [parse_problist] with the residue class of its pattern. *)
Definition parse_problist_with (residue : ascii → bool) (lines : list string)
  : result (gmap string (list cc_entry)) :=
  st ← for_each lines (parse_line residue) (∅, None);
  Ok st.1.

End ProbList.

Module ExportPlotDataParser.
(** [parse_problist] of export_plot_data.py: residues [[A-Z*]]. *)
Definition parse_problist : list string → result (gmap string (list cc_entry)) :=
  ProbList.parse_problist_with Text.is_upper_or_star.
End ExportPlotDataParser.

Module PlotCombinedAnalysisParser.
(** [parse_problist] of plot_combined_analysis.py: residues [[A-Z]]. *)
Definition parse_problist : list string → result (gmap string (list cc_entry)) :=
  ProbList.parse_problist_with Text.is_upper.
End PlotCombinedAnalysisParser.

(** The line is a header: stripped, it starts with ['>']. *)
Definition is_header (line : string) : bool :=
  Text.startswith_gt (Text.strip line).

(** The sequence name a header line announces. *)
Definition announced (line : string) : string :=
  ProbList.header_name (Text.strip line).

(** The residue field of a data line as the pattern with [[A-Z*]] reads
    it; [None] when the line does not match. *)
Definition residue_of (line : string) : option string :=
  match ProbList.match_data_line Text.is_upper_or_star (Text.strip line) with
  | Some (_, aa, _, _) => Some aa
  | None => None
  end.


(** ** The threshold version built by [plot_combined_analysis] *)

Module PlotCombinedAnalysisThreshold.




End PlotCombinedAnalysisThreshold.




(** ** Names of the files [plot_combined_analysis] writes *)

Module OutputNames.

(** [c in s]. *)
Fixpoint has_char (c : ascii) (s : string) : bool :=
  match s with
  | EmptyString => false
  | String c' s' => Ascii.eqb c' c || has_char c s'
  end.

(** [s.rsplit('.', 1)] when ['.' in s]: the text before and after the
    last dot. *)
Fixpoint rsplit_dot (s : string) : option (string * string) :=
  match s with
  | EmptyString => None
  | String c s' =>
      match rsplit_dot s' with
      | Some (a, b) => Some (String c a, b)
      | None => if Ascii.eqb c "." then Some (EmptyString, s') else None
      end
  end.

(** [s.replace(' ', '_')]. *)
Fixpoint replace_spaces (s : string) : string :=
  match s with
  | EmptyString => EmptyString
  | String c s' =>
      String (if Ascii.eqb c " " then "_"%char else c) (replace_spaces s')
  end.

(** [threshold_output]: the name of the threshold image.  [output_file]
    is [None] for [None]; an empty name counts as none. *)
Definition threshold_output (output_file : option string) (seq_name : string)
  : string :=
  match output_file with
  | Some f =>
      if Text.is_empty f
      then replace_spaces seq_name +:+ "_combined_analysis_threshold.png"
      else
        let base := match rsplit_dot f with
                    | Some (a, _) => a
                    | None => f
                    end in
        let ext := match rsplit_dot f with
                   | Some (_, b) => b
                   | None => "png"%string
                   end in
        base +:+ "_threshold." +:+ ext
  | None => replace_spaces seq_name +:+ "_combined_analysis_threshold.png"
  end.

(** [csv_filename]. *)
Definition csv_filename (seq_name : string) : string :=
  replace_spaces seq_name +:+ "_combined_scores.csv".

End OutputNames.

(** ** Region tables of the overlay scripts *)

Module OverlayRegions.

(** One row of the plot-data CSV after [int()] / [float()]; [Residue]
    and [Heptad_Phase] are read with [row.get(..., "")]. *)
Record plot_csv_row : Type := PlotCsvRow {
  pc_Position : Z;
  pc_Residue : string;
  pc_Disorder_Score_Original : Q;
  pc_Disorder_Score_3res_MA : Q;
  pc_CC_Probability_Original : Q;
  pc_CC_Probability_3res_MA : Q;
  pc_Heptad_Phase : string
}.

(** [load_plot_data] of the overlay scripts: seven parallel columns,
    returned as [pos, residues, d0, d3, c0, c3, heptads]. *)
Definition load_plot_data (csv : list plot_csv_row)
  : list Z * list string * list Q * list Q * list Q * list Q * list string :=
  (pc_Position <$> csv,
   pc_Residue <$> csv,
   pc_Disorder_Score_Original <$> csv,
   pc_Disorder_Score_3res_MA <$> csv,
   pc_CC_Probability_Original <$> csv,
   pc_CC_Probability_3res_MA <$> csv,
   pc_Heptad_Phase <$> csv).

(** One line of [<prefix>_regions_positions.csv], before the [.2f]
    formatting. *)
Record regions_row : Type := RegionsRow {
  rg_Position : Z;
  rg_Residue : string;
  rg_Disorder_Score_Original : Q;
  rg_Disorder_Score_3res_MA : Q;
  rg_In_IDR : string;
  rg_CC_Probability_Original : Q;
  rg_CC_Probability_3res_MA : Q;
  rg_In_CC : string;
  rg_Heptad_Phase : string;
  rg_In_TM : string
}.

End OverlayRegions.

Module PlotOverlayBasicRegions.

Import OverlayRegions.

(** The 1-based pairs of this script's [flags_to_intervals] as Python
    integers. *)
Definition flag_intervals (flags : list bool) : list (Z * Z) :=
  (λ '(s, e), (Z.of_nat s, Z.of_nat e))
  <$> PlotOverlayThresholdBasic.flags_to_intervals flags.

(** [export_regions] of plot_overlay_threshold_basic.py: no TM input, the
    TM flags are [[False] * len(pos)] and no TM line is written. *)
Definition export_regions (pos : list Z) (residues heptads : list string)
    (d0 d3 c0 c3 : list Q) (threshold : Q)
  : list regions_row * list RegionSummaryTables.interval_row :=
  let idr_flags := (λ v, Qle_bool threshold v) <$> d0 in
  let cc_flags := (λ v, Qle_bool threshold v) <$> c0 in
  let tm_flags := replicate (length pos) false in
  let positions :=
    (λ '(p, (r, (hp, (d_orig, (d_ma, (c_orig, (c_ma, (fi, (fc, ft))))))))),
       RegionsRow p r d_orig d_ma (RegionSummaryTables.yes_no fi)
                  c_orig c_ma (RegionSummaryTables.yes_no fc)
                  hp (RegionSummaryTables.yes_no ft))
    <$> zip pos (zip residues (zip heptads (zip d0 (zip d3 (zip c0 (zip c3
          (zip idr_flags (zip cc_flags tm_flags)))))))) in
  let intervals :=
    mjoin ((λ '(t, flags),
              RegionSummaryTables.interval_line t
              <$> flag_intervals flags)
           <$> [("IDR"%string, idr_flags); ("CC"%string, cc_flags)]) in
  (positions, intervals).

End PlotOverlayBasicRegions.

Module PlotDeepTmhmmRegions.

Import OverlayRegions.

(** [export_regions] of plot_deeptmhmm_overlay_threshold.py; its
    [flags_to_intervals] is the text of export_region_summary.py's. *)
Definition export_regions (pos : list Z) (residues heptads : list string)
    (d0 d3 c0 c3 : list Q) (tm_spans : list (Z * Z)) (threshold : Q)
  : list regions_row * list RegionSummaryTables.interval_row :=
  let idr_flags := (λ v, Qle_bool threshold v) <$> d0 in
  let cc_flags := (λ v, Qle_bool threshold v) <$> c0 in
  let tm_flags :=
    match tm_spans with
    | [] => replicate (length pos) false
    | _ :: _ => RegionSummaryTables.in_any_span tm_spans <$> pos
    end in
  let positions :=
    (λ '(p, (r, (hp, (d_orig, (d_ma, (c_orig, (c_ma, (fi, (fc, ft))))))))),
       RegionsRow p r d_orig d_ma (RegionSummaryTables.yes_no fi)
                  c_orig c_ma (RegionSummaryTables.yes_no fc)
                  hp (RegionSummaryTables.yes_no ft))
    <$> zip pos (zip residues (zip heptads (zip d0 (zip d3 (zip c0 (zip c3
          (zip idr_flags (zip cc_flags tm_flags)))))))) in
  let intervals :=
    (mjoin ((λ '(t, flags),
               RegionSummaryTables.interval_line t
               <$> RegionSummaryTables.flag_intervals flags)
            <$> [("IDR"%string, idr_flags); ("CC"%string, cc_flags)]))
    ++ (RegionSummaryTables.interval_line "TM" <$> tm_spans) in
  (positions, intervals).

End PlotDeepTmhmmRegions.

(** The overlay scripts' [main]: [load_plot_data], then [export_regions]. *)
Definition overlay_basic_regions (csv : list OverlayRegions.plot_csv_row)
    (threshold : Q) :=
  let '(pos, residues, d0, d3, c0, c3, heptads) :=
    OverlayRegions.load_plot_data csv in
  PlotOverlayBasicRegions.export_regions pos residues heptads d0 d3 c0 c3
    threshold.

Definition overlay_tm_regions (csv : list OverlayRegions.plot_csv_row)
    (spans : list (Z * Z)) (threshold : Q) :=
  let '(pos, residues, d0, d3, c0, c3, heptads) :=
    OverlayRegions.load_plot_data csv in
  PlotDeepTmhmmRegions.export_regions pos residues heptads d0 d3 c0 c3
    spans threshold.

(** The columns [export_region_summary.py] reads from the same table. *)
Definition as_combined (r : OverlayRegions.plot_csv_row)
  : RegionSummaryTables.combined_scores_row :=
  RegionSummaryTables.CombinedScoresRow
    (OverlayRegions.pc_Position r) (OverlayRegions.pc_Residue r)
    (OverlayRegions.pc_Disorder_Score_Original r)
    (OverlayRegions.pc_Disorder_Score_3res_MA r)
    (OverlayRegions.pc_CC_Probability_Original r)
    (OverlayRegions.pc_CC_Probability_3res_MA r).

(** A score the rescaling of [load_combined] leaves numerically alone. *)
Definition percent_like (x : Q) : Prop := (x == 0 ∨ 1 < x)%Q.

(** The same line in the two per-residue tables: equal cells, scores
    equal as numbers; the overlay table has the extra [Heptad_Phase]. *)
Definition same_line (a : RegionSummaryTables.positions_row)
    (b : OverlayRegions.regions_row) : Prop :=
  RegionSummaryTables.Position a = OverlayRegions.rg_Position b
  ∧ RegionSummaryTables.Residue a = OverlayRegions.rg_Residue b
  ∧ (RegionSummaryTables.Disorder_Score_Original a
     == OverlayRegions.rg_Disorder_Score_Original b)%Q
  ∧ (RegionSummaryTables.Disorder_Score_3res_MA a
     == OverlayRegions.rg_Disorder_Score_3res_MA b)%Q
  ∧ RegionSummaryTables.In_IDR a = OverlayRegions.rg_In_IDR b
  ∧ (RegionSummaryTables.CC_Probability_Original a
     == OverlayRegions.rg_CC_Probability_Original b)%Q
  ∧ (RegionSummaryTables.CC_Probability_3res_MA a
     == OverlayRegions.rg_CC_Probability_3res_MA b)%Q
  ∧ RegionSummaryTables.In_CC a = OverlayRegions.rg_In_CC b
  ∧ RegionSummaryTables.In_TM a = OverlayRegions.rg_In_TM b.

(** * Properties *)

(** ** SmoothingFilter *)

Section smoothing.

Implicit Types (data : list Q) (window : Z).

Lemma index_Ok {A} (l : list A) (i : nat) (a : A) :
  l !! i = Some a → index l i = Ok a.
Proof. unfold index. by intros ->. Qed.

Lemma valid_means data (wn k : nat) :
  (k + wn ≤ length data + 1)%nat → (0 < wn)%nat →
  (λ i : nat, (py_sum (take wn (drop i data)) / inject_Z (Z.of_nat wn))%Q)
    <$> seq 0 k
  = (λ i, mean (window_at data i wn)) <$> seq 0 k.
Proof.
  intros Hk Hw. apply list_eq. intros i.
  rewrite !list_lookup_fmap.
  destruct (seq 0 k !! i) as [j|] eqn:Hj; [|done]. simpl.
  apply lookup_seq in Hj as [-> Hi]. simpl.
  unfold mean, window_at.
  rewrite length_take, length_drop.
  do 3 f_equal. lia.
Qed.

(** The regular case, with the valid means written as means of windows. *)
Lemma moving_average_regular data window :
  0 < window → window `mod` 2 ≠ 0 → window ≤ Z.of_nat (length data) →
  let n := length data in
  let wn := Z.to_nat window in
  let h := Z.to_nat (window `div` 2) in
  ExportPlotData.moving_average data window
  = Ok (replicate h (mean (window_at data 0 wn))
        ++ ((λ i, mean (window_at data i wn)) <$> seq 0 (n - wn + 1))
        ++ replicate h (mean (window_at data (n - wn) wn))).
Proof.
  intros Hpos Hodd Hle. cbv zeta.
  unfold ExportPlotData.moving_average.
  destruct data as [|a l] eqn:Hd; [simpl in Hle; lia|]. rewrite <- Hd in *.
  clear Hd a l.
  destruct (Z.leb_spec window 0); [lia|].
  destruct (Z.eqb_spec (window `mod` 2) 0) as [?|_]; [lia|].
  destruct (Z.ltb_spec (Z.of_nat (length data)) window); [lia|].
  cbv zeta.
  set (n := length data). set (wn := Z.to_nat window).
  replace (Z.to_nat (Z.of_nat n - window + 1)) with (n - wn + 1)%nat by lia.
  replace (inject_Z window) with (inject_Z (Z.of_nat wn)) by (f_equal; lia).
  rewrite valid_means by lia.
  rewrite (index_Ok _ 0 (mean (window_at data 0 wn))).
  2:{ rewrite list_lookup_fmap, lookup_seq_lt by lia. done. }
  rewrite (index_Ok _ _ (mean (window_at data (n - wn) wn))).
  2:{ rewrite length_fmap, length_seq, list_lookup_fmap, lookup_seq_lt by lia.
      simpl. do 3 f_equal. lia. }
  done.
Qed.

Lemma moving_average_short data window :
  0 < window → window `mod` 2 ≠ 0 → Z.of_nat (length data) < window →
  ExportPlotData.moving_average data window
  = Ok (replicate (length data) (mean data)).
Proof.
  intros Hpos Hodd Hlt. unfold ExportPlotData.moving_average.
  destruct data as [|a l] eqn:Hd; [reflexivity|]. rewrite <- Hd in *.
  destruct (Z.leb_spec window 0); [lia|].
  destruct (Z.eqb_spec (window `mod` 2) 0); [lia|].
  destruct (Z.ltb_spec (Z.of_nat (length data)) window); [|lia].
  done.
Qed.

Lemma odd_mod2 window : Z.odd window = true → window `mod` 2 ≠ 0.
Proof. rewrite Zmod_odd. by intros ->. Qed.

Lemma odd_half window :
  Z.odd window = true → window `div` 2 = (window - 1) `div` 2.
Proof.
  intros Ho. pose proof (Zmod_odd window) as Hm. rewrite Ho in Hm.
  pose proof (Z.div_mod window 2). pose proof (Z.div_mod (window - 1) 2).
  pose proof (Z.mod_pos_bound (window - 1) 2). lia.
Qed.

Lemma moving_average_Ok data window :
  0 < window → Z.odd window = true →
  ∃ out, ExportPlotData.moving_average data window = Ok out
         ∧ length out = length data.
Proof.
  intros Hpos Hodd. pose proof (odd_mod2 _ Hodd) as Hm.
  destruct (Z.lt_ge_cases (Z.of_nat (length data)) window) as [Hlt|Hge].
  - rewrite moving_average_short by lia. eexists. split; [done|].
    by rewrite length_replicate.
  - rewrite moving_average_regular by lia. eexists. split; [done|].
    rewrite !length_app, !length_replicate, length_fmap, length_seq.
    pose proof (Zmod_odd window) as Hmo. rewrite Hodd in Hmo.
    pose proof (Z.div_mod window 2 ltac:(lia)).
    pose proof (Z.div_pos window 2). lia.
Qed.

Lemma half_nat window :
  0 < window → Z.odd window = true →
  (Z.to_nat window `div` 2)%nat = Z.to_nat ((window - 1) `div` 2)
  ∧ Z.to_nat window = (2 * Z.to_nat ((window - 1) `div` 2) + 1)%nat.
Proof.
  intros Hpos Ho. pose proof (Zmod_odd window) as Hm. rewrite Ho in Hm.
  pose proof (Z.div_mod window 2 ltac:(lia)) as Hw.
  pose proof (odd_half _ Ho) as Hh.
  assert (H2 : Z.to_nat window = (2 * Z.to_nat ((window - 1) `div` 2) + 1)%nat).
  { pose proof (Z.div_pos window 2). lia. }
  split; [|done].
  rewrite H2. symmetry.
  apply (Nat.div_unique _ 2 _ 1); lia.
Qed.

(** C3: for an odd window [w >= 1] the filter returns a series of the
    length of its input.  When the input is shorter than the window every
    output value is the mean of the whole input.  Otherwise the output is
    the [N - w + 1] means of the contiguous length-[w] slices, preceded by
    [(w - 1) / 2] copies of the first of them and followed by [(w - 1) / 2]
    copies of the last, so that index [i] reports the mean of the centred
    window, moved inside the series at the edges. *)
Theorem moving_average_spec data window :
  1 ≤ window → Z.odd window = true →
  ∃ out,
    ExportPlotData.moving_average data window = Ok out
    ∧ length out = length data
    ∧ (Z.of_nat (length data) < window →
       ∀ i, (i < length data)%nat → out !! i = Some (mean data))
    ∧ (window ≤ Z.of_nat (length data) →
       let n := length data in
       let w := Z.to_nat window in
       let half := Z.to_nat ((window - 1) `div` 2) in
       let valid := (λ k, mean (window_at data k w)) <$> seq 0 (n - w + 1) in
       length valid = (n - w + 1)%nat
       ∧ (∀ k, (k < n - w + 1)%nat → length (window_at data k w) = w)
       ∧ head valid = Some (mean (window_at data 0 w))
       ∧ last valid = Some (mean (window_at data (n - w) w))
       ∧ out = replicate half (mean (window_at data 0 w))
               ++ valid
               ++ replicate half (mean (window_at data (n - w) w))
       ∧ ∀ i, (i < n)%nat →
           out !! i = Some (mean (window_at data (window_offset n w i) w))).
Proof.
  intros Hpos Hodd.
  pose proof (odd_mod2 _ Hodd) as Hm.
  destruct (half_nat window ltac:(lia) Hodd) as [Hdiv Hw].
  destruct (Z.lt_ge_cases (Z.of_nat (length data)) window) as [Hlt|Hge].
  - exists (replicate (length data) (mean data)).
    rewrite moving_average_short by lia.
    split_and!; [done|by rewrite length_replicate| |lia].
    intros _ i Hi. by apply lookup_replicate_2.
  - rewrite moving_average_regular by lia.
    rewrite (odd_half _ Hodd).
    set (n := length data) in *. set (w := Z.to_nat window) in *.
    set (half := Z.to_nat ((window - 1) `div` 2)) in *.
    eexists. split; [reflexivity|].
    assert (Hnw : (w ≤ n)%nat) by lia.
    split; [|split; [lia|]].
    { rewrite !length_app, !length_replicate, length_fmap, length_seq. lia. }
    intros _. cbv zeta.
    split_and!.
    + by rewrite length_fmap, length_seq.
    + intros k Hk. unfold window_at. rewrite length_take, length_drop. lia.
    + replace (n - w + 1)%nat with (S (n - w)) by lia. done.
    + rewrite last_lookup, length_fmap, length_seq, list_lookup_fmap.
      rewrite lookup_seq_lt by lia. simpl. do 3 f_equal. lia.
    + done.
    + intros i Hi. unfold window_offset. rewrite Hdiv.
      destruct (decide (i < half)%nat) as [Hi1|Hi1].
      { rewrite lookup_app_l by (rewrite length_replicate; lia).
        rewrite lookup_replicate_2 by done.
        do 3 f_equal. lia. }
      rewrite lookup_app_r by (rewrite length_replicate; lia).
      rewrite length_replicate.
      destruct (decide (i - half < n - w + 1)%nat) as [Hi2|Hi2].
      { rewrite lookup_app_l by (rewrite length_fmap, length_seq; lia).
        rewrite list_lookup_fmap, lookup_seq_lt by lia. simpl.
        do 3 f_equal. lia. }
      rewrite lookup_app_r by (rewrite length_fmap, length_seq; lia).
      rewrite length_fmap, length_seq.
      rewrite lookup_replicate_2 by lia.
      do 3 f_equal. lia.
Qed.

Lemma moving_average_spec_witness :
  ∃ out,
    ExportPlotData.moving_average [10 # 1; 20 # 1; 30 # 1; 40 # 1]%Q 3 = Ok out
    ∧ length out = 4%nat
    ∧ out !! 3%nat = Some (mean [20 # 1; 30 # 1; 40 # 1]%Q).
Proof.
  destruct (moving_average_spec [10 # 1; 20 # 1; 30 # 1; 40 # 1]%Q 3)
    as (out & Hout & Hlen & _ & Hreg); [lia|reflexivity|].
  exists out. split; [exact Hout|]. split; [exact Hlen|].
  destruct Hreg as (_ & _ & _ & _ & _ & Hi); [simpl; lia|].
  apply (Hi 3%nat). simpl. lia.
Defined.

(** C4, as stated: the five-point example does not yield the
    shrinking-window values [1.5, 2.0, 3.0, 4.0, 4.5]. *)
Lemma moving_average_12345_not_shrinking :
  ¬ ∃ out,
      ExportPlotData.moving_average [1 # 1; 2 # 1; 3 # 1; 4 # 1; 5 # 1]%Q 3
      = Ok out
      ∧ series_eq out [3 # 2; 2 # 1; 3 # 1; 4 # 1; 9 # 2]%Q.
Proof.
  intros (out & Hout & Heq). vm_compute in Hout.
  injection Hout as <-.
  apply Forall2_cons_1 in Heq as [Hhd _].
  vm_compute in Hhd. discriminate.
Qed.

(** C4, amended: with edge replication the five-point example yields
    [2.0, 2.0, 3.0, 4.0, 4.0]. *)
Theorem moving_average_12345 :
  ∃ out,
    ExportPlotData.moving_average [1 # 1; 2 # 1; 3 # 1; 4 # 1; 5 # 1]%Q 3
    = Ok out
    ∧ series_eq out [2 # 1; 2 # 1; 3 # 1; 4 # 1; 4 # 1]%Q.
Proof.
  eexists. split; [vm_compute; reflexivity|].
  repeat constructor.
Qed.

(** C8, as stated: an even window on the empty series raises nothing. *)
Lemma moving_average_empty_even_window :
  Z.even 2 = true
  ∧ ExportPlotData.moving_average [] 2 = Ok []
  ∧ ¬ ∃ e, ExportPlotData.moving_average [] 2 = Raise e.
Proof. split_and!; [done|done|]. intros [e He]. discriminate. Qed.

(** C8, amended: on a non-empty series a non-positive or even window
    raises [ValueError], and a result is produced exactly when the window
    is positive and odd; the empty series is returned as it is, whatever the
    window. *)
Theorem moving_average_window_check data window :
  (ExportPlotData.moving_average [] window = Ok [])
  ∧ (data ≠ [] →
     (window ≤ 0 ∨ Z.even window = true →
      ∃ msg, ExportPlotData.moving_average data window = Raise (ValueError msg))
     ∧ ((∃ out, ExportPlotData.moving_average data window = Ok out)
        ↔ 0 < window ∧ Z.odd window = true)).
Proof.
  split; [done|]. intros Hne.
  assert (Hbad : window ≤ 0 ∨ Z.even window = true →
    ∃ msg, ExportPlotData.moving_average data window = Raise (ValueError msg)).
  { intros Hw. unfold ExportPlotData.moving_average.
    destruct data as [|a l]; [done|].
    destruct (Z.leb_spec window 0); [by eexists|].
    destruct Hw as [?|Hev]; [lia|].
    rewrite Zmod_even, Hev. simpl. by eexists. }
  split; [exact Hbad|]. split.
  - intros [out Hout].
    destruct (Z.le_gt_cases window 0) as [Hle|Hgt].
    { destruct Hbad as [msg Hmsg]; [by left|]. congruence. }
    split; [done|].
    destruct (Z.odd window) eqn:Ho; [done|].
    destruct Hbad as [msg Hmsg]; [|congruence].
    right. by rewrite <- Z.negb_odd, Ho.
  - intros [Hpos Ho].
    destruct (moving_average_Ok data window) as (out & Hout & _); [lia|done|].
    by exists out.
Qed.

Lemma moving_average_window_check_witness :
  (∃ msg, ExportPlotData.moving_average [1 # 1; 2 # 1]%Q 4
          = Raise (ValueError msg))
  ∧ (∃ msg, ExportPlotData.moving_average [1 # 1; 2 # 1]%Q (-3)
            = Raise (ValueError msg)).
Proof.
  split.
  - apply (moving_average_window_check [1 # 1; 2 # 1]%Q 4); [discriminate|].
    right. reflexivity.
  - apply (moving_average_window_check [1 # 1; 2 # 1]%Q (-3)); [discriminate|].
    left. lia.
Defined.

Example moving_average_10_20_30 :
  ∃ out,
    ExportPlotData.moving_average [10 # 1; 20 # 1; 30 # 1]%Q 3 = Ok out
    ∧ series_eq out [20 # 1; 20 # 1; 20 # 1]%Q.
Proof. eexists. split; [vm_compute; reflexivity|]. repeat constructor. Qed.

(** C10: the two copies of [moving_average] agree on every input: they
    return the same series, or raise the same exception. *)
Theorem moving_average_copies_agree data window :
  ExportPlotData.moving_average data window
  = PlotCombinedAnalysis.moving_average data window
  ∧ ((∃ out, ExportPlotData.moving_average data window = Ok out
             ∧ PlotCombinedAnalysis.moving_average data window = Ok out)
     ∨ (∃ e, ExportPlotData.moving_average data window = Raise e
             ∧ PlotCombinedAnalysis.moving_average data window = Raise e)).
Proof.
  assert (Hsame : ExportPlotData.moving_average data window
                  = PlotCombinedAnalysis.moving_average data window).
  { unfold ExportPlotData.moving_average, PlotCombinedAnalysis.moving_average.
    destruct data as [|x l]; [done|].
    destruct (window <=? 0); [done|].
    destruct (window `mod` 2 =? 0); [done|].
    by destruct (Z.of_nat (length (x :: l)) <? window). }
  split; [exact Hsame|]. rewrite <- Hsame.
  destruct (ExportPlotData.moving_average data window) as [out|e].
  - left. by exists out.
  - right. by exists e.
Qed.

End smoothing.

(** ** IntervalExtractor *)

Lemma flags_to_intervals_copies_agree (flags : list bool) :
  PlotOverlayThresholdBasic.flags_to_intervals flags
  = ExportRegionSummary.flags_to_intervals flags.
Proof. by destruct flags. Qed.

Section intervals.

Variable flags : list bool.

Local Open Scope nat_scope.

Lemma flag_at_S k :
  flag_at flags (S k) = default false (flags !! k).
Proof. done. Qed.

Lemma flag_at_lookup k b : flags !! k = Some b → flag_at flags (S k) = b.
Proof. intros H. by rewrite flag_at_S, H. Qed.

Lemma flag_at_beyond p : length flags < p → flag_at flags p = false.
Proof.
  destruct p as [|q]; [done|]. intros H.
  rewrite flag_at_S, lookup_ge_None_2 by lia. done.
Qed.

(** Two maximal runs that share a position coincide. *)
Lemma maximal_run_overlap s e a b :
  maximal_run flags s e →
  1 ≤ a ≤ b →
  (∀ p, a ≤ p ≤ b → flag_at flags p = true) →
  flag_at flags (a - 1) = false → flag_at flags (b + 1) = false →
  a ≤ e → s ≤ b → s = a ∧ e = b.
Proof.
  intros (Hse & Hlen & Hrun & Hpre & Hpost) Hab Hrun' Hpre' Hpost' Hae Hsb.
  assert (s = a) as ->.
  { destruct (decide (s < a)).
    { pose proof (Hrun (a - 1) ltac:(lia)). congruence. }
    destruct (decide (a < s)); [|lia].
    pose proof (Hrun' (s - 1) ltac:(lia)). congruence. }
  split; [done|].
  destruct (decide (e < b)).
  { pose proof (Hrun' (e + 1) ltac:(lia)). congruence. }
  destruct (decide (b < e)); [|lia].
  pose proof (Hrun (b + 1) ltac:(lia)). congruence.
Qed.

Lemma closed_upto_init : closed_upto flags 0 [].
Proof.
  split_and!.
  - intros s e. split; [by intros ?%elem_of_nil|].
    intros [(? & _) ?]. lia.
  - constructor.
  - intros p ?. lia.
Qed.

Lemma closed_upto_skip lim lim' out :
  closed_upto flags lim out → lim ≤ lim' →
  (∀ p, lim < p ≤ lim' → flag_at flags p = false) →
  closed_upto flags lim' out.
Proof.
  intros (Hex & Hso & Hco) Hle Hfalse. split_and!; [|done|].
  - intros s e. rewrite Hex. split; intros [Hrun He]; (split; [done|]); [lia|].
    destruct (decide (e ≤ lim)); [done|].
    destruct Hrun as (? & ? & Hrun & _).
    pose proof (Hrun e ltac:(lia)). pose proof (Hfalse e ltac:(lia)).
    congruence.
  - intros p Hp Hfp. apply Hco; [|done].
    destruct (decide (p ≤ lim)); [lia|].
    pose proof (Hfalse p ltac:(lia)). congruence.
Qed.

Lemma closed_upto_snoc out a b :
  closed_upto flags (a - 1) out → maximal_run flags a b →
  closed_upto flags b (out ++ [(a, b)]).
Proof.
  intros (Hex & Hso & Hco) Hrun.
  pose proof Hrun as (Hab & Hlen & Hall & Hpre & Hpost).
  split_and!.
  - intros s e. rewrite elem_of_app, list_elem_of_singleton, Hex. split.
    + intros [[? ?]|[= -> ->]]; split; (done || lia).
    + intros [Hrun' He].
      destruct (decide (e ≤ a - 1)); [by left|right].
      pose proof Hrun' as (? & _).
      destruct (maximal_run_overlap s e a b) as [-> ->]; (done || lia).
  - apply StronglySorted_app_2; [|done|repeat constructor].
    intros [s e] x2 Hin ->%list_elem_of_singleton.
    apply Hex in Hin as [_ ?]. unfold before. simpl. lia.
  - intros p Hp Hfp.
    destruct (decide (p ≤ a - 1)).
    + destruct (Hco p) as (s & e & Hin & ?); [lia|done|].
      exists s, e. split; [|done]. apply elem_of_app. by left.
    + exists a, b. split; [|lia]. apply elem_of_app. right.
      by apply list_elem_of_singleton.
Qed.

Lemma scan_step_inv k st val :
  scan_inv flags k st → k < length flags → flags !! k = Some val →
  scan_inv flags (S k) (ExportRegionSummary.scan_step (length flags) st (S k, val)).
Proof.
  destruct st as [out start]. intros [Hcl Hst] Hk Hval.
  simpl in Hcl, Hst.
  pose proof (flag_at_lookup _ _ Hval) as Hf.
  unfold ExportRegionSummary.scan_step.
  destruct start as [s0|]; destruct val; simpl.
  - destruct Hst as (Hs0 & _ & Hrun & Hpre).
    assert (Hrun' : ∀ p, s0 ≤ p ≤ S k → flag_at flags p = true).
    { intros p Hp. destruct (decide (p = S k)) as [->|]; [done|].
      apply Hrun. lia. }
    case_bool_decide as Hend; split; simpl.
    + apply closed_upto_snoc; [done|].
      unfold maximal_run. split_and!; try lia; try done.
      apply flag_at_beyond. lia.
    + by right; left.
    + done.
    + split_and!; try lia; done.
  - destruct Hst as (Hs0 & _ & Hrun & Hpre).
    replace (k - 0) with k by lia.
    split; simpl; [|by right; right].
    apply (closed_upto_skip k); [|lia|].
    + apply closed_upto_snoc; [done|].
      unfold maximal_run. split_and!; try lia; try done.
      by replace (k + 1) with (S k) by lia.
    + intros p Hp. by replace p with (S k) by lia.
  - assert (Hfk : flag_at flags k = false).
    { destruct Hst as [->|[->|?]]; [done|lia|done]. }
    assert (Hrun' : ∀ p, S k ≤ p ≤ S k → flag_at flags p = true).
    { intros p Hp. by replace p with (S k) by lia. }
    assert (Hfk' : flag_at flags (S k - 1) = false).
    { by replace (S k - 1) with k by lia. }
    case_bool_decide as Hend; split; cbn [fst snd settled].
    + apply closed_upto_snoc.
      { by replace (S k - 1) with k by lia. }
      unfold maximal_run. split_and!; try lia; try done.
      apply flag_at_beyond. lia.
    + by right; left.
    + by replace (S k - 1) with k by lia.
    + split_and!; try lia; done.
  - split; simpl; [|by right; right].
    apply (closed_upto_skip k); [done|lia|].
    intros p Hp. by replace p with (S k) by lia.
Qed.

Lemma scan_prefix_inv k :
  k ≤ length flags →
  scan_inv flags k (foldl (ExportRegionSummary.scan_step (length flags)) ([], None)
                    (take k (zip (seq 1 (length flags)) flags))).
Proof.
  induction k as [|k IH]; intros Hk.
  - rewrite take_0. split; [apply closed_upto_init|by left].
  - destruct (lookup_lt_is_Some_2 flags k) as [val Hval]; [lia|].
    erewrite take_S_r.
    2:{ apply lookup_zip_with_Some. exists (S k), val.
        split_and!; [done| |done]. apply lookup_seq. lia. }
    rewrite foldl_app. simpl. apply scan_step_inv; [|lia|done].
    apply IH. lia.
Qed.

Lemma scan_result_closed :
  closed_upto flags (length flags) (ExportRegionSummary.flags_to_intervals flags).
Proof.
  pose proof (scan_prefix_inv (length flags) ltac:(lia)) as Hinv.
  rewrite take_ge in Hinv by (rewrite length_zip, length_seq; lia).
  rewrite <- flags_to_intervals_copies_agree.
  unfold PlotOverlayThresholdBasic.flags_to_intervals.
  change PlotOverlayThresholdBasic.scan_step
    with ExportRegionSummary.scan_step.
  destruct (foldl _ _ _) as [out [s0|]]; destruct Hinv as [Hcl Hst]; simpl in *.
  - lia.
  - done.
Qed.

Lemma flag_at_true_range p :
  flag_at flags p = true → 1 ≤ p ≤ length flags.
Proof.
  intros Hp. destruct p as [|q]; [done|].
  destruct (decide (S q ≤ length flags)); [lia|].
  rewrite flag_at_beyond in Hp by lia. done.
Qed.

Lemma flag_at_Forall b p :
  Forall (λ x, x = b) flags → 1 ≤ p ≤ length flags → flag_at flags p = b.
Proof.
  intros Hall Hp. destruct p as [|q]; [lia|].
  destruct (lookup_lt_is_Some_2 flags q) as [x Hx]; [lia|].
  rewrite (flag_at_lookup _ _ Hx).
  by eapply (Forall_lookup_1 _ _ _ _ Hall).
Qed.

Lemma closed_upto_extracts ivs :
  closed_upto flags (length flags) ivs → extracts_runs flags ivs.
Proof.
  intros (Hex & Hso & Hco).
  assert (Hexact : ∀ s e, (s, e) ∈ ivs ↔ maximal_run flags s e).
  { intros s e. rewrite Hex. split; [by intros [? _]|].
    intros Hr. split; [done|]. by destruct Hr as (_ & ? & _). }
  assert (Hcover : ∀ p, covered ivs p ↔ flag_at flags p = true).
  { intros p. split.
    - intros (s & e & Hin & Hp). apply Hexact in Hin as (_ & _ & Hrun & _).
      by apply Hrun.
    - intros Hp. apply Hco; [|done]. by apply flag_at_true_range. }
  split; [done|done|done| | |].
  - intros Hne Hall.
    assert (Hn : 1 ≤ length flags) by (destruct flags; simpl; [done|lia]).
    assert (Hone : ∀ x, x ∈ ivs → x = (1, length flags)).
    { intros [s e] (Hse & Hlen & _ & Hpre & Hpost)%Hexact.
      destruct (decide (s = 1)) as [->|].
      2:{ rewrite (flag_at_Forall true) in Hpre by (done || lia). done. }
      destruct (decide (e = length flags)) as [->|]; [done|].
      rewrite (flag_at_Forall true) in Hpost by (done || lia). done. }
    destruct (Hcover 1) as [_ (s & e & Hin & _)].
    { apply flag_at_Forall; [done|lia]. }
    destruct ivs as [|a [|b l]].
    + by apply elem_of_nil in Hin.
    + f_equal. apply Hone. by left.
    + apply StronglySorted_inv in Hso as [_ Hab].
      apply Forall_cons in Hab as [Hab _].
      rewrite (Hone a), (Hone b) in Hab by (repeat constructor).
      unfold before in Hab. simpl in Hab. lia.
  - intros Hall. destruct ivs as [|[s e] l]; [done|].
    destruct (Hexact s e) as [(Hse & Hlen & Hrun & _) _]; [by left|].
    pose proof (Hrun s ltac:(lia)) as Hs.
    rewrite (flag_at_Forall false) in Hs by (done || lia). done.
  - intros Hend. pose proof (flag_at_true_range _ Hend) as Hn.
    destruct (Hcover (length flags)) as [_ (s & e & Hin & Hse)]; [done|].
    assert (e = length flags) as ->.
    { apply Hexact in Hin as (_ & ? & _). lia. }
    exists s. clear Hco Hex Hcover.
    induction ivs as [|x l _] using rev_ind; [by apply elem_of_nil in Hin|].
    rewrite last_snoc.
    apply elem_of_app in Hin as [Hin|Hin%list_elem_of_singleton]; [|by subst].
    exfalso.
    pose proof (StronglySorted_app_1_elem_of _ _ _ _ x Hso Hin) as Hb.
    destruct x as [s' e'].
    destruct (Hexact s' e') as [(? & ? & _) _].
    { apply elem_of_app. right. by apply list_elem_of_singleton. }
    unfold before in Hb. simpl in Hb.
    specialize (Hb ltac:(by apply list_elem_of_singleton)). lia.
Qed.

End intervals.

Example flags_to_intervals_TTFT :
  ExportRegionSummary.flags_to_intervals [true; true; false; true]
  = [(1, 2); (4, 4)]%nat.
Proof. reflexivity. Qed.

(** C5: on every boolean sequence both copies of [flags_to_intervals]
    return exactly the maximal runs of true flags as 1-based inclusive
    pairs: sorted, pairwise disjoint, covering exactly the true positions;
    a non-empty all-true sequence gives [(1, N)], an all-false sequence gives
    the empty list, and a run reaching a true last flag ends at [N]. *)
Theorem flags_to_intervals_spec (flags : list bool) :
  extracts_runs flags (ExportRegionSummary.flags_to_intervals flags)
  ∧ extracts_runs flags (PlotOverlayThresholdBasic.flags_to_intervals flags).
Proof.
  rewrite flags_to_intervals_copies_agree.
  split; apply closed_upto_extracts, scan_result_closed.
Qed.

(** ** SignalAligner *)

Section result_monad.

Context {A B : Type}.
Implicit Types (f : A → result B) (l : list A).

(** A loop whose every iteration returns does return, one result per
    element. *)
Lemma mapM_result_Ok f l :
  (∀ a, a ∈ l → ∃ b, f a = Ok b) →
  ∃ bs, mapM_result f l = Ok bs
        ∧ length bs = length l
        ∧ ∀ i a, l !! i = Some a → ∃ b, bs !! i = Some b ∧ f a = Ok b.
Proof.
  induction l as [|a l IH]; intros Hf.
  - exists []. split_and!; [done|done|]. intros i a. by rewrite lookup_nil.
  - destruct (Hf a) as [b Hb]; [by left|].
    destruct IH as (bs & Hbs & Hlen & Hlk).
    { intros a' Ha'. apply Hf. by right. }
    exists (b :: bs). simpl. rewrite Hb. simpl. rewrite Hbs. simpl.
    split_and!; [done|by rewrite Hlen|].
    intros [|i] a'; simpl; [|by apply Hlk].
    intros [= <-]. by exists b.
Qed.

End result_monad.

Lemma elem_of_enumerate {A} (l : list A) (i : nat) (a : A) :
  (i, a) ∈ zip (seq 0 (length l)) l ↔ l !! i = Some a.
Proof.
  rewrite list_elem_of_lookup. split.
  - intros [j Hj]. apply lookup_zip_with_Some in Hj as (i' & a' & [= <- <-] & Hs & Ha).
    apply lookup_seq in Hs as [-> _]. done.
  - intros Hi. exists i. apply lookup_zip_with_Some. exists i, a.
    split_and!; [done| |done]. apply lookup_seq. split; [done|].
    by eapply lookup_lt_Some.
Qed.

Lemma lookup_enumerate {A} (l : list A) (i : nat) (a : A) :
  l !! i = Some a → zip (seq 0 (length l)) l !! i = Some (i, a).
Proof.
  intros Hi. apply lookup_zip_with_Some. exists i, a.
  split_and!; [done| |done]. apply lookup_seq. split; [done|].
  by eapply lookup_lt_Some.
Qed.

Section cc_data_map.

Import ExportPlotData.





End cc_data_map.

Lemma bind_Ok {A B} (a : A) (k : A → result B) : Ok a ≫= k = k a.
Proof. done. Qed.

Section aligner.

Import ExportPlotData.


End aligner.

Section combined.

Import PlotCombinedAnalysis.





End combined.


(** Every position of the signal has a last entry. *)
Lemma last_at_exists (data : list cc_entry) (p : Z) :
  p ∈ position <$> data → ∃ j e, last_at data j e ∧ position e = p.
Proof.
  induction data as [|d data IH] using rev_ind; intros Hp.
  { by apply elem_of_nil in Hp. }
  destruct (decide (position d = p)) as [Hd|Hd].
  - exists (length data), d. split; [|done]. split.
    + by rewrite lookup_app_r, Nat.sub_diag by lia.
    + intros j' e' Hjj' Hj'. apply lookup_lt_Some in Hj'.
      rewrite length_app in Hj'. simpl in Hj'. lia.
  - rewrite fmap_app in Hp.
    apply elem_of_app in Hp as [Hp|Hp%list_elem_of_singleton]; [|done].
    destruct (IH Hp) as (j & e & [Hj Hlast] & He).
    exists j, e. split; [|done]. split.
    + rewrite lookup_app_l; [done|]. by eapply lookup_lt_Some.
    + intros j' e' Hjj' Hj'.
      destruct (decide (j' < length data)%nat) as [Hlt|Hge].
      * rewrite lookup_app_l in Hj' by done. by eapply Hlast.
      * assert (j' = length data) as ->.
        { apply lookup_lt_Some in Hj'. rewrite length_app in Hj'.
          simpl in Hj'. lia. }
        rewrite lookup_app_r, Nat.sub_diag in Hj' by lia.
        injection Hj' as <-. congruence.
Qed.






(** ** PixelThresholdRecolorer *)

Section loops.

Context {St : Type}.
Implicit Types (st : St).

Lemma zrange_nil lo hi : hi ≤ lo → zrange lo hi = [].
Proof.
  intros H. unfold zrange.
  by replace (Z.to_nat (hi - lo)) with 0%nat by lia.
Qed.

Lemma zrange_snoc lo hi : lo ≤ hi → zrange lo (hi + 1) = zrange lo hi ++ [hi].
Proof.
  intros H. unfold zrange.
  replace (Z.to_nat (hi + 1 - lo)) with (Z.to_nat (hi - lo) + 1)%nat by lia.
  rewrite seq_app, fmap_app. simpl. do 2 f_equal. lia.
Qed.

Lemma for_each_snoc {A} (l : list A) (a : A) (body : A → St → result St) st :
  for_each (l ++ [a]) body st = for_each l body st ≫= body a.
Proof. unfold for_each. by rewrite foldl_app. Qed.

Lemma for_each_raise {A} (l : list A) (body : A → St → result St) e :
  foldl (λ acc a, st ← acc; body a st) (Raise e) l = Raise e.
Proof. by induction l. Qed.

Lemma for_each_cons {A} (a : A) (l : list A) (body : A → St → result St) st :
  for_each (a :: l) body st = body a st ≫= for_each l body.
Proof.
  unfold for_each. simpl.
  destruct (body a st) as [st'|e]; simpl; [done|apply for_each_raise].
Qed.

Lemma for_range_nil lo hi (body : Z → St → result St) st :
  hi ≤ lo → for_range lo hi body st = Ok st.
Proof. intros H. unfold for_range. by rewrite zrange_nil. Qed.

Lemma for_range_snoc lo hi (body : Z → St → result St) st :
  lo ≤ hi →
  for_range lo (hi + 1) body st = for_range lo hi body st ≫= body hi.
Proof. intros H. unfold for_range. by rewrite zrange_snoc, for_each_snoc. Qed.

(** Induction over the iterations of a [for] loop none of which raises. *)
Lemma for_range_ind (P : Z → St → Prop) lo hi (body : Z → St → result St) st :
  P lo st →
  (∀ i st', lo ≤ i < hi → P i st' →
            ∃ st'', body i st' = Ok st'' ∧ P (i + 1) st'') →
  lo ≤ hi →
  ∃ st', for_range lo hi body st = Ok st' ∧ P hi st'.
Proof.
  intros Hinit Hstep Hle.
  assert (Hn : ∀ n : nat, (n ≤ Z.to_nat (hi - lo))%nat →
    ∃ st', for_range lo (lo + Z.of_nat n) body st = Ok st'
           ∧ P (lo + Z.of_nat n) st').
  { induction n as [|n IH]; intros Hn.
    - rewrite Z.add_0_r, for_range_nil by lia. by exists st.
    - replace (lo + Z.of_nat (S n)) with (lo + Z.of_nat n + 1) by lia.
      rewrite for_range_snoc by lia.
      destruct IH as (st' & -> & HP); [lia|]. simpl.
      apply Hstep; [lia|done]. }
  specialize (Hn (Z.to_nat (hi - lo)) ltac:(lia)).
  by replace (lo + Z.of_nat (Z.to_nat (hi - lo))) with hi in Hn by lia.
Qed.


End loops.

Section pixels.

Context {C : Type}.
Implicit Types (img : raster C) (p : pixel C).

Lemma get_set_px img (y x : nat) p (y' x' : nat) :
  get_px (set_px img y x p) y' x'
  = if decide (y' = y ∧ x' = x)
    then get_px img y x ≫= λ _, Some p
    else get_px img y' x'.
Proof.
  unfold get_px, set_px.
  destruct (decide (y' = y)) as [->|Hy].
  - rewrite list_lookup_alter_eq.
    destruct (img !! y) as [row|] eqn:Hrow; simpl.
    + destruct (decide (x' = x)) as [->|Hx].
      * rewrite decide_True by done.
        destruct (row !! x) as [q|] eqn:Hq; simpl.
        -- apply list_lookup_insert_eq. by eapply lookup_lt_Some.
        -- apply lookup_ge_None in Hq. apply lookup_ge_None.
           by rewrite length_insert.
      * rewrite decide_False by (by intros [_ ?]).
        by rewrite list_lookup_insert_ne.
    + by destruct (decide _).
  - rewrite decide_False by (by intros [? _]).
    by rewrite list_lookup_alter_ne.
Qed.

Lemma get_raster_map {D} (f : C → D) img (y x : nat) :
  get_px (raster_map f img) y x = px_map f <$> get_px img y x.
Proof.
  unfold get_px, raster_map. rewrite list_lookup_fmap.
  destruct (img !! y) as [row|]; simpl; [|done].
  by rewrite list_lookup_fmap.
Qed.

Lemma height_raster_map {D} (f : C → D) img :
  height (raster_map f img) = height img.
Proof. unfold height, raster_map. by rewrite length_fmap. Qed.

Lemma width_raster_map {D} (f : C → D) img :
  width (raster_map f img) = width img.
Proof.
  unfold width, raster_map. by destruct img; simpl; rewrite ?length_fmap.
Qed.

Lemma rectangular_shaped img :
  rectangular img → shaped (height img) (width img) img.
Proof. done. Qed.

Lemma shaped_raster_map {D} (f : C → D) h w img :
  shaped h w img → shaped h w (raster_map f img).
Proof.
  intros [Hh Hw]. split; [by rewrite height_raster_map|].
  unfold raster_map. apply Forall_fmap.
  eapply Forall_impl; [exact Hw|]. intros row Hrow. simpl.
  by rewrite length_fmap.
Qed.

(** Inside the grid every index is valid. *)
Lemma shaped_get h w img (y x : Z) :
  shaped h w img → 0 ≤ y < h → 0 ≤ x < w →
  ∃ p, get_px img (Z.to_nat y) (Z.to_nat x) = Some p.
Proof.
  intros [Hh Hw] Hy Hx. unfold height in Hh. unfold get_px.
  destruct (lookup_lt_is_Some_2 img (Z.to_nat y)) as [row Hrow]; [lia|].
  rewrite Hrow. simpl.
  pose proof (Forall_lookup_1 _ _ _ _ Hw Hrow) as Hlen. simpl in Hlen.
  apply lookup_lt_is_Some_2. lia.
Qed.

Lemma shaped_set_px h w img (y x : nat) p :
  shaped h w img → shaped h w (set_px img y x p).
Proof.
  intros [Hh Hw]. unfold set_px. split.
  - unfold height. by rewrite length_alter.
  - apply Forall_alter; [done|]. intros row _ Hrow.
    by rewrite length_insert.
Qed.

End pixels.

(** Nested scan of a pixel window by a body that, inside the grid, returns
    normally and rewrites only the pixel it visits. *)
Section scan.

Context {St : Type} (proj : St → raster Q).
Context (body : Z → Z → St → result St).
Context (G : nat → pixel Q → pixel Q) (h w : Z).

Hypothesis body_spec : ∀ st px_x px_y,
  0 ≤ px_x < w → 0 ≤ px_y < h → shaped h w (proj st) →
  ∃ st', body px_x px_y st = Ok st'
    ∧ shaped h w (proj st')
    ∧ ∀ y x : nat,
        get_px (proj st') y x
        = if decide (Z.of_nat y = px_y ∧ Z.of_nat x = px_x)
          then G y <$> get_px (proj st) y x
          else get_px (proj st) y x.

Lemma scan_rows st px_x lo hi :
  0 ≤ px_x < w → 0 ≤ lo → hi ≤ h → shaped h w (proj st) →
  ∃ st', for_range lo hi (body px_x) st = Ok st'
    ∧ shaped h w (proj st')
    ∧ ∀ y x : nat,
        get_px (proj st') y x
        = if decide (Z.of_nat x = px_x ∧ lo ≤ Z.of_nat y < hi)
          then G y <$> get_px (proj st) y x
          else get_px (proj st) y x.
Proof.
  intros Hx Hlo Hhi Hshape.
  destruct (Z.le_gt_cases lo hi) as [Hle|Hgt].
  2:{ exists st. rewrite for_range_nil by lia. split_and!; [done|done|].
      intros y x. rewrite decide_False; [done|lia]. }
  pose (P := λ (i : Z) (st' : St),
    shaped h w (proj st')
    ∧ ∀ y x : nat,
        get_px (proj st') y x
        = if decide (Z.of_nat x = px_x ∧ lo ≤ Z.of_nat y < i)
          then G y <$> get_px (proj st) y x
          else get_px (proj st) y x).
  destruct (for_range_ind P lo hi (body px_x) st) as (st' & Hst' & HP);
    unfold P in *; [| |done|by exists st'].
  - split; [done|]. intros y x. rewrite decide_False; [done|lia].
  - intros i st' Hi [Hsh IH].
    destruct (body_spec st' px_x i) as (st'' & Hst'' & Hsh'' & Hget);
      [lia|lia|done|].
    exists st''. split_and!; [done|done|].
    intros y x. rewrite Hget, IH.
    destruct (decide (Z.of_nat y = i ∧ Z.of_nat x = px_x)) as [[Hy Hx']|Hn].
    + rewrite decide_False by lia. rewrite decide_True by lia. done.
    + destruct (decide (Z.of_nat x = px_x ∧ lo ≤ Z.of_nat y < i)).
      * rewrite decide_True by lia. done.
      * rewrite decide_False by lia. done.
Qed.

Lemma scan_window st xlo xhi ylo yhi :
  0 ≤ xlo → xhi ≤ w → 0 ≤ ylo → yhi ≤ h → shaped h w (proj st) →
  ∃ st', for_range xlo xhi (λ px_x, for_range ylo yhi (body px_x)) st = Ok st'
    ∧ shaped h w (proj st')
    ∧ ∀ y x : nat,
        get_px (proj st') y x
        = if decide ((xlo ≤ Z.of_nat x < xhi) ∧ (ylo ≤ Z.of_nat y < yhi))
          then G y <$> get_px (proj st) y x
          else get_px (proj st) y x.
Proof.
  intros Hxlo Hxhi Hylo Hyhi Hshape.
  destruct (Z.le_gt_cases xlo xhi) as [Hle|Hgt].
  2:{ exists st. rewrite for_range_nil by lia. split_and!; [done|done|].
      intros y x. rewrite decide_False; [done|lia]. }
  pose (P := λ (i : Z) (st' : St),
    shaped h w (proj st')
    ∧ ∀ y x : nat,
        get_px (proj st') y x
        = if decide ((xlo ≤ Z.of_nat x < i) ∧ (ylo ≤ Z.of_nat y < yhi))
          then G y <$> get_px (proj st) y x
          else get_px (proj st) y x).
  destruct (for_range_ind P xlo xhi
              (λ px_x, for_range ylo yhi (body px_x)) st)
    as (st' & Hst' & HP); unfold P in *; [| |done|by exists st'].
  - split; [done|]. intros y x. rewrite decide_False; [done|lia].
  - intros i st' Hi [Hsh IH].
    destruct (scan_rows st' i ylo yhi) as (st'' & Hst'' & Hsh'' & Hget);
      [lia|lia|lia|done|].
    exists st''. split_and!; [done|done|].
    intros y x. rewrite Hget, IH.
    destruct (decide (Z.of_nat x = i ∧ ylo ≤ Z.of_nat y < yhi)) as [[Hx Hy]|Hn].
    + rewrite decide_False by lia. rewrite decide_True by lia. done.
    + destruct (decide ((xlo ≤ Z.of_nat x < i) ∧ (ylo ≤ Z.of_nat y < yhi))).
      * rewrite decide_True by lia. done.
      * rewrite decide_False by lia. done.
Qed.

End scan.

Section roundtrip.

Lemma py_int_inject_Z z : py_int (inject_Z z) = z.
Proof.
  unfold py_int. destruct (Qle_bool _ _); [apply Qfloor_Z|apply Qceiling_Z].
Qed.

Lemma py_int_proper q q' : (q == q')%Q → py_int q = py_int q'.
Proof.
  intros Heq. unfold py_int.
  assert (Hb : Qle_bool 0 q = Qle_bool 0 q').
  { apply eq_true_iff_eq. rewrite !Qle_bool_iff. by rewrite Heq. }
  rewrite Hb. destruct (Qle_bool 0 q'); [by rewrite Heq|by rewrite Heq].
Qed.

Lemma astype_uint8_byte z : 0 ≤ z < 256 → astype_uint8 (inject_Z z) = z.
Proof.
  intros Hz. unfold astype_uint8. rewrite py_int_inject_Z.
  by apply Z.mod_small.
Qed.

Lemma astype_uint8_unit z :
  0 ≤ z < 256 → astype_uint8 (inject_Z z / 255 * 255) = z.
Proof.
  intros Hz. unfold astype_uint8.
  rewrite (py_int_proper _ (inject_Z z)) by (field; done).
  rewrite py_int_inject_Z. by apply Z.mod_small.
Qed.

Lemma px_float_roundtrip p :
  byte_px p → px_map astype_uint8 (px_map inject_Z p) = p.
Proof.
  destruct p as [r g b e]. intros (Hr & Hg & Hb & He). simpl in *.
  unfold px_map. simpl. rewrite !astype_uint8_byte by done. f_equal.
  rewrite <- list_fmap_compose.
  rewrite <- (list_fmap_id e) at 2. apply Forall_fmap_ext_1.
  eapply Forall_impl; [exact He|]. intros c Hc. simpl.
  by apply astype_uint8_byte.
Qed.

Lemma px_unit_roundtrip p :
  byte_px p → px_map (λ q, astype_uint8 (q * 255)) (unit_px p) = p.
Proof.
  destruct p as [r g b e]. intros (Hr & Hg & Hb & He). simpl in *.
  unfold unit_px, px_map. simpl. rewrite !astype_uint8_unit by done. f_equal.
  rewrite <- list_fmap_compose.
  rewrite <- (list_fmap_id e) at 2. apply Forall_fmap_ext_1.
  eapply Forall_impl; [exact He|]. intros c Hc. simpl.
  by apply astype_uint8_unit.
Qed.



Lemma strictly_above_not_ge y t :
  strictly_above y t → ge_ext (Z.of_nat y) t = false.
Proof.
  destruct t as [q| | |]; simpl; try done.
  intros Hlt. apply not_true_is_false. rewrite Qle_bool_iff.
  by apply Qlt_not_le.
Qed.

End roundtrip.

Section lightening.

Import PlotCombinedAnalysis.

Lemma lighten_body_spec color_rgb alpha_blend thr h w st px_x px_y :
  0 ≤ px_x < w → 0 ≤ px_y < h → shaped h w st.1 →
  ∃ st', lighten_body color_rgb alpha_blend thr px_x px_y st = Ok st'
    ∧ shaped h w st'.1
    ∧ ∀ y x : nat,
        get_px st'.1 y x
        = if decide (Z.of_nat y = px_y ∧ Z.of_nat x = px_x)
          then lighten_px color_rgb alpha_blend thr y <$> get_px st.1 y x
          else get_px st.1 y x.
Proof.
  intros Hx Hy Hshape. destruct st as [img n]. simpl in Hshape.
  destruct color_rgb as [[r g] b].
  destruct (shaped_get h w img px_y px_x Hshape Hy Hx) as [p Hp].
  unfold lighten_body, lighten_px, target_255, read_px. rewrite Hp. simpl.
  destruct (ge_ext px_y thr) eqn:Hge.
  2:{ exists (img, n). split_and!; [done|done|]. intros y x. simpl.
      destruct (decide _) as [[<- _]|_]; [|done].
      rewrite Hge. simpl. by destruct (get_px img y x). }
  destruct (norm_lt p _ COLOR_TOL) eqn:Hm.
  2:{ exists (img, n). split_and!; [done|done|]. intros y x. simpl.
      destruct (decide _) as [[<- <-]|_]; [|done].
      rewrite !Nat2Z.id in Hp. rewrite Hp, Hge. simpl. by rewrite Hm. }
  eexists. split_and!; [done|by apply shaped_set_px|].
  intros y x. simpl. rewrite get_set_px.
  destruct (decide (Z.of_nat y = px_y ∧ Z.of_nat x = px_x)) as [[<- <-]|Hn].
  - rewrite !Nat2Z.id in *. rewrite decide_True, Hp, Hge by done. simpl.
    by rewrite Hm.
  - rewrite decide_False; [done|]. lia.
Qed.

(** [apply_threshold_lightening] returns on every grid, and what it
    returns, pixel by pixel. *)
Lemma apply_threshold_lightening_get fig ax color_rgb threshold alpha_blend :
  rectangular (rendered fig) →
  ∃ out n,
    apply_threshold_lightening fig ax color_rgb threshold alpha_blend
    = Ok (out, n)
    ∧ ∀ y x : nat,
        get_px out y x
        = (λ p : pixel Z,
             px_map astype_uint8
               (if decide ((Z.max 0 (left_px_of ax 300 - 5) ≤ Z.of_nat x
                            < Z.min (right_px_of ax 300 + 1)
                                    (width (rendered fig)))
                           ∧ (Z.max 0 (top_px_of fig ax 300) ≤ Z.of_nat y
                              < Z.min (bottom_px_of fig ax 300 + 1)
                                      (height (rendered fig))))
                then lighten_px color_rgb alpha_blend
                       (threshold_row fig ax 300 threshold) y
                       (px_map inject_Z p)
                else px_map inject_Z p))
          <$> get_px (rendered fig) y x.
Proof.
  intros Hrect. unfold apply_threshold_lightening. cbv zeta.
  rewrite width_raster_map, height_raster_map.
  destruct (scan_window fst
              (lighten_body color_rgb alpha_blend
                 (threshold_row fig ax 300 threshold))
              (lighten_px color_rgb alpha_blend
                 (threshold_row fig ax 300 threshold))
              (height (rendered fig)) (width (rendered fig))
              (λ st px_x px_y, lighten_body_spec _ _ _ _ _ st px_x px_y)
              (raster_map inject_Z (rendered fig), 0)
              (Z.max 0 (left_px_of ax 300 - 5))
              (Z.min (right_px_of ax 300 + 1) (width (rendered fig)))
              (Z.max 0 (top_px_of fig ax 300))
              (Z.min (bottom_px_of fig ax 300 + 1) (height (rendered fig))))
    as ([img n] & Hst & _ & Hget); [lia|lia|lia|lia| |].
  { by apply shaped_raster_map, rectangular_shaped. }
  rewrite Hst. simpl. eexists _, _. split; [done|].
  intros y x. rewrite get_raster_map. simpl in Hget. rewrite Hget.
  rewrite get_raster_map.
  destruct (get_px (rendered fig) y x) as [p|]; simpl; by destruct (decide _).
Qed.

End lightening.

Section darkening.

Import PlotCombinedDarkTheme.

Lemma darken_body_spec target alpha_blend thr h w img px_x px_y :
  0 ≤ px_x < w → 0 ≤ px_y < h → shaped h w img →
  ∃ img', darken_body target alpha_blend thr px_x px_y img = Ok img'
    ∧ shaped h w img'
    ∧ ∀ y x : nat,
        get_px img' y x
        = if decide (Z.of_nat y = px_y ∧ Z.of_nat x = px_x)
          then darken_px target alpha_blend thr y <$> get_px img y x
          else get_px img y x.
Proof.
  intros Hx Hy Hshape.
  destruct (shaped_get h w img px_y px_x Hshape Hy Hx) as [p Hp].
  unfold darken_body, darken_px, read_px. rewrite Hp. simpl.
  destruct (ge_ext px_y thr) eqn:Hge.
  2:{ exists img. split_and!; [done|done|]. intros y x.
      destruct (decide _) as [[<- _]|_]; [|done].
      rewrite Hge. simpl. by destruct (get_px img y x). }
  destruct (norm_lt p _ _) eqn:Hm.
  2:{ exists img. split_and!; [done|done|]. intros y x.
      destruct (decide _) as [[<- <-]|_]; [|done].
      rewrite !Nat2Z.id in Hp. rewrite Hp, Hge. simpl. by rewrite Hm. }
  eexists. split_and!; [done|by apply shaped_set_px|].
  intros y x. rewrite get_set_px.
  destruct (decide (Z.of_nat y = px_y ∧ Z.of_nat x = px_x)) as [[<- <-]|Hn].
  - rewrite !Nat2Z.id in *. rewrite decide_True, Hp, Hge by done. simpl.
    by rewrite Hm.
  - rewrite decide_False; [done|]. lia.
Qed.

(** One entry of [darken_threshold] returns on every grid, and what it
    returns, pixel by pixel. *)
Lemma darken_entry_spec fig threshold alpha_blend dpi h w img ax target :
  shaped h w img →
  ∃ img',
    darken_entry fig threshold alpha_blend dpi h w (ax, target) img = Ok img'
    ∧ shaped h w img'
    ∧ ∀ y x : nat,
        get_px img' y x
        = (λ p : pixel Q,
             if decide ((Z.max 0 (left_px_of ax dpi - 5) ≤ Z.of_nat x
                         < Z.min (right_px_of ax dpi + 1) w)
                        ∧ (Z.max 0 (top_px_of fig ax dpi) ≤ Z.of_nat y
                           < Z.min (bottom_px_of fig ax dpi + 1) h))
             then darken_px target alpha_blend
                    (threshold_row fig ax dpi threshold) y p
             else p)
          <$> get_px img y x.
Proof.
  intros Hshape. unfold darken_entry.
  destruct (scan_window id
              (darken_body target alpha_blend
                 (threshold_row fig ax dpi threshold))
              (darken_px target alpha_blend
                 (threshold_row fig ax dpi threshold))
              h w
              (λ st px_x px_y, darken_body_spec _ _ _ _ _ st px_x px_y)
              img
              (Z.max 0 (left_px_of ax dpi - 5))
              (Z.min (right_px_of ax dpi + 1) w)
              (Z.max 0 (top_px_of fig ax dpi))
              (Z.min (bottom_px_of fig ax dpi + 1) h))
    as (img' & Himg' & Hsh & Hget); [lia|lia|lia|lia|done|].
  exists img'. split_and!; [done|done|].
  intros y x. unfold id in Hget. rewrite Hget.
  destruct (get_px img y x) as [p|]; simpl; by destruct (decide _).
Qed.

End darkening.

Section frame.

Lemma exempt_not_candidate fig ax dpi threshold y x matches :
  exempt fig ax dpi threshold y x matches →
  active fig ax dpi threshold y x && matches = false.
Proof.
  unfold exempt, active.
  intros [Hrow|[Hl|[Hr|Hm]]].
  - by rewrite (strictly_above_not_ge _ _ Hrow).
  - replace (left_px_of ax dpi - 5 <=? Z.of_nat x) with false by (symmetry; lia).
    by rewrite andb_false_r.
  - replace (Z.of_nat x <=? right_px_of ax dpi) with false by (symmetry; lia).
    by rewrite !andb_false_r.
  - by rewrite Hm, andb_false_r.
Qed.

(** Inside the scanned window, being active means being at or below the
    threshold row. *)
Lemma active_in_window fig ax dpi threshold y x (w h : Z) :
  (Z.max 0 (left_px_of ax dpi - 5) ≤ Z.of_nat x < Z.min (right_px_of ax dpi + 1) w)
  ∧ (Z.max 0 (top_px_of fig ax dpi) ≤ Z.of_nat y
     < Z.min (bottom_px_of fig ax dpi + 1) h) →
  active fig ax dpi threshold y x
  = ge_ext (Z.of_nat y) (threshold_row fig ax dpi threshold).
Proof.
  intros [Hx Hy]. unfold active.
  rewrite !(proj2 (Z.leb_le _ _)) by lia. by rewrite !andb_true_r.
Qed.

Lemma lightening_unchanged fig ax color_rgb threshold alpha_blend :
  rectangular (rendered fig) →
  ∃ out n,
    PlotCombinedAnalysis.apply_threshold_lightening
      fig ax color_rgb threshold alpha_blend = Ok (out, n)
    ∧ ∀ (y x : nat) p,
        get_px (rendered fig) y x = Some p → byte_px p →
        active fig ax 300 threshold y x
        && norm_lt (px_map inject_Z p) (target_255 color_rgb)
                   PlotCombinedAnalysis.COLOR_TOL = false →
        get_px out y x = Some p.
Proof.
  intros Hrect.
  destruct (apply_threshold_lightening_get fig ax color_rgb threshold
              alpha_blend Hrect) as (out & n & Hout & Hget).
  exists out, n. split; [done|].
  intros y x p Hp Hbyte Hcand. rewrite Hget, Hp. simpl. f_equal.
  destruct (decide _) as [Hwin|_]; [|by apply px_float_roundtrip].
  rewrite (active_in_window _ _ _ _ _ _ _ _ Hwin) in Hcand.
  unfold lighten_px. rewrite Hcand. by apply px_float_roundtrip.
Qed.

(** The loop over the entries returns on every grid and keeps a pixel that
    no entry both reaches and matches. *)
Lemma darkening_entries fig threshold alpha_blend dpi h w
    (axes_targets : list (axis * (Q * Q * Q))) (img : raster Q) :
  shaped h w img →
  ∃ img',
    for_each axes_targets
      (PlotCombinedDarkTheme.darken_entry fig threshold alpha_blend dpi h w)
      img = Ok img'
    ∧ shaped h w img'
    ∧ ∀ (y x : nat) q,
        get_px img y x = Some q →
        Forall (λ e, active fig e.1 dpi threshold y x
                     && norm_lt q e.2 (6 # 10) = false) axes_targets →
        get_px img' y x = Some q.
Proof.
  revert img. induction axes_targets as [|[ax target] l IH]; intros img Hshape.
  { exists img. by split_and!. }
  destruct (darken_entry_spec fig threshold alpha_blend dpi h w img ax target
              Hshape) as (img1 & Himg1 & Hsh1 & Hget1).
  destruct (IH img1 Hsh1) as (img' & Himg' & Hsh' & Hkeep).
  exists img'. rewrite for_each_cons, Himg1. simpl.
  split_and!; [done|done|].
  intros y x q Hq Hall.
  apply Forall_cons in Hall as [Hcand Hall]. simpl in Hcand.
  apply Hkeep; [|done]. rewrite Hget1, Hq. simpl. f_equal.
  destruct (decide _) as [Hwin|_]; [|done].
  rewrite (active_in_window _ _ _ _ _ _ _ _ Hwin) in Hcand.
  unfold darken_px. by rewrite Hcand.
Qed.

Lemma darkening_unchanged fig axes_targets threshold alpha_blend dpi :
  rectangular (rendered fig) →
  ∃ out,
    PlotCombinedDarkTheme.darken_threshold
      fig axes_targets threshold alpha_blend dpi = Ok out
    ∧ ∀ (y x : nat) p,
        get_px (rendered fig) y x = Some p → byte_px p →
        Forall (λ e, active fig e.1 dpi threshold y x
                     && norm_lt (unit_px p) e.2 (6 # 10) = false)
               axes_targets →
        get_px out y x = Some p.
Proof.
  intros Hrect. unfold PlotCombinedDarkTheme.darken_threshold. cbv zeta.
  destruct (darkening_entries fig threshold alpha_blend dpi
              (height (raster_map (λ z, inject_Z z / 255)%Q (rendered fig)))
              (width (raster_map (λ z, inject_Z z / 255)%Q (rendered fig)))
              axes_targets
              (raster_map (λ z, inject_Z z / 255)%Q (rendered fig)))
    as (img' & Himg' & _ & Hkeep).
  { rewrite height_raster_map, width_raster_map.
    by apply shaped_raster_map, rectangular_shaped. }
  rewrite Himg'. simpl. eexists. split; [done|].
  intros y x p Hp Hbyte Hall. rewrite get_raster_map.
  rewrite (Hkeep y x (unit_px p)); [| |done].
  - simpl. f_equal. by apply px_unit_roundtrip.
  - by rewrite get_raster_map, Hp.
Qed.

Lemma Forall_false_or_Exists_true {A} (b : A → bool) (l : list A) :
  Forall (λ a, b a = false) l ∨ Exists (λ a, b a = true) l.
Proof.
  induction l as [|a l [IH|IH]].
  - left. constructor.
  - destruct (b a) eqn:Hb.
    + right. by left.
    + left. by constructor.
  - right. by right.
Qed.

(** C1: on a rendered grid the recolouring step returns, and it leaves a
    pixel byte-for-byte unchanged when the pixel lies strictly above the
    threshold row, or strictly outside the axis's column span widened 5
    pixels to the left, or when its colour is not within the tolerance of the
    target; a pixel that does change lies in the active region and matches.
    Stated for [apply_threshold_lightening] and for [darken_threshold] with
    any list of entries. *)
Theorem recolor_frame (fig : figure) :
  rectangular (rendered fig) →
  (∀ ax color_rgb threshold alpha_blend,
     ∃ out n,
       PlotCombinedAnalysis.apply_threshold_lightening
         fig ax color_rgb threshold alpha_blend = Ok (out, n)
       ∧ ∀ (y x : nat) p,
           get_px (rendered fig) y x = Some p → byte_px p →
           let matches := norm_lt (px_map inject_Z p) (target_255 color_rgb)
                                  PlotCombinedAnalysis.COLOR_TOL in
           (exempt fig ax 300 threshold y x matches → get_px out y x = Some p)
           ∧ (get_px out y x ≠ Some p →
              active fig ax 300 threshold y x = true ∧ matches = true))
  ∧ (∀ axes_targets threshold alpha_blend dpi,
       ∃ out,
         PlotCombinedDarkTheme.darken_threshold
           fig axes_targets threshold alpha_blend dpi = Ok out
         ∧ ∀ (y x : nat) p,
             get_px (rendered fig) y x = Some p → byte_px p →
             (Forall (λ e, exempt fig e.1 dpi threshold y x
                             (norm_lt (unit_px p) e.2 (6 # 10)))
                     axes_targets →
              get_px out y x = Some p)
             ∧ (get_px out y x ≠ Some p →
                Exists (λ e, active fig e.1 dpi threshold y x = true
                             ∧ norm_lt (unit_px p) e.2 (6 # 10) = true)
                       axes_targets)).
Proof.
  intros Hrect. split.
  - intros ax color_rgb threshold alpha_blend.
    destruct (lightening_unchanged fig ax color_rgb threshold alpha_blend
                Hrect) as (out & n & Hout & Hkeep).
    exists out, n. split; [done|].
    intros y x p Hp Hbyte matches. split.
    + intros Hex. apply Hkeep; [done|done|].
      by apply exempt_not_candidate.
    + intros Hch.
      destruct (active fig ax 300 threshold y x && matches) eqn:Hc.
      { by apply andb_true_iff in Hc. }
      destruct Hch. by apply Hkeep.
  - intros axes_targets threshold alpha_blend dpi.
    destruct (darkening_unchanged fig axes_targets threshold alpha_blend dpi
                Hrect) as (out & Hout & Hkeep).
    exists out. split; [done|].
    intros y x p Hp Hbyte. split.
    + intros Hex. apply Hkeep; [done|done|].
      eapply Forall_impl; [exact Hex|]. intros [ax target] He.
      by apply exempt_not_candidate.
    + intros Hch.
      destruct (Forall_false_or_Exists_true
                  (λ e, active fig e.1 dpi threshold y x
                        && norm_lt (unit_px p) e.2 (6 # 10)) axes_targets)
        as [Hall|Hex].
      { destruct Hch. by apply Hkeep. }
      eapply Exists_impl; [exact Hex|]. intros e He.
      by apply andb_true_iff in He.
Qed.

End frame.

Lemma recolor_frame_witness :
  ∃ out n,
    PlotCombinedAnalysis.apply_threshold_lightening
      red_fig full_axis (1, 0, 0)%Q 50 (2 # 10) = Ok (out, n)
    ∧ get_px out 0 1 = Some red_px.
Proof.
  destruct (recolor_frame red_fig) as [Hlight _].
  - solve_bytes.
  - destruct (Hlight full_axis (1, 0, 0)%Q 50%Q (2 # 10)%Q)
      as (out & n & Hout & Hpx).
    exists out, n. split; [exact Hout|].
    apply (Hpx 0%nat 1%nat red_px).
    + reflexivity.
    + solve_bytes.
    + left. vm_compute. reflexivity.
Defined.

Section degenerate.

Lemma Qlt_bool_false a b : (b <= a)%Q → Qlt_bool a b = false.
Proof. intros H. unfold Qlt_bool. by rewrite (proj2 (Qle_bool_iff b a) H). Qed.








End degenerate.

(** C9: recolouring is not idempotent.  With blend ratio 1/2 on the
    all-red raster, a second pass over the result of the first blends the
    matched pixels further, for the lightening and for the darkening, and
    also for one darkening run holding the same entry twice. *)
Theorem recolor_not_idempotent :
  (∃ fig ax color_rgb threshold alpha_blend once n1 twice n2,
     PlotCombinedAnalysis.apply_threshold_lightening
       fig ax color_rgb threshold alpha_blend = Ok (once, n1)
     ∧ PlotCombinedAnalysis.apply_threshold_lightening
         (Figure (figheight fig) once) ax color_rgb threshold alpha_blend
       = Ok (twice, n2)
     ∧ twice ≠ once)
  ∧ (∃ fig entry threshold alpha_blend dpi once twice doubled,
       PlotCombinedDarkTheme.darken_threshold
         fig [entry] threshold alpha_blend dpi = Ok once
       ∧ PlotCombinedDarkTheme.darken_threshold
           (Figure (figheight fig) once) [entry] threshold alpha_blend dpi
         = Ok twice
       ∧ PlotCombinedDarkTheme.darken_threshold
           fig [entry; entry] threshold alpha_blend dpi = Ok doubled
       ∧ twice ≠ once ∧ doubled ≠ once).
Proof.
  split.
  - exists red_fig, full_axis, (1, 0, 0)%Q, 50%Q, (1 # 2)%Q.
    eexists _, _, _, _. split_and!.
    + vm_compute. reflexivity.
    + vm_compute. reflexivity.
    + discriminate.
  - exists red_fig, (full_axis, (1, 0, 0)%Q), 50%Q, (1 # 2)%Q, 300.
    eexists _, _, _. split_and!.
    + vm_compute. reflexivity.
    + vm_compute. reflexivity.
    + vm_compute. reflexivity.
    + discriminate.
    + discriminate.
Qed.

(** ** Range of the smoothed series *)

Section smoothing_bounds.

Implicit Types (data : list Q) (lo hi : Q).






End smoothing_bounds.

(** ** The two exporters side by side *)

Section exports.

Import PlotCombinedAnalysis.


End exports.



(** ** Bounds of the combined export *)

Section result_monad_inversion.

Context {A B : Type}.
Implicit Types (f : A → result B) (l : list A).

Lemma mapM_result_Ok_inv f l bs :
  mapM_result f l = Ok bs → Forall2 (λ a b, f a = Ok b) l bs.
Proof.
  revert bs. induction l as [|a l IH]; intros bs; simpl.
  - intros [= <-]. constructor.
  - destruct (f a) as [b|e] eqn:Hb; simpl; [|done].
    destruct (mapM_result f l) as [bs'|e] eqn:Hbs; simpl; [|done].
    intros [= <-]. constructor; [done|by apply IH].
Qed.

Lemma mapM_result_Raise_inv f l e :
  mapM_result f l = Raise e → ∃ a, a ∈ l ∧ f a = Raise e.
Proof.
  induction l as [|a l IH]; simpl; [done|].
  destruct (f a) as [b|e'] eqn:Hb; simpl.
  - destruct (mapM_result f l) as [bs'|e'] eqn:Hbs; simpl; [done|].
    intros [= <-]. destruct IH as (a' & Ha' & Hf); [done|].
    exists a'. split; [by right|done].
  - intros [= <-]. exists a. split; [by left|done].
Qed.

End result_monad_inversion.

Lemma index_Raise {A} (l : list A) (i : nat) e :
  index l i = Raise e → e = IndexError ∧ (length l ≤ i)%nat.
Proof.
  unfold index. destruct (l !! i) eqn:H; [done|].
  intros [= <-]. split; [done|]. by apply lookup_ge_None.
Qed.

(** X3: bounds behaviour of [export_combined_csv].  The call writes one
    row per position, in order, when the score list and the smoothed list
    are at least as long as the position list; otherwise it raises
    [IndexError]. *)
Theorem export_combined_csv_bounds (residues_read : list string)
    (disorder_pos : list Z) (disorder_scores disorder_ma : list Q)
    (cc_entries : list cc_entry) (cc_ma_values : list Q) :
  let run := PlotCombinedAnalysis.export_combined_csv residues_read
               disorder_pos disorder_scores disorder_ma cc_entries
               cc_ma_values in
  ((length disorder_pos ≤ length disorder_scores)%nat
   ∧ (length disorder_pos ≤ length disorder_ma)%nat →
   ∃ rows, run = Ok rows ∧ length rows = length disorder_pos
           ∧ PlotCombinedAnalysis.Position <$> rows = disorder_pos)
  ∧ (¬ ((length disorder_pos ≤ length disorder_scores)%nat
        ∧ (length disorder_pos ≤ length disorder_ma)%nat) →
     run = Raise IndexError).
Proof.
  cbv zeta. unfold PlotCombinedAnalysis.export_combined_csv. cbv zeta.
  set (residues := if bool_decide _ then _ else _).
  set (cc_map := PlotCombinedAnalysis.build_cc_map _).
  match goal with
  | |- context [mapM_result ?f ?l] => set (body := f); set (en := l)
  end.
  split.
  - intros [Hs Hm].
    destruct (mapM_result_Ok body en) as (rows & Hrows & Hlen & Hget).
    { intros [i pos] Hin. apply elem_of_enumerate in Hin.
      apply lookup_lt_Some in Hin.
      destruct (lookup_lt_is_Some_2 disorder_scores i) as [sv Hsv]; [lia|].
      destruct (lookup_lt_is_Some_2 disorder_ma i) as [mv Hmv]; [lia|].
      unfold body. rewrite (index_Ok _ _ _ Hsv), (index_Ok _ _ _ Hmv).
      rewrite !bind_Ok. by eexists. }
    exists rows. split; [done|].
    assert (Hl : length rows = length disorder_pos).
    { subst en. by rewrite Hlen, length_zip, length_seq, Nat.min_id. }
    split; [done|].
    apply list_eq. intros i. rewrite list_lookup_fmap.
    destruct (disorder_pos !! i) as [pos|] eqn:Hpos.
    + destruct (Hget i (i, pos)) as (row & -> & Hrow).
      { by apply lookup_enumerate. }
      simpl. f_equal. unfold body in Hrow.
      destruct (index disorder_scores i); [|done].
      destruct (index disorder_ma i); [|done].
      rewrite !bind_Ok in Hrow. injection Hrow as <-.
      by destruct (cc_map !! pos).
    + rewrite lookup_ge_None_2; [done|]. apply lookup_ge_None in Hpos. lia.
  - intros Hshort.
    destruct (mapM_result body en) as [rows|e] eqn:Hrun.
    + exfalso. apply Hshort.
      apply mapM_result_Ok_inv in Hrun.
      destruct (decide (length disorder_pos = 0)%nat) as [H0|Hpos]; [lia|].
      destruct (lookup_lt_is_Some_2 disorder_pos (length disorder_pos - 1))
        as [pos Hp]; [lia|].
      apply lookup_enumerate in Hp. fold en in Hp.
      destruct (Forall2_lookup_l _ _ _ _ _ Hrun Hp) as (row & _ & Hrow).
      unfold body in Hrow.
      destruct (index disorder_scores _) as [sv|] eqn:Hsv; [|done].
      destruct (index disorder_ma _) as [mv|] eqn:Hmv; [|done].
      unfold index in Hsv, Hmv.
      destruct (disorder_scores !! _) eqn:Hs1; [|done].
      destruct (disorder_ma !! _) eqn:Hm1; [|done].
      apply lookup_lt_Some in Hs1, Hm1. lia.
    + apply mapM_result_Raise_inv in Hrun as ([i pos] & _ & Hf).
      unfold body in Hf. f_equal.
      destruct (index disorder_scores i) as [sv|e1] eqn:Hsv.
      * destruct (index disorder_ma i) as [mv|e2] eqn:Hmv.
        -- rewrite !bind_Ok in Hf. by destruct (cc_map !! pos).
        -- rewrite bind_Ok in Hf. simpl in Hf. injection Hf as <-.
           by apply index_Raise in Hmv as [-> _].
      * simpl in Hf. injection Hf as <-. by apply index_Raise in Hsv as [-> _].
Qed.

Lemma export_combined_csv_bounds_witness :
  (∃ rows,
     PlotCombinedAnalysis.export_combined_csv ["M"; "K"]%string [1; 2]
       [20 # 1; 80 # 1]%Q [50 # 1; 50 # 1]%Q [] [] = Ok rows
     ∧ length rows = 2%nat)
  ∧ PlotCombinedAnalysis.export_combined_csv ["M"; "K"]%string [1; 2]
      [20 # 1]%Q [50 # 1; 50 # 1]%Q [] [] = Raise IndexError.
Proof.
  split.
  - destruct (export_combined_csv_bounds ["M"; "K"]%string [1; 2]
                [20 # 1; 80 # 1]%Q [50 # 1; 50 # 1]%Q [] []) as [H _].
    destruct H as (rows & Hr & Hl & _); [simpl; lia|]. by exists rows.
  - destruct (export_combined_csv_bounds ["M"; "K"]%string [1; 2]
                [20 # 1]%Q [50 # 1; 50 # 1]%Q [] []) as [_ H].
    apply H. simpl. lia.
Defined.

(** ** Region tables: interval lengths *)

Section interval_lengths.

Lemma total_length_snoc ivs s e :
  total_length (ivs ++ [(s, e)])
  = total_length ivs + (Z.of_nat e - Z.of_nat s + 1).
Proof.
  induction ivs as [|[a b] ivs IH]; simpl; [lia|]. rewrite IH. lia.
Qed.

Lemma count_true_snoc flags b :
  count_true (flags ++ [b]) = count_true flags + (if b then 1 else 0).
Proof.
  unfold count_true. rewrite filter_app, length_app.
  destruct b; rewrite ?filter_cons_True, ?filter_cons_False by done;
    rewrite filter_nil; simpl; lia.
Qed.

Lemma scan_count (flags : list bool) (k : nat) :
  (k ≤ length flags)%nat →
  let st := foldl (ExportRegionSummary.scan_step (length flags)) ([], None)
                  (take k (zip (seq 1 (length flags)) flags)) in
  total_length st.1 + open_length k st.2 = count_true (take k flags)
  ∧ Forall (λ iv, (1 ≤ iv.1 ≤ iv.2)%nat) st.1
  ∧ match st.2 with
    | Some s0 => (1 ≤ s0 ≤ k)%nat ∧ (k < length flags)%nat
    | None => True
    end.
Proof.
  cbv zeta. induction k as [|k IH]; intros Hk.
  - simpl. rewrite take_0. done.
  - destruct (lookup_lt_is_Some_2 flags k) as [val Hval]; [lia|].
    assert (Hz : zip (seq 1 (length flags)) flags !! k = Some (S k, val)).
    { apply lookup_zip_with_Some. exists (S k), val.
      split_and!; [done| |done]. apply lookup_seq. split; [done|lia]. }
    rewrite (take_S_r _ _ _ Hz), foldl_app, (take_S_r _ _ _ Hval).
    rewrite count_true_snoc.
    destruct IH as (IH1 & IHf & IH2); [lia|].
    destruct (foldl _ _ (take k _)) as [out start]. simpl in IH1, IHf, IH2.
    cbn [foldl ExportRegionSummary.scan_step].
    destruct val, start as [s0|]; cbn [andb negb orb bool_decide];
      rewrite ?bool_decide_eq_true_2, ?bool_decide_eq_false_2 by done;
      cbn [andb negb orb].
    all: try case_bool_decide; cbn [fst snd]; unfold open_length in *;
      rewrite ?total_length_snoc;
      (split; [lia|split; [|first [done|lia]]]);
      first [done|apply Forall_app; split; [done|]];
      apply Forall_singleton; simpl; lia.
Qed.

Lemma flags_to_intervals_total (flags : list bool) :
  total_length (ExportRegionSummary.flags_to_intervals flags) = count_true flags
  ∧ Forall (λ iv, (1 ≤ iv.1 ≤ iv.2)%nat)
           (ExportRegionSummary.flags_to_intervals flags).
Proof.
  rewrite <- flags_to_intervals_copies_agree.
  unfold PlotOverlayThresholdBasic.flags_to_intervals.
  change PlotOverlayThresholdBasic.scan_step with ExportRegionSummary.scan_step.
  destruct (scan_count flags (length flags)) as (H1 & Hf & H2); [done|].
  rewrite firstn_all2 in H1, Hf, H2
    by (rewrite length_zip, length_seq; lia).
  rewrite firstn_all in H1.
  destruct (foldl _ _ _) as [out [s0|]]; simpl in *; [lia|].
  split; [lia|done].
Qed.

End interval_lengths.

Section region_tables.

Import RegionSummaryTables.

Lemma zip_fmap_same {A B C} (f : A → B) (g : A → C) (l : list A) :
  zip (f <$> l) (g <$> l) = (λ x, (f x, g x)) <$> l.
Proof. induction l as [|x l IH]; [done|]. cbn. f_equal. apply IH. Qed.

Lemma main_positions combined_csv tm_spans thr :
  (main combined_csv tm_spans thr).1
  = positions_line tm_spans thr <$> combined_csv.
Proof.
  unfold main, load_combined. cbn [fst].
  assert (Htm : match tm_spans with
                | [] => replicate (length (csv_Position <$> combined_csv)) false
                | _ :: _ => in_any_span tm_spans <$> (csv_Position <$> combined_csv)
                end
                = (λ r, in_any_span tm_spans (csv_Position r)) <$> combined_csv).
  { destruct tm_spans as [|sp tm_spans].
    - rewrite length_fmap. induction combined_csv as [|r l IH]; simpl; [done|].
      by rewrite IH.
    - by rewrite <- list_fmap_compose. }
  rewrite Htm. rewrite <- !list_fmap_compose.
  rewrite !zip_fmap_same. rewrite <- list_fmap_compose.
  apply list_fmap_ext. intros i r _. done.
Qed.

Lemma main_intervals combined_csv tm_spans thr :
  (main combined_csv tm_spans thr).2
  = (interval_line "IDR" <$> flag_intervals (
       (λ r, Qle_bool thr (to_percent (csv_Disorder_Score_Original r)))
       <$> combined_csv))
    ++ (interval_line "CC" <$> flag_intervals (
         (λ r, Qle_bool thr (to_percent (csv_CC_Probability_Original r)))
         <$> combined_csv))
    ++ (interval_line "TM" <$> tm_spans).
Proof.
  unfold main, load_combined. cbn [snd fmap list_fmap mjoin list_join].
  rewrite app_nil_r, <- app_assoc. by rewrite <- !list_fmap_compose.
Qed.

Lemma filter_interval_line (t t' : string) (l : list (Z * Z)) :
  filter (λ iv, iv_Type iv = t) (interval_line t' <$> l)
  = if decide (t' = t) then interval_line t' <$> l else [].
Proof.
  induction l as [|[s e] l IH]; [by destruct (decide _)|].
  rewrite fmap_cons, filter_cons, IH. simpl. by destruct (decide (t' = t)).
Qed.

Lemma sum_flag_intervals (t : string) (flags : list bool) :
  sum_Z (iv_Length <$> (interval_line t <$> flag_intervals flags))
  = count_true flags.
Proof.
  destruct (flags_to_intervals_total flags) as [<- _].
  unfold flag_intervals.
  induction (ExportRegionSummary.flags_to_intervals flags) as [|[s e] l IH];
    [done|].
  rewrite !fmap_cons. cbn [sum_Z foldr total_length]. fold (sum_Z (iv_Length <$> (interval_line t <$> ((λ '(s, e), (Z.of_nat s, Z.of_nat e)) <$> l)))).
  rewrite IH. done.
Qed.

Lemma yes_no_Yes (b : bool) : yes_no b = "Yes"%string ↔ b = true.
Proof. by destruct b. Qed.

Lemma count_yes {A} (f : A → bool) (l : list A) :
  Z.of_nat (length (filter (λ x, yes_no (f x) = "Yes"%string) l))
  = count_true (f <$> l).
Proof.
  unfold count_true. f_equal.
  induction l as [|x l IH]; [done|].
  rewrite fmap_cons, !filter_cons. destruct (f x) eqn:Hf; simpl.
  - by f_equal.
  - done.
Qed.

Lemma length_filter_fmap {A B} (h : A → B) (P : B → Prop)
    `{!∀ b, Decision (P b)} (l : list A) :
  length (filter P (h <$> l)) = length (filter (λ a, P (h a)) l).
Proof.
  induction l as [|a l IH]; [done|].
  rewrite fmap_cons, !filter_cons. destruct (decide (P (h a))); simpl; by rewrite IH.
Qed.

End region_tables.

(** X4: the intervals table accounts for every flagged residue.  In the
    output of [main] the lengths of the "IDR" lines add up to the number
    of lines of the per-residue table marked "Yes" in [In_IDR], likewise
    for "CC" and [In_CC]; every such line has [1 <= Start <= End] and
    [Length = End - Start + 1]. *)
Theorem interval_lengths_match_flags
    (combined_csv : list RegionSummaryTables.combined_scores_row)
    (tm_spans : list (Z * Z)) (thr : Q) :
  let positions := (RegionSummaryTables.main combined_csv tm_spans thr).1 in
  let intervals := (RegionSummaryTables.main combined_csv tm_spans thr).2 in
  let of_type t :=
    filter (λ iv, RegionSummaryTables.iv_Type iv = t) intervals in
  length positions = length combined_csv
  ∧ sum_Z (RegionSummaryTables.iv_Length <$> of_type "IDR"%string)
    = Z.of_nat (length (filter
        (λ row, RegionSummaryTables.In_IDR row = "Yes"%string) positions))
  ∧ sum_Z (RegionSummaryTables.iv_Length <$> of_type "CC"%string)
    = Z.of_nat (length (filter
        (λ row, RegionSummaryTables.In_CC row = "Yes"%string) positions))
  ∧ Forall (λ iv,
        RegionSummaryTables.iv_Type iv ≠ "TM"%string →
        1 ≤ RegionSummaryTables.iv_Start iv ≤ RegionSummaryTables.iv_End iv
        ∧ RegionSummaryTables.iv_Length iv
          = RegionSummaryTables.iv_End iv - RegionSummaryTables.iv_Start iv + 1)
      intervals.
Proof.
  cbv zeta. rewrite main_positions, main_intervals.
  rewrite !filter_app, !filter_interval_line.
  rewrite (decide_True (P := "IDR"%string = "IDR"%string)) by done.
  rewrite (decide_True (P := "CC"%string = "CC"%string)) by done.
  rewrite (decide_False (P := "IDR"%string = "CC"%string)) by done.
  rewrite (decide_False (P := "CC"%string = "IDR"%string)) by done.
  rewrite (decide_False (P := "TM"%string = "IDR"%string)) by done.
  rewrite (decide_False (P := "TM"%string = "CC"%string)) by done.
  rewrite ?app_nil_r, ?app_nil_l.
  split_and!.
  - by rewrite length_fmap.
  - rewrite sum_flag_intervals.
    rewrite length_filter_fmap.
    rewrite <- (count_yes (λ r, Qle_bool thr (RegionSummaryTables.to_percent
                  (RegionSummaryTables.csv_Disorder_Score_Original r)))).
    done.
  - rewrite sum_flag_intervals.
    rewrite length_filter_fmap.
    rewrite <- (count_yes (λ r, Qle_bool thr (RegionSummaryTables.to_percent
                  (RegionSummaryTables.csv_CC_Probability_Original r)))).
    done.
  - rewrite !Forall_app. split_and!.
    + unfold RegionSummaryTables.flag_intervals.
      destruct (flags_to_intervals_total
                  ((λ r, Qle_bool thr (RegionSummaryTables.to_percent
                     (RegionSummaryTables.csv_Disorder_Score_Original r)))
                   <$> combined_csv)) as [_ Hf].
      rewrite !Forall_fmap. eapply Forall_impl; [exact Hf|].
      intros [s e] Hse _. simpl in *. lia.
    + unfold RegionSummaryTables.flag_intervals.
      destruct (flags_to_intervals_total
                  ((λ r, Qle_bool thr (RegionSummaryTables.to_percent
                     (RegionSummaryTables.csv_CC_Probability_Original r)))
                   <$> combined_csv)) as [_ Hf].
      rewrite !Forall_fmap. eapply Forall_impl; [exact Hf|].
      intros [s e] Hse _. simpl in *. lia.
    + rewrite Forall_fmap. apply Forall_forall. intros [s e] _ Hne. done.
Qed.

(** ** Region tables: coordinates *)

Section region_coordinates.

Import RegionSummaryTables.

Lemma listed_app l1 l2 t p : listed (l1 ++ l2) t p ↔ listed l1 t p ∨ listed l2 t p.
Proof.
  unfold listed. split.
  - intros (iv & Hin & H). apply elem_of_app in Hin as [Hin|Hin]; [left|right];
      by exists iv.
  - intros [(iv & Hin & H)|(iv & Hin & H)]; exists iv;
      (split; [apply elem_of_app; auto|done]).
Qed.

Lemma listed_other_type t t' (l : list (Z * Z)) p :
  t' ≠ t → ¬ listed (interval_line t' <$> l) t p.
Proof.
  intros Hne (iv & Hin & Ht & _).
  apply list_elem_of_fmap in Hin as ([s e] & -> & _). done.
Qed.

Lemma listed_spans t (l : list (Z * Z)) p :
  listed (interval_line t <$> l) t p ↔ ∃ s e, (s, e) ∈ l ∧ s ≤ p ≤ e.
Proof.
  split.
  - intros (iv & Hin & _ & Hp).
    apply list_elem_of_fmap in Hin as ([s e] & -> & Hin). by exists s, e.
  - intros (s & e & Hin & Hp). exists (interval_line t (s, e)).
    split; [|done]. apply list_elem_of_fmap. by exists (s, e).
Qed.

Lemma listed_flag_intervals t (flags : list bool) (i : nat) :
  listed (interval_line t <$> flag_intervals flags) t (Z.of_nat i + 1)
  ↔ flags !! i = Some true.
Proof.
  rewrite listed_spans.
  pose proof (closed_upto_extracts flags _ (scan_result_closed flags)) as Hx.
  destruct Hx as [_ _ Hcover _ _ _].
  specialize (Hcover (S i)). rewrite flag_at_S in Hcover.
  unfold flag_intervals. split.
  - intros (s & e & Hin & Hp).
    apply list_elem_of_fmap in Hin as ([s' e'] & [= -> ->] & Hin).
    assert (Hc : covered (ExportRegionSummary.flags_to_intervals flags) (S i)).
    { exists s', e'. split; [done|lia]. }
    apply Hcover in Hc. by destruct (flags !! i) as [[]|].
  - intros Hi. rewrite Hi in Hcover.
    destruct (proj2 Hcover eq_refl) as (s & e & Hin & Hp).
    exists (Z.of_nat s), (Z.of_nat e). split; [|lia].
    apply list_elem_of_fmap. by exists (s, e).
Qed.

Lemma in_any_span_true (tm_spans : list (Z * Z)) (p : Z) :
  in_any_span tm_spans p = true ↔ ∃ s e, (s, e) ∈ tm_spans ∧ s ≤ p ≤ e.
Proof.
  unfold in_any_span. rewrite existsb_exists. split.
  - intros ([s e] & Hin & H). exists s, e.
    apply list_elem_of_In in Hin. split; [done|lia].
  - intros (s & e & Hin & H). exists (s, e).
    split; [by apply list_elem_of_In|]. lia.
Qed.

End region_coordinates.

(** X5: the two coordinate systems of the region tables.  Line [i]
    (0-based) of the per-residue table is marked "Yes" in [In_IDR]
    (in [In_CC]) exactly when the row number [i + 1] lies in an "IDR"
    ("CC") line of the intervals table, whereas it is marked "Yes" in
    [In_TM] exactly when its [Position] value lies in a "TM" line. *)
Theorem region_tables_coordinates
    (combined_csv : list RegionSummaryTables.combined_scores_row)
    (tm_spans : list (Z * Z)) (thr : Q) (i : nat)
    (row : RegionSummaryTables.positions_row) :
  let positions := (RegionSummaryTables.main combined_csv tm_spans thr).1 in
  let intervals := (RegionSummaryTables.main combined_csv tm_spans thr).2 in
  positions !! i = Some row →
  (RegionSummaryTables.In_IDR row = "Yes"%string
   ↔ listed intervals "IDR" (Z.of_nat i + 1))
  ∧ (RegionSummaryTables.In_CC row = "Yes"%string
     ↔ listed intervals "CC" (Z.of_nat i + 1))
  ∧ (RegionSummaryTables.In_TM row = "Yes"%string
     ↔ listed intervals "TM" (RegionSummaryTables.Position row)).
Proof.
  cbv zeta. rewrite main_positions, main_intervals.
  intros Hrow. apply list_lookup_fmap_Some in Hrow as (r & -> & Hr).
  unfold positions_line. cbn [RegionSummaryTables.In_IDR
    RegionSummaryTables.In_CC RegionSummaryTables.In_TM
    RegionSummaryTables.Position].
  rewrite !yes_no_Yes, !listed_app.
  split_and!.
  - rewrite listed_flag_intervals, list_lookup_fmap, Hr. simpl.
    split.
    + intros ->. by left.
    + intros [H|[H|H]].
      * by injection H.
      * by apply listed_other_type in H.
      * by apply listed_other_type in H.
  - rewrite listed_flag_intervals, list_lookup_fmap, Hr. simpl.
    split.
    + intros ->. right. by left.
    + intros [H|[H|H]].
      * by apply listed_other_type in H.
      * by injection H.
      * by apply listed_other_type in H.
  - rewrite in_any_span_true, listed_spans. split.
    + intros H. right. by right.
    + intros [H|[H|H]].
      * by apply listed_other_type in H.
      * by apply listed_other_type in H.
      * done.
Qed.

Lemma region_tables_coordinates_witness :
  ∃ row,
    (RegionSummaryTables.main
       [RegionSummaryTables.CombinedScoresRow 11 "M" (80 # 1) (80 # 1) (10 # 1) (10 # 1);
        RegionSummaryTables.CombinedScoresRow 12 "K" (20 # 1) (20 # 1) (90 # 1) (90 # 1)]
       [(12, 20)] 50).1 !! 1%nat = Some row
    ∧ (RegionSummaryTables.In_CC row = "Yes"%string
       ↔ listed (RegionSummaryTables.main
           [RegionSummaryTables.CombinedScoresRow 11 "M" (80 # 1) (80 # 1) (10 # 1) (10 # 1);
            RegionSummaryTables.CombinedScoresRow 12 "K" (20 # 1) (20 # 1) (90 # 1) (90 # 1)]
           [(12, 20)] 50).2 "CC" 2).
Proof.
  eexists. split; [reflexivity|].
  apply (region_tables_coordinates
           [RegionSummaryTables.CombinedScoresRow 11 "M" (80 # 1) (80 # 1) (10 # 1) (10 # 1);
            RegionSummaryTables.CombinedScoresRow 12 "K" (20 # 1) (20 # 1) (90 # 1) (90 # 1)]
           [(12, 20)] 50 1).
  reflexivity.
Defined.

(** ** Region tables: rescaled scores *)

Section rescaling.

Import RegionSummaryTables.


End rescaling.



(** ** Range of the blended channels *)

Section blend_range.

Lemma byte_raster_get (img : raster Z) (y x : nat) (p : pixel Z) :
  byte_raster img → get_px img y x = Some p → byte_px p.
Proof.
  unfold byte_raster, get_px. intros Hb Hget.
  destruct (img !! y) as [row|] eqn:Hrow; [|done]. simpl in Hget.
  eapply Forall_lookup_1 in Hb; [|exact Hrow].
  by eapply Forall_lookup_1 in Hb.
Qed.

Lemma astype_uint8_between (q : Q) (lo hi : Z) :
  0 ≤ lo → hi < 256 → (inject_Z lo <= q)%Q → (q <= inject_Z hi)%Q →
  lo ≤ astype_uint8 q ≤ hi.
Proof.
  intros Hlo Hhi H1 H2. unfold astype_uint8, py_int.
  assert (H0 : (0 <= q)%Q).
  { eapply Qle_trans; [|exact H1]. change 0%Q with (inject_Z 0).
    by rewrite <- Zle_Qle. }
  rewrite (proj2 (Qle_bool_iff 0 q) H0).
  assert (lo ≤ Qfloor q).
  { rewrite <- (Qfloor_Z lo). by apply Qfloor_resp_le. }
  assert (Qfloor q ≤ hi).
  { rewrite <- (Qfloor_Z hi). by apply Qfloor_resp_le. }
  rewrite Z.mod_small; lia.
Qed.



End blend_range.



Section darkening_range.

Lemma dimmed_darken_px target alpha_blend thr y (q q' : pixel Q) :
  (0 <= alpha_blend)%Q → (alpha_blend <= 1)%Q →
  dimmed q q' → dimmed q (darken_px target alpha_blend thr y q').
Proof.
  intros H0 H1 (Hr & Hg & Hb & He).
  unfold darken_px. destruct (_ && _); [|done].
  unfold PlotCombinedDarkTheme.darken, rgb_map, dimmed. simpl.
  split_and!; try done; nra.
Qed.

Lemma darkening_entries_dimmed fig threshold alpha_blend dpi h w
    (axes_targets : list (axis * (Q * Q * Q))) (img0 img : raster Q) :
  (0 <= alpha_blend)%Q → (alpha_blend <= 1)%Q →
  shaped h w img →
  (∀ (y x : nat) q, get_px img0 y x = Some q →
     ∃ q', get_px img y x = Some q' ∧ dimmed q q') →
  ∃ img',
    for_each axes_targets
      (PlotCombinedDarkTheme.darken_entry fig threshold alpha_blend dpi h w)
      img = Ok img'
    ∧ ∀ (y x : nat) q, get_px img0 y x = Some q →
        ∃ q', get_px img' y x = Some q' ∧ dimmed q q'.
Proof.
  intros H0 H1. revert img.
  induction axes_targets as [|[ax target] l IH]; intros img Hshape Hinv.
  - exists img. by split.
  - rewrite for_each_cons.
    destruct (darken_entry_spec fig threshold alpha_blend dpi h w img ax target
                Hshape) as (img1 & Hrun & Hshape1 & Hget).
    rewrite Hrun, bind_Ok. apply IH; [done|].
    intros y x q Hq. destruct (Hinv y x q Hq) as (q' & Hq' & Hd).
    rewrite Hget, Hq'. simpl. eexists. split; [done|].
    case_decide; [|done]. by apply dimmed_darken_px.
Qed.

Lemma darken_channel (c : Z) (q : Q) :
  0 ≤ c < 256 → (0 <= q)%Q → (q <= inject_Z c / 255)%Q →
  0 ≤ astype_uint8 (q * 255) ≤ c.
Proof.
  intros Hc H0 H1. apply astype_uint8_between; [lia|lia| |].
  - change (inject_Z 0) with 0%Q. nra.
  - apply (Qmult_le_compat_r _ _ 255) in H1; [|discriminate].
    assert (E : (inject_Z c / 255 * 255 == inject_Z c)%Q) by field.
    by rewrite E in H1.
Qed.

End darkening_range.

(** X8: darkening never lightens.  On a grid of bytes and for a blend
    ratio between 0 and 1, [darken_threshold] with any list of entries
    returns a grid of bytes in which every colour channel is at most the
    rendered one, and every other channel is the rendered one. *)
Theorem darkening_never_lightens (fig : figure)
    (axes_targets : list (axis * (Q * Q * Q)))
    (threshold alpha_blend : Q) (dpi : Z) :
  rectangular (rendered fig) → byte_raster (rendered fig) →
  (0 <= alpha_blend)%Q → (alpha_blend <= 1)%Q →
  ∃ out,
    PlotCombinedDarkTheme.darken_threshold
      fig axes_targets threshold alpha_blend dpi = Ok out
    ∧ ∀ (y x : nat) p,
        get_px (rendered fig) y x = Some p →
        ∃ p', get_px out y x = Some p'
              ∧ px_le Z.le p' p ∧ byte_px p'.
Proof.
  intros Hrect Hbytes H0 H1.
  unfold PlotCombinedDarkTheme.darken_threshold. cbv zeta.
  set (img := raster_map (λ z, inject_Z z / 255)%Q (rendered fig)).
  destruct (darkening_entries_dimmed fig threshold alpha_blend dpi
              (height img) (width img) axes_targets img img H0 H1)
    as (img' & Hrun & Hinv).
  { subst img. rewrite height_raster_map, width_raster_map.
    by apply shaped_raster_map, rectangular_shaped. }
  { intros y x q Hq. exists q. split; [done|].
    subst img. rewrite get_raster_map in Hq.
    destruct (get_px (rendered fig) y x) as [p|] eqn:Hp; [|done].
    injection Hq as <-.
    destruct (byte_raster_get _ _ _ _ Hbytes Hp) as (Hr & Hg & Hb & He).
    assert (Hnn : ∀ c, 0 ≤ c → (0 <= inject_Z c / 255)%Q).
    { intros c Hc. apply Qle_shift_div_l; [reflexivity|].
      rewrite Qmult_0_l. change 0%Q with (inject_Z 0). by rewrite <- Zle_Qle. }
    unfold dimmed, px_map. simpl.
    split_and!; try apply Qle_refl; try done; apply Hnn; lia. }
  rewrite Hrun, bind_Ok. eexists. split; [done|].
  intros y x p Hp.
  destruct (Hinv y x (unit_px p)) as (q' & Hq' & (Hr' & Hg' & Hb' & He')).
  { subst img. by rewrite get_raster_map, Hp. }
  rewrite get_raster_map, Hq'. simpl. eexists. split; [done|].
  destruct (byte_raster_get _ _ _ _ Hbytes Hp) as (Hr & Hg & Hb & He).
  unfold unit_px, px_map in Hr', Hg', Hb', He'. simpl in Hr', Hg', Hb', He'.
  pose proof (darken_channel (red p) (red q') Hr (proj1 Hr') (proj2 Hr')).
  pose proof (darken_channel (green p) (green q') Hg (proj1 Hg') (proj2 Hg')).
  pose proof (darken_channel (blue p) (blue q') Hb (proj1 Hb') (proj2 Hb')).
  assert (Hex : (λ q, astype_uint8 (q * 255)) <$> extra q' = extra p).
  { rewrite He'. rewrite <- list_fmap_compose.
    clear -He. induction He as [|c l Hc _ IH]; [done|].
    rewrite fmap_cons, IH. simpl. by rewrite astype_uint8_unit. }
  unfold px_le, byte_px, px_map. simpl. rewrite Hex.
  split_and!; done || lia.
Qed.

Lemma darkening_never_lightens_witness :
  ∃ out p',
    PlotCombinedDarkTheme.darken_threshold
      red_fig [(full_axis, (1, 0, 0)%Q)] 50 (2 # 10) 300 = Ok out
    ∧ get_px out 1 0 = Some p' ∧ px_le Z.le p' red_px.
Proof.
  destruct (darkening_never_lightens red_fig [(full_axis, (1, 0, 0)%Q)]
              50 (2 # 10) 300) as (out & Hrun & Hpx).
  - solve_bytes.
  - solve_bytes.
  - discriminate.
  - discriminate.
  - destruct (Hpx 1%nat 0%nat red_px eq_refl) as (p' & Hp' & Hle & _).
    by exists out, p'.
Defined.

(** ** Vectorised recolouring *)

Section vectorised.

Import PlotOverlayThreshold.

Lemma get_px_imap {C D} (f : nat → nat → pixel C → pixel D) (img : raster C)
    (y x : nat) :
  get_px (imap (λ y row, imap (f y) row) img) y x = f y x <$> get_px img y x.
Proof.
  unfold get_px. rewrite list_lookup_imap.
  destruct (img !! y) as [row|]; simpl; [|done].
  by rewrite list_lookup_imap.
Qed.

Lemma shaped_imap {C D} (f : nat → nat → pixel C → pixel D) (img : raster C)
    (h w : Z) :
  shaped h w img → shaped h w (imap (λ y row, imap (f y) row) img).
Proof.
  intros [Hh Hw]. split.
  - unfold height in *. by rewrite length_imap.
  - apply Forall_lookup. intros y row' Hrow'.
    rewrite list_lookup_imap in Hrow'.
    destruct (img !! y) as [row|] eqn:Hrow; [|done].
    injection Hrow' as <-. rewrite length_imap.
    by eapply Forall_lookup_1 in Hw.
Qed.

Lemma raster_ext {C} (h w : Z) (a b : raster C) :
  shaped h w a → shaped h w b →
  (∀ y x : nat, get_px a y x = get_px b y x) → a = b.
Proof.
  intros [Ha Hwa] [Hb Hwb] Hget. apply list_eq. intros y.
  unfold height in *.
  destruct (a !! y) as [ra|] eqn:Hra.
  - destruct (lookup_lt_is_Some_2 b y) as [rb Hrb].
    { apply lookup_lt_Some in Hra. lia. }
    rewrite Hrb. f_equal. apply list_eq. intros x.
    specialize (Hget y x). unfold get_px in Hget.
    by rewrite Hra, Hrb in Hget.
  - symmetry. apply lookup_ge_None. apply lookup_ge_None in Hra. lia.
Qed.

(** The view lies on the array whenever the box does not reach below it. *)
Lemma recolour_view_get blend img fig ax color_rgb dpi threshold :
  0 ≤ bottom_px_of fig ax dpi + 1 ≤ height img →
  ∃ img',
    recolour_view blend img fig ax color_rgb dpi threshold = Ok img'
    ∧ (∀ h w, shaped h w img → shaped h w img')
    ∧ ∀ y x : nat,
        get_px img' y x
        = (λ p, if in_view fig ax dpi (height img) (width img) y x
                   && ge_ext (Z.of_nat y) (threshold_row fig ax dpi threshold)
                   && norm_lt p (target_255 color_rgb) COLOR_TOL
                then blend p else p)
          <$> get_px img y x.
Proof.
  intros Hbot. unfold recolour_view, in_view, py_slice. cbv zeta.
  set (top := Z.max 0 (top_px_of fig ax dpi)).
  set (bot := bottom_px_of fig ax dpi + 1) in *.
  set (c0 := if Z.max 0 (left_px_of ax dpi - 5) <? 0 then _ else _).
  set (c1 := if right_px_of ax dpi + 1 <? 0 then _ else _).
  assert (Htop : 0 ≤ top) by (subst top; lia).
  rewrite (proj2 (Z.ltb_ge top 0)) by lia.
  rewrite (proj2 (Z.ltb_ge bot 0)) by lia.
  cbn [fst snd].
  rewrite (Z.min_l bot) by lia.
  destruct ((bot <=? Z.min top (height img)) || (c1 <=? c0)) eqn:Hempty.
  - exists img. split_and!; [done|done|].
    intros y x. destruct (get_px img y x) as [p|]; [|done]. simpl. f_equal.
    apply orb_true_iff in Hempty as [H|H].
    + apply Z.leb_le in H.
      destruct (Z.min top (height img) <=? Z.of_nat y) eqn:H1; [|done].
      apply Z.leb_le in H1. rewrite (proj2 (Z.ltb_ge _ _)) by lia. done.
    + apply Z.leb_le in H.
      destruct (c0 <=? Z.of_nat x) eqn:H1; [|by rewrite !andb_false_r].
      apply Z.leb_le in H1. rewrite (proj2 (Z.ltb_ge (Z.of_nat x) c1)) by lia.
      by rewrite !andb_false_r.
  - apply orb_false_iff in Hempty as [H1 H2].
    apply Z.leb_gt in H1. apply Z.leb_gt in H2.
    assert (Hmin : Z.min top (height img) = top) by lia.
    rewrite Hmin in *.
    rewrite (Z.max_r 0 (bot - top)) by lia.
    rewrite Z.eqb_refl. cbn [orb].
    eexists. split_and!; [done| |].
    + intros h w Hs. by apply shaped_imap.
    + intros y x. unfold masked_blend. rewrite get_px_imap.
      destruct (get_px img y x) as [p|]; [|done]. simpl. f_equal.
      destruct ((top <=? Z.of_nat y) && (Z.of_nat y <? bot)) eqn:Hrow;
        [|done].
      apply andb_true_iff in Hrow as [Hy1 Hy2].
      apply Z.leb_le in Hy1. apply Z.ltb_lt in Hy2.
      assert (Hval : (if bot - top =? 1 then top else top + (Z.of_nat y - top))
                     = Z.of_nat y).
      { destruct (bot - top =? 1) eqn:Hn; [|lia].
        apply Z.eqb_eq in Hn. lia. }
      by rewrite Hval.
Qed.

Lemma apply_threshold_lightening_shaped fig ax color_rgb threshold alpha_blend :
  rectangular (rendered fig) →
  ∃ out n,
    PlotCombinedAnalysis.apply_threshold_lightening
      fig ax color_rgb threshold alpha_blend = Ok (out, n)
    ∧ shaped (height (rendered fig)) (width (rendered fig)) out.
Proof.
  intros Hrect. unfold PlotCombinedAnalysis.apply_threshold_lightening.
  cbv zeta. rewrite width_raster_map, height_raster_map.
  destruct (scan_window fst
              (PlotCombinedAnalysis.lighten_body color_rgb alpha_blend
                 (threshold_row fig ax 300 threshold))
              (lighten_px color_rgb alpha_blend
                 (threshold_row fig ax 300 threshold))
              (height (rendered fig)) (width (rendered fig))
              (λ st px_x px_y, lighten_body_spec _ _ _ _ _ st px_x px_y)
              (raster_map inject_Z (rendered fig), 0)
              (Z.max 0 (left_px_of ax 300 - 5))
              (Z.min (right_px_of ax 300 + 1) (width (rendered fig)))
              (Z.max 0 (top_px_of fig ax 300))
              (Z.min (bottom_px_of fig ax 300 + 1) (height (rendered fig))))
    as ([img n] & Hst & Hsh & _); [lia|lia|lia|lia| |].
  { by apply shaped_raster_map, rectangular_shaped. }
  rewrite Hst. simpl. eexists _, _. split; [done|].
  by apply shaped_raster_map.
Qed.

Lemma shaped_get_lt {C} (h w : Z) (img : raster C) (y x : nat) (p : pixel C) :
  shaped h w img → get_px img y x = Some p →
  Z.of_nat y < h ∧ Z.of_nat x < w.
Proof.
  intros [Hh Hw] Hget. unfold get_px, height in *.
  destruct (img !! y) as [row|] eqn:Hrow; [|done]. simpl in Hget.
  pose proof (lookup_lt_Some _ _ _ Hrow).
  eapply Forall_lookup_1 in Hw; [|exact Hrow]. simpl in Hw.
  apply lookup_lt_Some in Hget. lia.
Qed.

End vectorised.

(** X9: the vectorised and the loop implementation of the lightening
    agree.  On a grid whose box neither lies left of column 0 nor reaches
    below the last row, [apply_threshold_to_image], run on the rendered
    image as floats and cast to bytes, gives the image that
    [apply_threshold_lightening] returns. *)
Theorem vectorised_agrees_with_loop (fig : figure) (ax : axis)
    (color_rgb : Q * Q * Q) (threshold alpha_blend : Q) :
  rectangular (rendered fig) →
  0 ≤ right_px_of ax 300 + 1 →
  0 ≤ bottom_px_of fig ax 300 + 1 ≤ height (rendered fig) →
  ∃ img out n,
    PlotOverlayThreshold.apply_threshold_to_image
      (raster_map inject_Z (rendered fig)) fig ax color_rgb 300
      threshold alpha_blend = Ok img
    ∧ PlotCombinedAnalysis.apply_threshold_lightening
        fig ax color_rgb threshold alpha_blend = Ok (out, n)
    ∧ raster_map astype_uint8 img = out.
Proof.
  intros Hrect Hright Hbot.
  set (img0 := raster_map inject_Z (rendered fig)).
  destruct (recolour_view_get (PlotCombinedAnalysis.lighten alpha_blend)
              img0 fig ax color_rgb 300 threshold)
    as (img & Hrun & Hshape & Hget).
  { subst img0. by rewrite height_raster_map. }
  destruct (apply_threshold_lightening_get fig ax color_rgb threshold
              alpha_blend Hrect) as (out & n & Hloop & Hloop_get).
  destruct (apply_threshold_lightening_shaped fig ax color_rgb threshold
              alpha_blend Hrect) as (out' & n' & Hloop' & Hout).
  rewrite Hloop in Hloop'. injection Hloop' as <- <-.
  exists img, out, n. split_and!; [done|done|].
  assert (Hs0 : shaped (height (rendered fig)) (width (rendered fig)) img0).
  { subst img0. by apply shaped_raster_map, rectangular_shaped. }
  apply (raster_ext (height (rendered fig)) (width (rendered fig)));
    [by apply shaped_raster_map, Hshape|done|].
  intros y x. rewrite get_raster_map, Hget, Hloop_get.
  subst img0. rewrite get_raster_map, height_raster_map, width_raster_map.
  destruct (get_px (rendered fig) y x) as [p|] eqn:Hp; [|done]. simpl.
  do 2 f_equal.
  destruct (shaped_get_lt _ _ _ _ _ _ (rectangular_shaped _ Hrect) Hp)
    as [Hy Hx].
  unfold in_view, py_slice, lighten_px. cbv zeta. cbn [fst snd].
  rewrite (proj2 (Z.ltb_ge (Z.max 0 (top_px_of fig ax 300)) 0)) by lia.
  rewrite (proj2 (Z.ltb_ge (bottom_px_of fig ax 300 + 1) 0)) by lia.
  rewrite (proj2 (Z.ltb_ge (Z.max 0 (left_px_of ax 300 - 5)) 0)) by lia.
  rewrite (proj2 (Z.ltb_ge (right_px_of ax 300 + 1) 0)) by lia.
  change PlotOverlayThreshold.COLOR_TOL with PlotCombinedAnalysis.COLOR_TOL.
  case_decide as Hwin.
  - destruct Hwin as [Hc Hr].
    rewrite (proj2 (Z.leb_le _ _)) by lia.
    rewrite (proj2 (Z.ltb_lt _ _)) by lia.
    rewrite (proj2 (Z.leb_le _ _)) by lia.
    rewrite (proj2 (Z.ltb_lt _ _)) by lia.
    done.
  - assert (Hout_view :
      (Z.min (Z.max 0 (top_px_of fig ax 300)) (height (rendered fig))
         <=? Z.of_nat y)
      && (Z.of_nat y <? Z.min (bottom_px_of fig ax 300 + 1)
                              (height (rendered fig)))
      && (Z.min (Z.max 0 (left_px_of ax 300 - 5)) (width (rendered fig))
            <=? Z.of_nat x)
      && (Z.of_nat x <? Z.min (right_px_of ax 300 + 1) (width (rendered fig)))
      = false).
    { apply not_true_is_false. intros Ht.
      apply andb_true_iff in Ht as [Ht H4].
      apply andb_true_iff in Ht as [Ht H3].
      apply andb_true_iff in Ht as [H1 H2].
      apply Z.leb_le in H1, H3. apply Z.ltb_lt in H2, H4.
      apply Hwin. lia. }
    by rewrite Hout_view.
Qed.

Lemma vectorised_agrees_with_loop_witness :
  ∃ img out n,
    PlotOverlayThreshold.apply_threshold_to_image
      (raster_map inject_Z (rendered red_fig)) red_fig flat_axis (1, 0, 0)%Q 300
      50 (2 # 10) = Ok img
    ∧ PlotCombinedAnalysis.apply_threshold_lightening
        red_fig flat_axis (1, 0, 0)%Q 50 (2 # 10) = Ok (out, n)
    ∧ raster_map astype_uint8 img = out.
Proof.
  apply (vectorised_agrees_with_loop red_fig flat_axis (1, 0, 0)%Q 50 (2 # 10)).
  - solve_bytes.
  - vm_compute. discriminate.
  - vm_compute. split; discriminate.
Defined.

Section off_raster.

Import PlotOverlayThreshold.

Lemma recolour_view_below blend img fig ax color_rgb dpi threshold :
  Z.max 0 (top_px_of fig ax dpi) < height img →
  height img < bottom_px_of fig ax dpi + 1 →
  Z.max 0 (left_px_of ax dpi - 5) < Z.min (right_px_of ax dpi + 1) (width img) →
  recolour_view blend img fig ax color_rgb dpi threshold
  = Raise (mask_mismatch (height img - Z.max 0 (top_px_of fig ax dpi))).
Proof.
  intros Htop Hbot Hcols. unfold recolour_view, py_slice, mask_mismatch.
  cbv zeta.
  set (top := Z.max 0 (top_px_of fig ax dpi)) in *.
  set (bot := bottom_px_of fig ax dpi + 1) in *.
  set (left := Z.max 0 (left_px_of ax dpi - 5)) in *.
  assert (0 ≤ top) by (subst top; lia).
  assert (0 ≤ left) by (subst left; lia).
  rewrite (proj2 (Z.ltb_ge top 0)) by lia.
  rewrite (proj2 (Z.ltb_ge bot 0)) by lia.
  rewrite (proj2 (Z.ltb_ge left 0)) by lia.
  rewrite (proj2 (Z.ltb_ge (right_px_of ax dpi + 1) 0)) by lia.
  rewrite (Z.min_l top), (Z.min_r bot), (Z.min_l left) by lia.
  rewrite (proj2 (Z.leb_gt _ _)) by lia.
  rewrite (proj2 (Z.leb_gt _ _)) by lia.
  cbn [orb]. rewrite (Z.max_r 0 (bot - top)) by lia.
  rewrite (proj2 (Z.eqb_neq (bot - top) (height img - top))) by lia.
  rewrite (proj2 (Z.eqb_neq (bot - top) 1)) by lia.
  cbn [orb]. by destruct (height img - top =? 1).
Qed.

End off_raster.

(** X10: the vectorised pass does not clip the box to the raster.  It
    returns, keeping the shape of the array, when the bottom row of the
    box lies on the raster; when a non-empty view is cut from a box whose
    bottom row lies below the raster, the row mask has more entries than
    the view has rows and the call raises ([IndexError] for a view of one
    row, [ValueError] otherwise). *)
Theorem vectorised_needs_box_on_raster (img_array : raster Q) (fig : figure)
    (ax : axis) (color_rgb : Q * Q * Q) (dpi : Z) (threshold alpha_blend : Q) :
  (0 ≤ bottom_px_of fig ax dpi + 1 ≤ height img_array →
   ∃ img',
     PlotOverlayThreshold.apply_threshold_to_image
       img_array fig ax color_rgb dpi threshold alpha_blend = Ok img'
     ∧ ∀ h w, shaped h w img_array → shaped h w img')
  ∧ (Z.max 0 (top_px_of fig ax dpi) < height img_array →
     height img_array < bottom_px_of fig ax dpi + 1 →
     Z.max 0 (left_px_of ax dpi - 5)
     < Z.min (right_px_of ax dpi + 1) (width img_array) →
     PlotOverlayThreshold.apply_threshold_to_image
       img_array fig ax color_rgb dpi threshold alpha_blend
     = Raise (mask_mismatch
                (height img_array - Z.max 0 (top_px_of fig ax dpi)))).
Proof.
  split.
  - intros Hbot.
    destruct (recolour_view_get (PlotCombinedAnalysis.lighten alpha_blend)
                img_array fig ax color_rgb dpi threshold Hbot)
      as (img' & Hrun & Hshape & _).
    by exists img'.
  - intros Htop Hbot Hcols. by apply recolour_view_below.
Qed.

Lemma vectorised_needs_box_on_raster_witness :
  PlotOverlayThreshold.apply_threshold_to_image
    (raster_map inject_Z (rendered red_fig)) red_fig full_axis (1, 0, 0)%Q 300
    50 (2 # 10)
  = Raise (ValueError "operands could not be broadcast together").
Proof.
  destruct (vectorised_needs_box_on_raster
              (raster_map inject_Z (rendered red_fig)) red_fig full_axis
              (1, 0, 0)%Q 300 50 (2 # 10)) as [_ H].
  apply H; reflexivity.
Defined.

Section vectorised_frame.

Import PlotOverlayThreshold.

Lemma recolour_view_dims blend img fig ax color_rgb dpi threshold img' :
  recolour_view blend img fig ax color_rgb dpi threshold = Ok img' →
  height img' = height img ∧ width img' = width img.
Proof.
  unfold recolour_view. cbv zeta.
  destruct (py_slice _ _ (height img)) as [r0 r1].
  destruct (py_slice _ _ (width img)) as [c0 c1].
  destruct (_ || _); [by intros [= <-]|].
  destruct (_ || _).
  - intros [= <-]. unfold masked_blend, height, width.
    rewrite length_imap. split; [done|].
    destruct img as [|row img]; [done|]. simpl. by rewrite length_imap.
  - by destruct (_ =? 1).
Qed.

Lemma recolour_view_outside blend img fig ax color_rgb dpi threshold :
  on_raster fig ax dpi (height img) →
  ∃ img',
    recolour_view blend img fig ax color_rgb dpi threshold = Ok img'
    ∧ height img' = height img ∧ width img' = width img
    ∧ ∀ (y x : nat) q,
        get_px img y x = Some q →
        in_reach fig ax dpi threshold (height img) (width img) y x = false →
        get_px img' y x = Some q.
Proof.
  intros Hon.
  destruct (recolour_view_get blend img fig ax color_rgb dpi threshold Hon)
    as (img' & Hrun & _ & Hget).
  exists img'. split; [done|].
  destruct (recolour_view_dims _ _ _ _ _ _ _ _ Hrun) as [Hh Hw].
  split_and!; [done|done|].
  intros y x q Hq Hout. rewrite Hget, Hq. simpl.
  unfold in_reach in Hout. by rewrite Hout.
Qed.

Lemma clip_0_255_byte (c : Z) : 0 ≤ c < 256 → clip_0_255 (inject_Z c) = inject_Z c.
Proof.
  intros Hc. unfold clip_0_255.
  rewrite Qlt_bool_false.
  2:{ change 0%Q with (inject_Z 0). rewrite <- Zle_Qle. lia. }
  rewrite Qlt_bool_false; [done|].
  change 255%Q with (inject_Z 255). rewrite <- Zle_Qle. lia.
Qed.

Lemma px_clip_roundtrip (p : pixel Z) :
  byte_px p →
  px_map astype_uint8 (px_map clip_0_255 (px_map inject_Z p)) = p.
Proof.
  intros Hb. rewrite <- (px_float_roundtrip p Hb) at 2. f_equal.
  destruct p as [r g b e]. destruct Hb as (Hr & Hg & Hb & He). simpl in *.
  unfold px_map. simpl. rewrite !clip_0_255_byte by done. f_equal.
  rewrite <- list_fmap_compose. apply Forall_fmap_ext_1.
  eapply Forall_impl; [exact He|]. intros c Hc. simpl.
  by apply clip_0_255_byte.
Qed.

(** Four passes of [recolour_view] over boxes that lie on the raster. *)
Lemma four_passes blend fig ax1 ax1_twin ax2 ax2_twin dpi threshold
    (img : raster Q) :
  Forall (λ ax, on_raster fig ax dpi (height img))
         [ax1; ax1_twin; ax2; ax2_twin] →
  ∃ img',
    (img1 ← recolour_view blend img fig ax1 (1, 0, 0)%Q dpi threshold;
     img2 ← recolour_view blend img1 fig ax1_twin (0, 0, 1)%Q dpi threshold;
     img3 ← recolour_view blend img2 fig ax2 (1, 0, 0)%Q dpi threshold;
     recolour_view blend img3 fig ax2_twin (0, 0, 1)%Q dpi threshold)
    = Ok img'
    ∧ ∀ (y x : nat) q,
        get_px img y x = Some q →
        Forall (λ ax, in_reach fig ax dpi threshold (height img) (width img)
                        y x = false)
               [ax1; ax1_twin; ax2; ax2_twin] →
        get_px img' y x = Some q.
Proof.
  intros Hon.
  apply Forall_cons in Hon as [Hon1 Hon].
  apply Forall_cons in Hon as [Hon2 Hon].
  apply Forall_cons in Hon as [Hon3 Hon].
  apply Forall_cons in Hon as [Hon4 _].
  destruct (recolour_view_outside blend img fig ax1 (1, 0, 0)%Q dpi
              threshold Hon1) as (img1 & -> & Hh1 & Hw1 & Hget1).
  rewrite bind_Ok. rewrite <- Hh1 in Hon2.
  destruct (recolour_view_outside blend img1 fig ax1_twin (0, 0, 1)%Q dpi
              threshold Hon2) as (img2 & -> & Hh2 & Hw2 & Hget2).
  rewrite bind_Ok. rewrite <- Hh1, <- Hh2 in Hon3.
  destruct (recolour_view_outside blend img2 fig ax2 (1, 0, 0)%Q dpi
              threshold Hon3) as (img3 & -> & Hh3 & Hw3 & Hget3).
  rewrite bind_Ok. rewrite <- Hh1, <- Hh2, <- Hh3 in Hon4.
  destruct (recolour_view_outside blend img3 fig ax2_twin (0, 0, 1)%Q dpi
              threshold Hon4) as (img4 & -> & Hh4 & Hw4 & Hget4).
  exists img4. split; [done|].
  intros y x q Hq Hout.
  apply Forall_cons in Hout as [Ho1 Hout].
  apply Forall_cons in Hout as [Ho2 Hout].
  apply Forall_cons in Hout as [Ho3 Hout].
  apply Forall_cons in Hout as [Ho4 _].
  apply Hget4; [|by rewrite Hh3, Hh2, Hh1, Hw3, Hw2, Hw1].
  apply Hget3; [|by rewrite Hh2, Hh1, Hw2, Hw1].
  apply Hget2; [|by rewrite Hh1, Hw1].
  by apply Hget1.
Qed.

End vectorised_frame.

(** X11: frame of the vectorised passes.  When the four boxes lie on
    the raster, [apply_light_threshold] and [apply_dark_threshold] return,
    and a pixel of bytes that is, for each of the four axes, outside its
    view or above its threshold row comes back unchanged. *)
Theorem vectorised_frame (fig : figure) (ax1 ax1_twin ax2 ax2_twin : axis)
    (threshold alpha_blend : Q) :
  Forall (λ ax, on_raster fig ax 300 (height (rendered fig)))
         [ax1; ax1_twin; ax2; ax2_twin] →
  ∃ light dark,
    PlotOverlayThreshold.apply_light_threshold
      fig (ax1, ax1_twin, ax2, ax2_twin) threshold alpha_blend = Ok light
    ∧ PlotOverlayThreshold.apply_dark_threshold
        fig (ax1, ax1_twin, ax2, ax2_twin) threshold alpha_blend = Ok dark
    ∧ ∀ (y x : nat) p,
        get_px (rendered fig) y x = Some p → byte_px p →
        Forall (λ ax, in_reach fig ax 300 threshold
                        (height (rendered fig)) (width (rendered fig)) y x
                      = false)
               [ax1; ax1_twin; ax2; ax2_twin] →
        get_px light y x = Some p ∧ get_px dark y x = Some p.
Proof.
  intros Hon.
  unfold PlotOverlayThreshold.apply_light_threshold,
    PlotOverlayThreshold.apply_dark_threshold,
    PlotOverlayThreshold.apply_threshold_to_image. cbv zeta.
  set (img0 := raster_map inject_Z (rendered fig)).
  assert (Hh0 : height img0 = height (rendered fig)).
  { subst img0. by rewrite height_raster_map. }
  assert (Hw0 : width img0 = width (rendered fig)).
  { subst img0. by rewrite width_raster_map. }
  rewrite <- Hh0 in Hon.
  destruct (four_passes (PlotCombinedAnalysis.lighten alpha_blend)
              fig ax1 ax1_twin ax2 ax2_twin 300 threshold img0 Hon)
    as (l4 & Hl & Hlget).
  destruct (four_passes (PlotCombinedDarkTheme.darken alpha_blend)
              fig ax1 ax1_twin ax2 ax2_twin 300 threshold img0 Hon)
    as (d4 & Hd & Hdget).
  destruct (PlotOverlayThreshold.recolour_view
              (PlotCombinedAnalysis.lighten alpha_blend) img0 fig ax1 _ _ _)
    as [l1|] eqn:E1; [|done]. cbn [mbind result_bind] in Hl |- *.
  destruct (PlotOverlayThreshold.recolour_view
              (PlotCombinedAnalysis.lighten alpha_blend) l1 fig ax1_twin _ _ _)
    as [l2|] eqn:E2; [|done]. cbn [mbind result_bind] in Hl |- *.
  destruct (PlotOverlayThreshold.recolour_view
              (PlotCombinedAnalysis.lighten alpha_blend) l2 fig ax2 _ _ _)
    as [l3|] eqn:E3; [|done]. cbn [mbind result_bind] in Hl |- *.
  rewrite Hl. cbn [mbind result_bind].
  destruct (PlotOverlayThreshold.recolour_view
              (PlotCombinedDarkTheme.darken alpha_blend) img0 fig ax1 _ _ _)
    as [d1|] eqn:F1; [|done]. cbn [mbind result_bind] in Hd |- *.
  destruct (PlotOverlayThreshold.recolour_view
              (PlotCombinedDarkTheme.darken alpha_blend) d1 fig ax1_twin _ _ _)
    as [d2|] eqn:F2; [|done]. cbn [mbind result_bind] in Hd |- *.
  destruct (PlotOverlayThreshold.recolour_view
              (PlotCombinedDarkTheme.darken alpha_blend) d2 fig ax2 _ _ _)
    as [d3|] eqn:F3; [|done]. cbn [mbind result_bind] in Hd |- *.
  rewrite Hd. cbn [mbind result_bind].
  eexists _, _. split_and!; [done|done|].
  intros y x p Hp Hb Hout. rewrite <- Hh0, <- Hw0 in Hout.
  assert (Hq : get_px img0 y x = Some (px_map inject_Z p)).
  { subst img0. by rewrite get_raster_map, Hp. }
  rewrite !get_raster_map.
  rewrite (Hlget y x _ Hq Hout), (Hdget y x _ Hq Hout). simpl.
  by rewrite px_clip_roundtrip.
Qed.

Lemma vectorised_frame_witness :
  ∃ light dark,
    PlotOverlayThreshold.apply_light_threshold
      red_fig (flat_axis, flat_axis, flat_axis, flat_axis) 50 (2 # 10)
    = Ok light
    ∧ PlotOverlayThreshold.apply_dark_threshold
        red_fig (flat_axis, flat_axis, flat_axis, flat_axis) 50 (2 # 10)
      = Ok dark
    ∧ get_px light 0 0 = Some red_px ∧ get_px dark 0 0 = Some red_px.
Proof.
  destruct (vectorised_frame red_fig flat_axis flat_axis flat_axis flat_axis
              50 (2 # 10)) as (light & dark & Hl & Hd & Hframe).
  - repeat constructor; vm_compute; discriminate.
  - exists light, dark. split_and!; [exact Hl|exact Hd| |];
      apply (Hframe 0%nat 0%nat red_px eq_refl);
      solve [solve_bytes | repeat constructor].
Defined.

(** ** Geometry of the threshold row *)

Section threshold_geometry.

Lemma ext_div_Fin (a b : Q) : ¬ (b == 0)%Q → ext_div a b = Fin (a / b)%Q.
Proof.
  intros Hb. unfold ext_div.
  destruct (Qeq_bool b 0) eqn:E; [|done].
  by apply Qeq_bool_iff in E.
Qed.

End threshold_geometry.

(** X12: where the threshold row falls.  For Y limits [ylo < yhi], a
    threshold between them and a box with [top_px <= bottom_px], the
    threshold row is finite and lies between the top and the bottom row of
    the box; a threshold halfway between the limits puts it halfway
    between the two rows; a row passes the test [px_y >= thr_px] exactly
    when it is at or below it. *)
Theorem threshold_row_in_box (fig : figure) (ax : axis) (dpi : Z)
    (threshold : Q) :
  (fst (ylim ax) < snd (ylim ax))%Q →
  (fst (ylim ax) <= threshold)%Q → (threshold <= snd (ylim ax))%Q →
  top_px_of fig ax dpi ≤ bottom_px_of fig ax dpi →
  ∃ q,
    threshold_row fig ax dpi threshold = Fin q
    ∧ (inject_Z (top_px_of fig ax dpi) <= q)%Q
    ∧ (q <= inject_Z (bottom_px_of fig ax dpi))%Q
    ∧ ((threshold - fst (ylim ax) == snd (ylim ax) - threshold)%Q →
       (2 * q == inject_Z (top_px_of fig ax dpi)
                 + inject_Z (bottom_px_of fig ax dpi))%Q)
    ∧ ∀ y : Z,
        ge_ext y (threshold_row fig ax dpi threshold) = true
        ↔ (q <= inject_Z y)%Q.
Proof.
  intros Hlim Hlo Hhi Hbox. unfold threshold_row. cbv zeta.
  set (top := top_px_of fig ax dpi) in *.
  set (bot := bottom_px_of fig ax dpi) in *.
  set (ylo := fst (ylim ax)) in *. set (yhi := snd (ylim ax)) in *.
  assert (Hd : (0 < yhi - ylo)%Q) by lra.
  rewrite ext_div_Fin by lra.
  cbn [ext_sub ext_neg ext_add ext_mul].
  set (t := ((threshold - ylo) / (yhi - ylo))%Q).
  assert (Ht0 : (0 <= t)%Q).
  { subst t. apply Qle_shift_div_l; [done|]. lra. }
  assert (Ht1 : (t <= 1)%Q).
  { subst t. apply Qle_shift_div_r; [done|]. lra. }
  assert (Hw : (0 <= inject_Z (bot - top))%Q).
  { change 0%Q with (inject_Z 0). rewrite <- Zle_Qle. lia. }
  assert (Hbt : (inject_Z (bot - top) == inject_Z bot - inject_Z top)%Q).
  { unfold Z.sub. by rewrite inject_Z_plus, inject_Z_opp. }
  eexists. split; [done|]. split_and!.
  - nra.
  - rewrite Hbt in *. nra.
  - intros Hmid.
    assert (Hhalf : (2 * t == 1)%Q).
    { subst t. field_simplify_eq; lra. }
    rewrite Hbt. nra.
  - intros y. simpl. apply Qle_bool_iff.
Qed.

Lemma threshold_row_in_box_witness :
  ∃ q,
    threshold_row red_fig full_axis 300 50 = Fin q
    ∧ (2 * q == inject_Z (top_px_of red_fig full_axis 300)
                + inject_Z (bottom_px_of red_fig full_axis 300))%Q.
Proof.
  destruct (threshold_row_in_box red_fig full_axis 300 50)
    as (q & Hq & _ & _ & Hmid & _).
  - reflexivity.
  - discriminate.
  - discriminate.
  - discriminate.
  - exists q. split; [exact Hq|]. apply Hmid. reflexivity.
Defined.

(** ** The counter of modified pixels *)

Section counted_scan.

Context (body : Z → Z → raster Q * Z → result (raster Q * Z)).
Context (G : nat → pixel Q → pixel Q) (hit : nat → pixel Q → bool) (h w : Z).

Hypothesis body_count : ∀ st px_x px_y,
  0 ≤ px_x < w → 0 ≤ px_y < h → shaped h w st.1 →
  ∃ st', body px_x px_y st = Ok st'
    ∧ shaped h w st'.1
    ∧ (∀ y x : nat,
        get_px st'.1 y x
        = if decide (Z.of_nat y = px_y ∧ Z.of_nat x = px_x)
          then G y <$> get_px st.1 y x
          else get_px st.1 y x)
    ∧ st'.2 = st.2 + hit_at hit st.1 px_x px_y.

Lemma sum_Z_snoc (l : list Z) (a : Z) : sum_Z (l ++ [a]) = sum_Z l + a.
Proof.
  unfold sum_Z. induction l as [|b l IH]; cbn [app foldr]; [lia|].
  rewrite IH. lia.
Qed.

Lemma elem_of_zrange lo hi i : i ∈ zrange lo hi ↔ lo ≤ i < hi.
Proof.
  unfold zrange. rewrite list_elem_of_fmap. split.
  - intros (k & -> & Hk). apply elem_of_seq in Hk. lia.
  - intros Hi. exists (Z.to_nat (i - lo)). split; [lia|].
    apply elem_of_seq. lia.
Qed.

Lemma sum_Z_ext {A} (f g : A → Z) (l : list A) :
  (∀ a, a ∈ l → f a = g a) → sum_Z (f <$> l) = sum_Z (g <$> l).
Proof.
  intros H. f_equal. apply list_fmap_ext. intros i a Ha.
  apply H. by eapply list_elem_of_lookup_2.
Qed.

Lemma counted_rows st px_x lo hi :
  0 ≤ px_x < w → 0 ≤ lo → hi ≤ h → shaped h w st.1 →
  ∃ st', for_range lo hi (body px_x) st = Ok st'
    ∧ shaped h w st'.1
    ∧ (∀ y x : nat,
        get_px st'.1 y x
        = if decide (Z.of_nat x = px_x ∧ lo ≤ Z.of_nat y < hi)
          then G y <$> get_px st.1 y x
          else get_px st.1 y x)
    ∧ st'.2 = st.2 + sum_Z (hit_at hit st.1 px_x <$> zrange lo hi).
Proof.
  intros Hx Hlo Hhi Hshape.
  destruct (Z.le_gt_cases lo hi) as [Hle|Hgt].
  2:{ exists st. rewrite for_range_nil, zrange_nil by lia.
      split_and!; [done|done| |unfold sum_Z; simpl; lia].
      intros y x. rewrite decide_False; [done|lia]. }
  pose (P := λ (i : Z) (st' : raster Q * Z),
    shaped h w st'.1
    ∧ (∀ y x : nat,
        get_px st'.1 y x
        = if decide (Z.of_nat x = px_x ∧ lo ≤ Z.of_nat y < i)
          then G y <$> get_px st.1 y x
          else get_px st.1 y x)
    ∧ st'.2 = st.2 + sum_Z (hit_at hit st.1 px_x <$> zrange lo i)).
  destruct (for_range_ind P lo hi (body px_x) st) as (st' & Hst' & HP);
    unfold P in *; [| |done|by exists st'].
  - split_and!; [done| |rewrite zrange_nil by lia; unfold sum_Z; simpl; lia].
    intros y x. rewrite decide_False; [done|lia].
  - intros i st' Hi (Hsh & IH & Hcnt).
    destruct (body_count st' px_x i) as (st'' & Hst'' & Hsh'' & Hget & Hc);
      [lia|lia|done|].
    exists st''. split_and!; [done|done| |].
    + intros y x. rewrite Hget, IH.
      destruct (decide (Z.of_nat y = i ∧ Z.of_nat x = px_x)) as [[Hy Hx']|Hn].
      * rewrite decide_False by lia. rewrite decide_True by lia. done.
      * destruct (decide (Z.of_nat x = px_x ∧ lo ≤ Z.of_nat y < i)).
        -- rewrite decide_True by lia. done.
        -- rewrite decide_False by lia. done.
    + rewrite Hc, Hcnt, zrange_snoc, fmap_app, list_fmap_singleton,
        sum_Z_snoc by lia.
      assert (Hsame : hit_at hit st'.1 px_x i = hit_at hit st.1 px_x i).
      { unfold hit_at. rewrite IH. rewrite decide_False; [done|lia]. }
      rewrite Hsame. lia.
Qed.

Lemma counted_window st xlo xhi ylo yhi :
  0 ≤ xlo → xhi ≤ w → 0 ≤ ylo → yhi ≤ h → shaped h w st.1 →
  ∃ st', for_range xlo xhi (λ px_x, for_range ylo yhi (body px_x)) st = Ok st'
    ∧ st'.2 = st.2 + count_hits hit st.1 xlo xhi ylo yhi.
Proof.
  intros Hxlo Hxhi Hylo Hyhi Hshape. unfold count_hits.
  destruct (Z.le_gt_cases xlo xhi) as [Hle|Hgt].
  2:{ exists st. rewrite for_range_nil, (zrange_nil xlo xhi) by lia.
      split; [done|]. unfold sum_Z. simpl. lia. }
  pose (P := λ (i : Z) (st' : raster Q * Z),
    shaped h w st'.1
    ∧ (∀ y x : nat,
        get_px st'.1 y x
        = if decide ((xlo ≤ Z.of_nat x < i) ∧ (ylo ≤ Z.of_nat y < yhi))
          then G y <$> get_px st.1 y x
          else get_px st.1 y x)
    ∧ st'.2 = st.2
              + sum_Z ((λ x, sum_Z (hit_at hit st.1 x <$> zrange ylo yhi))
                       <$> zrange xlo i)).
  destruct (for_range_ind P xlo xhi
              (λ px_x, for_range ylo yhi (body px_x)) st)
    as (st' & Hst' & HP); unfold P in *; [| |done|].
  - split_and!; [done| |rewrite (zrange_nil xlo xlo) by lia; unfold sum_Z; simpl; lia].
    intros y x. rewrite decide_False; [done|lia].
  - intros i st' Hi (Hsh & IH & Hcnt).
    destruct (counted_rows st' i ylo yhi)
      as (st'' & Hst'' & Hsh'' & Hget & Hc); [lia|lia|lia|done|].
    exists st''. split_and!; [done|done| |].
    + intros y x. rewrite Hget, IH.
      destruct (decide (Z.of_nat x = i ∧ ylo ≤ Z.of_nat y < yhi)) as [[Hx Hy]|Hn].
      * rewrite decide_False by lia. rewrite decide_True by lia. done.
      * destruct (decide ((xlo ≤ Z.of_nat x < i) ∧ (ylo ≤ Z.of_nat y < yhi))).
        -- rewrite decide_True by lia. done.
        -- rewrite decide_False by lia. done.
    + rewrite Hc, Hcnt, (zrange_snoc xlo i), fmap_app, list_fmap_singleton,
        sum_Z_snoc by lia.
      rewrite (sum_Z_ext (hit_at hit st'.1 i) (hit_at hit st.1 i)); [lia|].
      intros y Hy. apply elem_of_zrange in Hy.
      unfold hit_at. rewrite IH. rewrite decide_False; [done|lia].
  - destruct HP as (_ & _ & Hcnt). by exists st'.
Qed.

End counted_scan.

Section lightening_count.

Import PlotCombinedAnalysis.

Lemma lighten_body_count color_rgb alpha_blend thr h w st px_x px_y :
  0 ≤ px_x < w → 0 ≤ px_y < h → shaped h w st.1 →
  ∃ st', lighten_body color_rgb alpha_blend thr px_x px_y st = Ok st'
    ∧ shaped h w st'.1
    ∧ (∀ y x : nat,
        get_px st'.1 y x
        = if decide (Z.of_nat y = px_y ∧ Z.of_nat x = px_x)
          then lighten_px color_rgb alpha_blend thr y <$> get_px st.1 y x
          else get_px st.1 y x)
    ∧ st'.2 = st.2 + hit_at (lighten_hit color_rgb thr) st.1 px_x px_y.
Proof.
  intros Hx Hy Hshape.
  destruct (lighten_body_spec color_rgb alpha_blend thr h w st px_x px_y
              Hx Hy Hshape) as (st' & Hrun & Hsh & Hget).
  exists st'. split_and!; [done|done|done|].
  destruct st as [img n]. simpl in Hshape.
  destruct (shaped_get h w img px_y px_x Hshape Hy Hx) as [p Hp].
  unfold hit_at, lighten_hit. cbn [fst snd]. rewrite Hp.
  rewrite Z2Nat.id by lia.
  unfold lighten_body, read_px in Hrun. rewrite Hp in Hrun.
  destruct color_rgb as [[r g] b]. cbn [target_255].
  destruct (ge_ext px_y thr); cbn [andb mbind result_bind] in Hrun |- *.
  - destruct (norm_lt p _ COLOR_TOL); injection Hrun as <-; simpl; lia.
  - injection Hrun as <-. simpl. lia.
Qed.

End lightening_count.

Lemma lightening_loop_count (fig : figure) (ax : axis)
    (color_rgb : Q * Q * Q) (threshold alpha_blend : Q) :
  rectangular (rendered fig) →
  ∃ st,
    for_range (Z.max 0 (left_px_of ax 300 - 5))
      (Z.min (right_px_of ax 300 + 1) (width (rendered fig)))
      (λ px_x,
         for_range (Z.max 0 (top_px_of fig ax 300))
           (Z.min (bottom_px_of fig ax 300 + 1) (height (rendered fig)))
           (PlotCombinedAnalysis.lighten_body color_rgb alpha_blend
              (threshold_row fig ax 300 threshold) px_x))
      (raster_map inject_Z (rendered fig), 0)
    = Ok st
    ∧ st.2 = count_hits
               (lighten_hit color_rgb (threshold_row fig ax 300 threshold))
               (raster_map inject_Z (rendered fig))
               (Z.max 0 (left_px_of ax 300 - 5))
               (Z.min (right_px_of ax 300 + 1) (width (rendered fig)))
               (Z.max 0 (top_px_of fig ax 300))
               (Z.min (bottom_px_of fig ax 300 + 1) (height (rendered fig))).
Proof.
  intros Hrect.
  destruct (counted_window
              (PlotCombinedAnalysis.lighten_body color_rgb alpha_blend
                 (threshold_row fig ax 300 threshold))
              (lighten_px color_rgb alpha_blend
                 (threshold_row fig ax 300 threshold))
              (lighten_hit color_rgb (threshold_row fig ax 300 threshold))
              (height (rendered fig)) (width (rendered fig))
              (λ st px_x px_y, lighten_body_count _ _ _ _ _ st px_x px_y)
              (raster_map inject_Z (rendered fig), 0)
              (Z.max 0 (left_px_of ax 300 - 5))
              (Z.min (right_px_of ax 300 + 1) (width (rendered fig)))
              (Z.max 0 (top_px_of fig ax 300))
              (Z.min (bottom_px_of fig ax 300 + 1) (height (rendered fig))))
    as ([img n] & Hst & Hcnt); [lia|lia|lia|lia| |].
  { by apply shaped_raster_map, rectangular_shaped. }
  exists (img, n). split; [done|]. cbn [fst snd] in *. rewrite Hcnt. lia.
Qed.

(** X13: what [pixels_modified] counts.  The counter returned by
    [apply_threshold_lightening] is the number of pixels of the rendered
    image that lie in the scanned window, at or below the threshold row,
    and within the colour tolerance of the target. *)
Theorem pixels_modified_counts_hits (fig : figure) (ax : axis)
    (color_rgb : Q * Q * Q) (threshold alpha_blend : Q) :
  rectangular (rendered fig) →
  ∃ out n,
    PlotCombinedAnalysis.apply_threshold_lightening
      fig ax color_rgb threshold alpha_blend = Ok (out, n)
    ∧ n = count_hits
            (lighten_hit color_rgb (threshold_row fig ax 300 threshold))
            (raster_map inject_Z (rendered fig))
            (Z.max 0 (left_px_of ax 300 - 5))
            (Z.min (right_px_of ax 300 + 1) (width (rendered fig)))
            (Z.max 0 (top_px_of fig ax 300))
            (Z.min (bottom_px_of fig ax 300 + 1) (height (rendered fig))).
Proof.
  intros Hrect. unfold PlotCombinedAnalysis.apply_threshold_lightening.
  cbv zeta. rewrite width_raster_map, height_raster_map.
  destruct (lightening_loop_count fig ax color_rgb threshold alpha_blend Hrect)
    as ([img n] & Hst & Hcnt).
  rewrite Hst. cbn [mbind result_bind fst snd] in *. by eexists _, _.
Qed.

Lemma pixels_modified_counts_hits_witness :
  ∃ out,
    PlotCombinedAnalysis.apply_threshold_lightening
      red_fig flat_axis (1, 0, 0)%Q 50 (2 # 10) = Ok (out, 2).
Proof.
  destruct (pixels_modified_counts_hits red_fig flat_axis (1, 0, 0)%Q 50
              (2 # 10)) as (out & n & Hrun & Hn).
  - solve_bytes.
  - exists out. rewrite Hrun. f_equal. f_equal. rewrite Hn. reflexivity.
Defined.

(** ** The ProbList parser *)

Example parse_problist_example :
  ExportPlotDataParser.parse_problist
    [">ELKS2 ## 4 states"; "   1  M   0.5  a"; " 2 K 12.25 b"; "cat"; "3 * 1 c"]%string
  = Ok {[ "ELKS2"%string :=
            [CcEntry 1 "M" (5 # 10) "a"; CcEntry 2 "K" (1225 # 100) "b";
             CcEntry 3 "*" (1 # 1) "c"] ]}.
Proof. vm_compute. reflexivity. Qed.

Section problist.

Import Text ProbList.

Context (residue : ascii → bool).

Lemma for_each_app {A St} (l1 l2 : list A) (body : A → St → result St) st :
  for_each (l1 ++ l2) body st = for_each l1 body st ≫= for_each l2 body.
Proof.
  revert st. induction l1 as [|a l1 IH]; intros st; [done|].
  cbn [app]. rewrite !for_each_cons.
  destruct (body a st) as [st'|e]; simpl; [apply IH|done].
Qed.

Lemma parse_line_header line st :
  is_header line = true →
  parse_line residue line st
  = Ok (<[announced line := []]> st.1, Some (announced line)).
Proof.
  unfold is_header, announced, parse_line. intros H.
  destruct st as [results cur]. by rewrite H.
Qed.

(** A line that is not a header leaves the current name alone and touches
    the entry list of that name only; what it does to that list depends on
    the list alone. *)
Lemma parse_line_data line results1 results2 name :
  is_header line = false →
  results1 !! name = results2 !! name →
  match parse_line residue line (results1, Some name),
        parse_line residue line (results2, Some name) with
  | Ok (r1, c1), Ok (r2, c2) =>
      c1 = Some name ∧ c2 = Some name ∧ r1 !! name = r2 !! name
      ∧ ∀ other, other ≠ name → r1 !! other = results1 !! other
  | Raise e1, Raise e2 => e1 = e2
  | _, _ => False
  end.
Proof.
  unfold is_header, parse_line. intros H Hsame. rewrite H.
  destruct (match_data_line residue (strip line)) as [[[[pos aa] prob] ph]|];
    [|done].
  destruct (is_empty name); [done|].
  destruct (py_float_of prob) as [p|e]; simpl; [|done].
  split_and!; [done|done| |].
  - by rewrite !lookup_alter, Hsame.
  - intros other Hne. by rewrite lookup_alter_ne.
Qed.

Lemma parse_block body results1 results2 name :
  Forall (λ l, is_header l = false) body →
  results1 !! name = results2 !! name →
  match for_each body (parse_line residue) (results1, Some name),
        for_each body (parse_line residue) (results2, Some name) with
  | Ok (r1, c1), Ok (r2, c2) =>
      c1 = Some name ∧ c2 = Some name ∧ r1 !! name = r2 !! name
  | Raise e1, Raise e2 => e1 = e2
  | _, _ => False
  end.
Proof.
  intros Hbody. revert results1 results2.
  induction Hbody as [|line body Hline _ IH]; intros results1 results2 Hsame.
  - done.
  - rewrite !for_each_cons.
    pose proof (parse_line_data line results1 results2 name Hline Hsame) as H.
    destruct (parse_line residue line (results1, Some name)) as [[r1 c1]|e1];
      destruct (parse_line residue line (results2, Some name)) as [[r2 c2]|e2];
      try done.
    destruct H as (-> & -> & H & _). simpl. by apply IH.
Qed.

Lemma last_header_wins pre hdr body results :
  is_header hdr = true →
  Forall (λ l, is_header l = false) body →
  parse_problist_with residue (pre ++ hdr :: body) = Ok results →
  ∃ alone,
    parse_problist_with residue (hdr :: body) = Ok alone
    ∧ results !! announced hdr = alone !! announced hdr.
Proof.
  intros Hhdr Hbody. unfold parse_problist_with.
  rewrite for_each_app.
  destruct (for_each pre (parse_line residue) (∅, None)) as [[r0 c0]|e];
    [|done].
  rewrite bind_Ok, !for_each_cons, !(parse_line_header hdr) by done.
  rewrite !bind_Ok.
  cbn [fst].
  pose proof (parse_block body (<[announced hdr:=[]]> r0)
                (<[announced hdr:=[]]> ∅) (announced hdr) Hbody) as H.
  destruct (for_each body _ (<[announced hdr:=[]]> r0, _)) as [[r1 c1]|e1];
    destruct (for_each body _ (<[announced hdr:=[]]> ∅, _)) as [[r2 c2]|e2];
    rewrite ?lookup_insert_eq in H; try (by destruct H); try done.
  - simpl. intros [= <-]. exists r2. split; [done|]. by apply H.
Qed.


End problist.

Section problist_copies.

Import Text ProbList.

Lemma star_char (c : ascii) :
  (nat_of_ascii c =? 42)%nat = true → c = "*"%char.
Proof.
  intros H. apply Nat.eqb_eq in H.
  rewrite <- (ascii_nat_embedding c), H. reflexivity.
Qed.

Lemma match_data_line_agree (line : string) :
  (∀ pos prob ph,
     match_data_line is_upper_or_star line ≠ Some (pos, "*"%string, prob, ph)) →
  match_data_line is_upper line = match_data_line is_upper_or_star line.
Proof.
  unfold match_data_line. intros Hstar.
  destruct (span is_space line) as [g0 s0].
  destruct (span is_digit s0) as [pos s1].
  destruct (is_empty pos); [done|].
  destruct (span is_space s1) as [g1 s2].
  destruct (is_empty g1); [done|].
  destruct s2 as [|aa s3]; [done|].
  unfold is_upper_or_star in *.
  destruct (is_upper aa); [done|].
  destruct (nat_of_ascii aa =? 42)%nat eqn:Haa; [|done].
  apply star_char in Haa as ->. cbn [orb negb] in *.
  destruct (span is_space s3) as [g2 s4].
  destruct (is_empty g2); [done|].
  destruct (span is_digit_or_dot s4) as [prob s5].
  destruct (is_empty prob); [done|].
  destruct (span is_space s5) as [g3 s6].
  destruct (is_empty g3); [done|].
  destruct s6 as [|ph s7]; [done|].
  destruct (is_a_to_g ph); [|done].
  by destruct (Hstar pos prob (String ph EmptyString)).
Qed.

Lemma parse_line_agree line st :
  residue_of line ≠ Some "*"%string →
  parse_line is_upper line st = parse_line is_upper_or_star line st.
Proof.
  unfold residue_of, parse_line. intros Hres.
  destruct st as [results cur].
  destruct (startswith_gt (strip line)); [done|].
  rewrite match_data_line_agree; [done|].
  intros pos prob ph Hm. by rewrite Hm in Hres.
Qed.

End problist_copies.

(** X14: only the last header of a name counts.  A header line resets
    the entry list of the name it announces: when the lines after it hold
    no further header, the entries both copies of [parse_problist] return
    under that name are those they return for the header and the lines
    after it alone, whatever came before. *)
Theorem parse_problist_last_header_wins (pre : list string) (hdr : string)
    (body : list string) :
  is_header hdr = true →
  Forall (λ l, is_header l = false) body →
  (∀ results,
     ExportPlotDataParser.parse_problist (pre ++ hdr :: body) = Ok results →
     ∃ alone,
       ExportPlotDataParser.parse_problist (hdr :: body) = Ok alone
       ∧ results !! announced hdr = alone !! announced hdr)
  ∧ (∀ results,
       PlotCombinedAnalysisParser.parse_problist (pre ++ hdr :: body)
       = Ok results →
       ∃ alone,
         PlotCombinedAnalysisParser.parse_problist (hdr :: body) = Ok alone
         ∧ results !! announced hdr = alone !! announced hdr).
Proof.
  intros Hhdr Hbody. split; intros results; by apply last_header_wins.
Qed.

Lemma parse_problist_last_header_wins_witness :
  ∃ results,
    ExportPlotDataParser.parse_problist
      [">A"; "1 M 90.0 a"; "2 K 80.0 b"; ">A ## again"; "1 M 10.0 c"]%string
    = Ok results
    ∧ results !! "A"%string = Some [CcEntry 1 "M" (100 # 10) "c"].
Proof.
  eexists. split; [vm_compute; reflexivity|].
  destruct (parse_problist_last_header_wins
              [">A"; "1 M 90.0 a"; "2 K 80.0 b"]%string
              ">A ## again"%string ["1 M 10.0 c"]%string) as [H _].
  - reflexivity.
  - repeat constructor.
  - destruct (H _ ltac:(vm_compute; reflexivity)) as (alone & Halone & Hlk).
    vm_compute in Halone. injection Halone as <-.
    vm_compute in Hlk. vm_compute. exact Hlk.
Defined.

(** X15: the two copies of [parse_problist] differ on the stop residue
    only.  On lines none of which is a data line with residue ["*"] the
    copy of plot_combined_analysis.py returns what the copy of
    export_plot_data.py returns (the same dictionary or the same error); a
    data line with residue ["*"] is stored by the latter and skipped by the
    former. *)
Theorem parse_problist_copies_differ_on_stop (lines : list string) :
  (Forall (λ l, residue_of l ≠ Some "*"%string) lines →
   PlotCombinedAnalysisParser.parse_problist lines
   = ExportPlotDataParser.parse_problist lines)
  ∧ ExportPlotDataParser.parse_problist [">s"; "7 * 0.5 a"]%string
    = Ok {[ "s"%string := [CcEntry 7 "*" (5 # 10) "a"] ]}
  ∧ PlotCombinedAnalysisParser.parse_problist [">s"; "7 * 0.5 a"]%string
    = Ok {[ "s"%string := [] ]}.
Proof.
  split_and!; [|vm_compute; reflexivity|vm_compute; reflexivity].
  intros Hlines.
  unfold PlotCombinedAnalysisParser.parse_problist,
    ExportPlotDataParser.parse_problist, ProbList.parse_problist_with.
  f_equal. generalize (∅ : gmap string (list cc_entry), None : option string).
  induction Hlines as [|line lines Hline _ IH]; intros st; [done|].
  rewrite !for_each_cons, (parse_line_agree line st Hline).
  destruct (ProbList.parse_line Text.is_upper_or_star line st); simpl; [|done].
  apply IH.
Qed.

Lemma parse_problist_copies_differ_on_stop_witness :
  PlotCombinedAnalysisParser.parse_problist [">s"; "7 K 0.5 a"]%string
  = ExportPlotDataParser.parse_problist [">s"; "7 K 0.5 a"]%string.
Proof.
  destruct (parse_problist_copies_differ_on_stop [">s"; "7 K 0.5 a"]%string)
    as [H _].
  apply H. repeat constructor; vm_compute; discriminate.
Defined.



(** ** The threshold version of plot_combined_analysis *)

Section threshold_version.

Import PlotCombinedAnalysisThreshold.








End threshold_version.



(** ** Names of the files written *)

Section output_names.

Import OutputNames.

Lemma rsplit_dot_None (s : string) :
  has_char "." s = false → rsplit_dot s = None.
Proof.
  induction s as [|c s IH]; [done|]. simpl. intros H.
  apply orb_false_iff in H as [Hc Hs]. by rewrite IH, Hc.
Qed.

Lemma rsplit_dot_join (stem ext : string) :
  has_char "." ext = false →
  rsplit_dot (stem +:+ "." +:+ ext) = Some (stem, ext).
Proof.
  intros Hext. induction stem as [|c stem IH]; simpl.
  - by rewrite rsplit_dot_None.
  - by rewrite IH.
Qed.

Lemma replace_spaces_fixed (name suffix : string) :
  replace_spaces name +:+ suffix = name +:+ suffix
  ↔ has_char " " name = false.
Proof.
  induction name as [|c name IH]; [done|].
  change (replace_spaces (String c name) +:+ suffix)
    with (String (if Ascii.eqb c " " then "_"%char else c)
                 (replace_spaces name +:+ suffix)).
  change (String c name +:+ suffix) with (String c (name +:+ suffix)).
  change (has_char " " (String c name))
    with (Ascii.eqb c " " || has_char " " name).
  destruct (Ascii.eqb c " ") eqn:Hc; cbn [orb].
  - apply Ascii.eqb_eq in Hc as ->. split; [|done]. by intros [= _].
  - split.
    + intros [= H]. by apply IH.
    + intros H. f_equal. by apply IH.
Qed.

End output_names.

(** X18: names of the files written.  For an output name with an
    extension the threshold image is written beside it with [_threshold]
    before the last dot; a name without a dot gets [_threshold.png]; the
    combined CSV is named after the sequence itself exactly when the
    sequence name holds no space (spaces become underscores). *)
Theorem threshold_output_beside_image (stem ext seq_name : string) :
  OutputNames.has_char "." ext = false →
  OutputNames.threshold_output (Some (stem +:+ "." +:+ ext)) seq_name
  = stem +:+ "_threshold." +:+ ext
  ∧ (ext ≠ ""%string →
     OutputNames.threshold_output (Some ext) seq_name
     = ext +:+ "_threshold.png")
  ∧ (OutputNames.csv_filename seq_name = seq_name +:+ "_combined_scores.csv"
     ↔ OutputNames.has_char " " seq_name = false).
Proof.
  intros Hext. split_and!.
  - unfold OutputNames.threshold_output.
    rewrite rsplit_dot_join by done.
    by destruct stem.
  - intros Hne. unfold OutputNames.threshold_output.
    rewrite rsplit_dot_None by done. by destruct ext.
  - apply replace_spaces_fixed.
Qed.

Lemma threshold_output_beside_image_witness :
  OutputNames.threshold_output (Some "out.d/ELKS2_combined_analysis.png"%string)
    "ELKS2"
  = "out.d/ELKS2_combined_analysis_threshold.png"%string.
Proof.
  destruct (threshold_output_beside_image
              "out.d/ELKS2_combined_analysis"%string "png"%string
              "ELKS2"%string) as [H _].
  - reflexivity.
  - exact H.
Defined.

(** ** Columns of the exported tables *)

Section table_columns.



End table_columns.



(** ** The region exporters side by side *)

Section overlay_regions.

Import RegionSummaryTables OverlayRegions.

Lemma to_percent_percent_like (x : Q) :
  percent_like x → (to_percent x == x)%Q.
Proof.
  intros [H0|H1]; unfold to_percent.
  - destruct (Qle_bool x 1); rewrite H0; ring.
  - destruct (Qle_bool x 1) eqn:E; [|ring].
    apply Qle_bool_iff in E. lra.
Qed.

Lemma Qle_bool_proper (thr x y : Q) :
  (x == y)%Q → Qle_bool thr x = Qle_bool thr y.
Proof.
  intros E. apply eq_true_iff_eq. rewrite !Qle_bool_iff. by rewrite E.
Qed.

Lemma replicate_fmap_const {A} (l : list A) :
  replicate (length l) false = (λ _, false) <$> l.
Proof. induction l as [|x l IH]; simpl; [done|]. by rewrite IH. Qed.

(** The line an overlay script writes for one row of the plot-data CSV. *)
Lemma overlay_tm_positions csv spans thr :
  (overlay_tm_regions csv spans thr).1
  = (λ r, RegionsRow (pc_Position r) (pc_Residue r)
            (pc_Disorder_Score_Original r) (pc_Disorder_Score_3res_MA r)
            (yes_no (Qle_bool thr (pc_Disorder_Score_Original r)))
            (pc_CC_Probability_Original r) (pc_CC_Probability_3res_MA r)
            (yes_no (Qle_bool thr (pc_CC_Probability_Original r)))
            (pc_Heptad_Phase r)
            (yes_no (in_any_span spans (pc_Position r)))) <$> csv.
Proof.
  unfold overlay_tm_regions, load_plot_data,
    PlotDeepTmhmmRegions.export_regions. cbn [fst].
  assert (Htm : match spans with
                | [] => replicate (length (pc_Position <$> csv)) false
                | _ :: _ => in_any_span spans <$> (pc_Position <$> csv)
                end
                = (λ r, in_any_span spans (pc_Position r)) <$> csv).
  { destruct spans as [|sp spans].
    - rewrite length_fmap. apply replicate_fmap_const.
    - by rewrite <- list_fmap_compose. }
  rewrite Htm. rewrite <- !list_fmap_compose.
  rewrite !zip_fmap_same. rewrite <- list_fmap_compose.
  apply list_fmap_ext. intros i r _. done.
Qed.

Lemma overlay_basic_is_tm_without_spans csv thr :
  overlay_basic_regions csv thr = overlay_tm_regions csv [] thr.
Proof.
  unfold overlay_basic_regions, overlay_tm_regions, load_plot_data,
    PlotOverlayBasicRegions.export_regions,
    PlotDeepTmhmmRegions.export_regions.
  rewrite fmap_nil, app_nil_r.
  unfold PlotOverlayBasicRegions.flag_intervals, flag_intervals.
  cbn [fmap list_fmap mjoin list_join].
  by rewrite !flags_to_intervals_copies_agree.
Qed.

Lemma overlay_tm_intervals csv spans thr :
  (overlay_tm_regions csv spans thr).2
  = (interval_line "IDR" <$> flag_intervals (
       (λ r, Qle_bool thr (pc_Disorder_Score_Original r)) <$> csv))
    ++ (interval_line "CC" <$> flag_intervals (
         (λ r, Qle_bool thr (pc_CC_Probability_Original r)) <$> csv))
    ++ (interval_line "TM" <$> spans).
Proof.
  unfold overlay_tm_regions, load_plot_data,
    PlotDeepTmhmmRegions.export_regions.
  cbn [snd fmap list_fmap mjoin list_join].
  rewrite app_nil_r, <- app_assoc. by rewrite <- !list_fmap_compose.
Qed.

End overlay_regions.

(** X20: the three region exporters on one table.  When every score of
    the table is 0 or above 1, [main] of export_region_summary.py and
    [export_regions] of plot_deeptmhmm_overlay_threshold.py (after
    [load_plot_data]) write the same intervals table and, line by line,
    the same per-residue cells, the overlay table having the further
    column [Heptad_Phase]; and [export_regions] of
    plot_overlay_threshold_basic.py writes what the DeepTMHMM copy writes
    for an empty list of TM spans. *)
Theorem region_exporters_agree (csv : list OverlayRegions.plot_csv_row)
    (spans : list (Z * Z)) (thr : Q) :
  Forall (λ r,
            percent_like (OverlayRegions.pc_Disorder_Score_Original r)
            ∧ percent_like (OverlayRegions.pc_Disorder_Score_3res_MA r)
            ∧ percent_like (OverlayRegions.pc_CC_Probability_Original r)
            ∧ percent_like (OverlayRegions.pc_CC_Probability_3res_MA r))
         csv →
  Forall2 same_line
    (RegionSummaryTables.main (as_combined <$> csv) spans thr).1
    (overlay_tm_regions csv spans thr).1
  ∧ (RegionSummaryTables.main (as_combined <$> csv) spans thr).2
    = (overlay_tm_regions csv spans thr).2
  ∧ overlay_basic_regions csv thr = overlay_tm_regions csv [] thr.
Proof.
  intros Hcsv. split; [|split].
  - rewrite main_positions, overlay_tm_positions.
    rewrite Forall2_fmap. apply Forall2_fmap_l.
    induction Hcsv as [|r l (Hd0 & Hd3 & Hc0 & Hc3) _ IH]; [constructor|].
    constructor; [|exact IH].
    unfold same_line, positions_line. cbn.
    pose proof (to_percent_percent_like _ Hd0) as E0.
    pose proof (to_percent_percent_like _ Hd3) as E3.
    pose proof (to_percent_percent_like _ Hc0) as F0.
    pose proof (to_percent_percent_like _ Hc3) as F3.
    rewrite (Qle_bool_proper thr _ _ E0), (Qle_bool_proper thr _ _ F0).
    by repeat split.
  - rewrite main_intervals, overlay_tm_intervals.
    rewrite <- !list_fmap_compose.
    assert (Hflags : ∀ (f : OverlayRegions.plot_csv_row → Q),
              Forall (λ r, percent_like (f r)) csv →
              (λ r, Qle_bool thr (RegionSummaryTables.to_percent (f r))) <$> csv
              = (λ r, Qle_bool thr (f r)) <$> csv).
    { intros f Hf. apply list_fmap_ext. intros i r Hr.
      apply Qle_bool_proper, to_percent_percent_like.
      by apply (Forall_lookup_1 _ _ _ _ Hf Hr). }
    f_equal; [|f_equal].
    + f_equal. f_equal.
      apply (Hflags OverlayRegions.pc_Disorder_Score_Original).
      eapply Forall_impl; [exact Hcsv|]. by intros r (? & _).
    + f_equal. f_equal.
      apply (Hflags OverlayRegions.pc_CC_Probability_Original).
      eapply Forall_impl; [exact Hcsv|]. by intros r (_ & _ & ? & _).
  - apply overlay_basic_is_tm_without_spans.
Qed.

Lemma region_exporters_agree_witness :
  (RegionSummaryTables.main
     (as_combined <$>
        [OverlayRegions.PlotCsvRow 1 "M" (80 # 1) (70 # 1) 0 0 "-";
         OverlayRegions.PlotCsvRow 2 "K" (60 # 1) (70 # 1) (90 # 1) (45 # 1) "a"])
     [(2, 2)] (50 # 1)).2
  = (overlay_tm_regions
       [OverlayRegions.PlotCsvRow 1 "M" (80 # 1) (70 # 1) 0 0 "-";
        OverlayRegions.PlotCsvRow 2 "K" (60 # 1) (70 # 1) (90 # 1) (45 # 1) "a"]
       [(2, 2)] (50 # 1)).2.
Proof.
  apply (region_exporters_agree
           [OverlayRegions.PlotCsvRow 1 "M" (80 # 1) (70 # 1) 0 0 "-";
            OverlayRegions.PlotCsvRow 2 "K" (60 # 1) (70 # 1) (90 # 1) (45 # 1) "a"]
           [(2, 2)] (50 # 1)).
  repeat constructor; unfold percent_like; cbn;
    first [left; reflexivity | right; reflexivity].
Defined.

(** ** A counter of zero *)

Section unmodified.

Lemma sum_Z_nonneg (l : list Z) : Forall (λ z, 0 ≤ z) l → 0 ≤ sum_Z l.
Proof.
  induction 1 as [|z l Hz _ IH]; [done|]. unfold sum_Z in *. cbn [foldr]. lia.
Qed.

Lemma sum_Z_zero (l : list Z) :
  Forall (λ z, 0 ≤ z) l → sum_Z l = 0 → Forall (λ z, z = 0) l.
Proof.
  induction 1 as [|z l Hz Hl IH]; intros Hsum; [constructor|].
  pose proof (sum_Z_nonneg l Hl) as Hn.
  unfold sum_Z in *. cbn [foldr] in Hsum.
  constructor; [lia|]. apply IH. lia.
Qed.

Lemma hit_at_nonneg hit img x y : 0 ≤ hit_at hit img x y.
Proof.
  unfold hit_at. destruct (get_px _ _ _); [|done]. by destruct (hit _ _).
Qed.

Lemma count_hits_zero hit img xlo xhi ylo yhi x y :
  count_hits hit img xlo xhi ylo yhi = 0 →
  xlo ≤ x < xhi → ylo ≤ y < yhi → hit_at hit img x y = 0.
Proof.
  unfold count_hits. intros Hsum Hx Hy.
  apply sum_Z_zero in Hsum.
  - rewrite Forall_fmap in Hsum.
    eapply Forall_forall in Hsum; [|apply elem_of_zrange; exact Hx].
    simpl in Hsum. apply sum_Z_zero in Hsum.
    + rewrite Forall_fmap in Hsum.
      eapply Forall_forall in Hsum; [|apply elem_of_zrange; exact Hy].
      exact Hsum.
    + apply Forall_fmap, Forall_forall. intros ? _. apply hit_at_nonneg.
  - apply Forall_fmap, Forall_forall. intros ? _. simpl.
    apply sum_Z_nonneg, Forall_fmap, Forall_forall. intros ? _.
    apply hit_at_nonneg.
Qed.

End unmodified.

(** X21: a counter of zero means an untouched image.  On a rectangular
    raster of bytes, when [apply_threshold_lightening] returns
    [pixels_modified = 0] the image it returns is the rendered image. *)
Theorem no_pixel_counted_no_change (fig : figure) (ax : axis)
    (color_rgb : Q * Q * Q) (threshold alpha_blend : Q) (out : raster Z) :
  rectangular (rendered fig) → byte_raster (rendered fig) →
  PlotCombinedAnalysis.apply_threshold_lightening
    fig ax color_rgb threshold alpha_blend = Ok (out, 0) →
  out = rendered fig.
Proof.
  intros Hrect Hbytes Hrun.
  destruct (apply_threshold_lightening_get fig ax color_rgb threshold
              alpha_blend Hrect) as (out1 & n1 & Hrun1 & Hget).
  destruct (apply_threshold_lightening_shaped fig ax color_rgb threshold
              alpha_blend Hrect) as (out2 & n2 & Hrun2 & Hshape).
  destruct (lightening_loop_count fig ax color_rgb threshold alpha_blend Hrect)
    as (st & Hloop & Hcnt).
  rewrite Hrun in Hrun1, Hrun2.
  injection Hrun1 as <- <-. injection Hrun2 as <- _.
  assert (Hzero : st.2 = 0).
  { unfold PlotCombinedAnalysis.apply_threshold_lightening in Hrun.
    cbv zeta in Hrun. rewrite width_raster_map, height_raster_map in Hrun.
    rewrite Hloop in Hrun. cbn [mbind result_bind] in Hrun.
    by injection Hrun as _ ->. }
  rewrite Hzero in Hcnt. symmetry in Hcnt.
  apply (raster_ext (height (rendered fig)) (width (rendered fig)));
    [done|by apply rectangular_shaped|].
  intros y x. rewrite Hget.
  destruct (get_px (rendered fig) y x) as [p|] eqn:Hp; [|done].
  cbn [fmap option_fmap option_map]. f_equal.
  pose proof (byte_raster_get _ _ _ _ Hbytes Hp) as Hb.
  case_decide as Hwin; [|by apply px_float_roundtrip].
  destruct Hwin as [Hx Hy].
  pose proof (count_hits_zero _ _ _ _ _ _ _ _ Hcnt Hx Hy) as Hhit.
  unfold hit_at in Hhit. rewrite !Nat2Z.id, get_raster_map, Hp in Hhit.
  cbn [fmap option_fmap option_map] in Hhit.
  unfold lighten_px. unfold lighten_hit in Hhit.
  destruct (ge_ext _ _ && norm_lt _ _ _); [done|].
  by apply px_float_roundtrip.
Qed.

Lemma no_pixel_counted_no_change_witness :
  PlotCombinedAnalysis.apply_threshold_lightening
    red_fig full_axis (0, 0, 1)%Q 50 (2 # 10) = Ok (rendered red_fig, 0)
  ∧ rendered red_fig = rendered red_fig.
Proof.
  split; [vm_compute; reflexivity|].
  apply (no_pixel_counted_no_change red_fig full_axis (0, 0, 1)%Q 50 (2 # 10)).
  - solve_bytes.
  - unfold byte_raster, byte_px. solve_bytes.
  - vm_compute. reflexivity.
Defined.
